(** * PCM interface core (src/pcm/pcm.c): a shallow embedding and its properties

  The model comes first:
  - [CTypes]   : the C integer conversions the code relies on (LP64);
  - [Names]    : the format name table and [snd_pcm_format_value];
  - [Area]     : channel areas over a byte-addressed memory and the
                 silence and copy routines;
  - [Pcm]      : the handle, its two operation tables, the state
                 operations, close, the byte/frame conversions, the areas
                 over application buffers and the transfer loops
                 [snd_pcm_read_areas]/[snd_pcm_write_areas];
  - [Tables]   : the name tables of the other enumerations and the
                 functions that read them;
  - [Examples] : an endpoint, a callback and memories to run the model on.

  The properties follow, module by module: [CTypesFacts], [NamesFacts],
  [PcmFacts], [AreaFacts], then [TableFacts], [HandleFacts],
  [TransferFacts] and [BufferFacts]. *)

From Stdlib Require Import ZArith List String Ascii Bool Lia.
From stdpp Require Import base gmap.

Local Open Scope Z_scope.

(** ** C integer types *)

Module CTypes.

(** [unsigned int] (32 bit) *)
Definition to_uint (z : Z) : Z := z mod 2 ^ 32.
(** [int] (32 bit, two's complement) *)
Definition to_int (z : Z) : Z := (z + 2 ^ 31) mod 2 ^ 32 - 2 ^ 31.
(** [unsigned long], [size_t], [snd_pcm_uframes_t] (64 bit) *)
Definition to_ulong (z : Z) : Z := z mod 2 ^ 64.
(** [long], [ssize_t], [snd_pcm_sframes_t] (64 bit, two's complement) *)
Definition to_long (z : Z) : Z := (z + 2 ^ 63) mod 2 ^ 64 - 2 ^ 63.

Definition LONG_MAX : Z := 2 ^ 63 - 1.

(** Outcome of a C call: it returns, or the process stops at a failed
    [assert], at a division by zero, at an access outside an array, or the
    model has no fuel left for a loop that is still blocked. *)
Inductive fault := AssertFail | DivByZero | OutOfBounds | OutOfFuel.

Inductive res (A : Type) :=
| Ret (a : A)
| Fault (f : fault).
Arguments Ret {A} a.
Arguments Fault {A} f.

End CTypes.
Export CTypes.

(** Error numbers of <errno.h> (Linux) *)
Module Errno.
Definition EAGAIN : Z := 11.
Definition EPIPE : Z := 32.
Definition EBADFD : Z := 77.
End Errno.
Export Errno.

(** ** Name tables and [snd_pcm_format_value] *)

Module Names.

(** The formats that have an entry [FORMAT(v)] in [snd_pcm_format_names]. *)
Inductive format_tag :=
| S8 | U8 | S16_LE | S16_BE | U16_LE | U16_BE
| S24_LE | S24_BE | U24_LE | U24_BE
| S32_LE | S32_BE | U32_LE | U32_BE
| FLOAT_LE | FLOAT_BE | FLOAT64_LE | FLOAT64_BE
| IEC958_SUBFRAME_LE | IEC958_SUBFRAME_BE
| MU_LAW | A_LAW | IMA_ADPCM | MPEG | GSM | SPECIAL.

(** [#v] of the macro [FORMAT(v)]: the tag spelled as a string. *)
Definition stringify (v : format_tag) : string :=
  match v with
  | S8 => "S8" | U8 => "U8"
  | S16_LE => "S16_LE" | S16_BE => "S16_BE"
  | U16_LE => "U16_LE" | U16_BE => "U16_BE"
  | S24_LE => "S24_LE" | S24_BE => "S24_BE"
  | U24_LE => "U24_LE" | U24_BE => "U24_BE"
  | S32_LE => "S32_LE" | S32_BE => "S32_BE"
  | U32_LE => "U32_LE" | U32_BE => "U32_BE"
  | FLOAT_LE => "FLOAT_LE" | FLOAT_BE => "FLOAT_BE"
  | FLOAT64_LE => "FLOAT64_LE" | FLOAT64_BE => "FLOAT64_BE"
  | IEC958_SUBFRAME_LE => "IEC958_SUBFRAME_LE"
  | IEC958_SUBFRAME_BE => "IEC958_SUBFRAME_BE"
  | MU_LAW => "MU_LAW" | A_LAW => "A_LAW"
  | IMA_ADPCM => "IMA_ADPCM" | MPEG => "MPEG" | GSM => "GSM"
  | SPECIAL => "SPECIAL"
  end%string.

(** The initialisers of [snd_pcm_format_names], in the order of the source. *)
Definition format_initializers : list format_tag :=
  [ S8; U8; S16_LE; S16_BE; U16_LE; U16_BE; S24_LE; S24_BE; U24_LE; U24_BE;
    S32_LE; S32_BE; U32_LE; U32_BE; FLOAT_LE; FLOAT_BE; FLOAT64_LE;
    FLOAT64_BE; IEC958_SUBFRAME_LE; IEC958_SUBFRAME_BE; MU_LAW; A_LAW;
    IMA_ADPCM; MPEG; GSM; SPECIAL ].

(** [tolower] of the C locale, on character codes. *)
Definition tolower (c : Z) : Z :=
  if (65 <=? c) && (c <=? 90) then c + 32 else c.

Definition code (c : ascii) : Z := Z.of_nat (nat_of_ascii c).

(** [strcasecmp]: the difference of the first pair of characters that differ
    after [tolower]; the end of a string reads as the terminating 0. *)
Fixpoint strcasecmp (s1 s2 : string) : Z :=
  match s1, s2 with
  | EmptyString, EmptyString => 0
  | EmptyString, String c2 _ => tolower 0 - tolower (code c2)
  | String c1 _, EmptyString => tolower (code c1) - tolower 0
  | String c1 r1, String c2 r2 =>
      if tolower (code c1) =? tolower (code c2)
      then (if code c1 =? 0 then 0 else strcasecmp r1 r2)
      else tolower (code c1) - tolower (code c2)
  end.

(** The characters of a C string that [strcasecmp] looks at, after
    [tolower]: everything before the first 0. *)
Fixpoint lower (s : string) : list Z :=
  match s with
  | EmptyString => []
  | String c r => if code c =? 0 then [] else tolower (code c) :: lower r
  end.

Section FormatTable.

(** The numeric values of the enumeration [snd_pcm_format_t] come from a
    header that is not part of [pcm.c]: they are parameters here. *)
Variable SND_PCM_FORMAT : format_tag -> Z.
Variable SND_PCM_FORMAT_LAST : Z.
Variable SND_PCM_FORMAT_UNKNOWN : Z.

(** [snd_pcm_format_names[i]]: an array built by designated initialisers
    [[SND_PCM_FORMAT_v] = "v"]; a slot that no initialiser names is NULL
    ([None]), and of two initialisers for one slot the later one stays. *)
Definition snd_pcm_format_names (i : Z) : option string :=
  fold_left
    (fun slot v => if SND_PCM_FORMAT v =? i then Some (stringify v) else slot)
    format_initializers None.

(** [snd_pcm_format_name]: the name pointer, NULL as [None]. *)
Definition snd_pcm_format_name (format : Z) : res (option string) :=
  if format <=? SND_PCM_FORMAT_LAST
  then Ret (snd_pcm_format_names format)
  else Fault AssertFail.

(** The loop of [snd_pcm_format_value], at most [n] more iterations. *)
Fixpoint format_value_from (n : nat) (format : Z) (name : string) : Z :=
  match n with
  | O => SND_PCM_FORMAT_UNKNOWN
  | S n' =>
      if format <=? SND_PCM_FORMAT_LAST then
        match snd_pcm_format_names format with
        | Some s =>
            if strcasecmp name s =? 0 then format
            else format_value_from n' (format + 1) name
        | None => format_value_from n' (format + 1) name
        end
      else SND_PCM_FORMAT_UNKNOWN
  end.

(** [for (format = 0; format <= SND_PCM_FORMAT_LAST; format++)]: the loop
    runs [SND_PCM_FORMAT_LAST + 1] times at most. *)
Definition snd_pcm_format_value (name : string) : Z :=
  format_value_from (Z.to_nat (SND_PCM_FORMAT_LAST + 1)) 0 name.

End FormatTable.

(** ** The table of format descriptions *)

(** [d] of the macro [FORMATD(v, d)]. *)
Definition describe (v : format_tag) : string :=
  match v with
  | S8 => "Signed 8 bit" | U8 => "Unsigned 8 bit"
  | S16_LE => "Signed 16 bit Little Endian"
  | S16_BE => "Signed 16 bit Big Endian"
  | U16_LE => "Unsigned 16 bit Little Endian"
  | U16_BE => "Unsigned 16 bit Big Endian"
  | S24_LE => "Signed 24 bit Little Endian"
  | S24_BE => "Signed 24 bit Big Endian"
  | U24_LE => "Unsigned 24 bit Little Endian"
  | U24_BE => "Unsigned 24 bit Big Endian"
  | S32_LE => "Signed 32 bit Little Endian"
  | S32_BE => "Signed 32 bit Big Endian"
  | U32_LE => "Unsigned 32 bit Little Endian"
  | U32_BE => "Unsigned 32 bit Big Endian"
  | FLOAT_LE => "Float 32 bit Little Endian"
  | FLOAT_BE => "Float 32 bit Big Endian"
  | FLOAT64_LE => "Float 64 bit Little Endian"
  | FLOAT64_BE => "Float 64 bit Big Endian"
  | IEC958_SUBFRAME_LE => "IEC-958 Little Endian"
  | IEC958_SUBFRAME_BE => "IEC-958 Big Endian"
  | MU_LAW => "Mu-Law" | A_LAW => "A-Law"
  | IMA_ADPCM => "Ima-ADPCM" | MPEG => "MPEG" | GSM => "GSM"
  | SPECIAL => "Special"
  end%string.

(** The initialisers of [snd_pcm_format_descriptions], in the order of the
    source. *)
Definition description_initializers : list format_tag :=
  [ S8; U8; S16_LE; S16_BE; U16_LE; U16_BE; S24_LE; S24_BE; U24_LE; U24_BE;
    S32_LE; S32_BE; U32_LE; U32_BE; FLOAT_LE; FLOAT_BE; FLOAT64_LE;
    FLOAT64_BE; IEC958_SUBFRAME_LE; IEC958_SUBFRAME_BE; MU_LAW; A_LAW;
    IMA_ADPCM; MPEG; GSM; SPECIAL ].

Section FormatDescriptions.

Variable SND_PCM_FORMAT : format_tag -> Z.
Variable SND_PCM_FORMAT_LAST : Z.

(** [snd_pcm_format_descriptions[i]], built like [snd_pcm_format_names]. *)
Definition snd_pcm_format_descriptions (i : Z) : option string :=
  fold_left
    (fun slot v => if SND_PCM_FORMAT v =? i then Some (describe v) else slot)
    description_initializers None.

Definition snd_pcm_format_description (format : Z) : res (option string) :=
  if format <=? SND_PCM_FORMAT_LAST
  then Ret (snd_pcm_format_descriptions format)
  else Fault AssertFail.

End FormatDescriptions.

(** What [snd_pcm_format_value] looks for: the slot [i] of the table of
    names holds a name that [strcasecmp] finds equal to [name]. *)
Definition matches (names : Z -> option string) (name : string) (i : Z)
  : Prop :=
  exists s, names i = Some s /\ strcasecmp name s = 0.

End Names.

(** ** Channel areas: [snd_pcm_area_silence], [snd_pcm_area_copy] and the
    multi-channel drivers [snd_pcm_areas_silence], [snd_pcm_areas_copy] *)

Module Area.

(** [snd_pcm_channel_area_t]: base address (0 is NULL), offset of the first
    sample in bits, distance between two samples in bits (both
    [unsigned int]). *)
Record snd_pcm_channel_area_t := {
  addr : Z;
  first : Z;
  step : Z
}.

(** A flat memory of bytes; a cell never written reads as 0. *)
Definition load (m : gmap Z Z) (p : Z) : Z := default 0 (m !! p).

Definition store (m : gmap Z Z) (p v : Z) : gmap Z Z := <[p := v mod 256]> m.

(** A store of [n] bytes of [v] at [p], least significant byte first
    (the host is little endian). *)
Fixpoint store_le (n : nat) (m : gmap Z Z) (p v : Z) : gmap Z Z :=
  match n with
  | O => m
  | S k => store_le k (store m p v) (p + 1) (v / 256)
  end.

Fixpoint load_le (n : nat) (m : gmap Z Z) (p : Z) : Z :=
  match n with
  | O => 0
  | S k => load m p + 256 * load_le k m (p + 1)
  end.

(** The bytes [p .. p+n-1]. *)
Fixpoint load_bytes (n : nat) (m : gmap Z Z) (p : Z) : list Z :=
  match n with
  | O => []
  | S k => load m p :: load_bytes k m (p + 1)
  end.

Fixpoint store_bytes (m : gmap Z Z) (p : Z) (bs : list Z) : gmap Z Z :=
  match bs with
  | [] => m
  | b :: r => store_bytes (store m p b) (p + 1) r
  end.

(** [memcpy(dst, src, n)] on areas that do not overlap: the source bytes
    are read, then written. *)
Definition memcpy (m : gmap Z Z) (dst src : Z) (n : nat) : gmap Z Z :=
  store_bytes m dst (load_bytes n m src).

(** Modelled from the spec: [snd_pcm_channel_area_addr] lives in
    [pcm_local.h], which is not part of the sources. The byte address of
    sample [offset] of an area is [addr + first/8 + offset*step/8]. *)
Definition snd_pcm_channel_area_addr (a : snd_pcm_channel_area_t)
    (offset : Z) : Z :=
  addr a + first a / 8 + offset * step a / 8.

(** [while (dwords-- > 0) *((u_int64_t* )dst)++ = silence;] *)
Fixpoint silence_dwords (dwords : nat) (m : gmap Z Z) (dst silence : Z)
  : gmap Z Z * Z :=
  match dwords with
  | O => (m, dst)
  | S k => silence_dwords k (store_le 8 m dst silence) (dst + 8) silence
  end.

(** [case 4]: the loop over nibbles of [snd_pcm_area_silence]. *)
Fixpoint silence_nibbles (samples : nat) (m : gmap Z Z)
    (dst dstbit dst_step dstbit_step s0 s1 : Z) : gmap Z Z :=
  match samples with
  | O => m
  | S k =>
      let m1 :=
        if negb (dstbit =? 0)
        then store m dst (Z.lor (Z.land (load m dst) 240) s1)
        else store m dst (Z.lor (Z.land (load m dst) 15) s0) in
      let dst1 := dst + dst_step in
      let dstbit1 := dstbit + dstbit_step in
      if dstbit1 =? 8
      then silence_nibbles k m1 (dst1 + 1) 0 dst_step dstbit_step s0 s1
      else silence_nibbles k m1 dst1 dstbit1 dst_step dstbit_step s0 s1
  end.

(** [case 8], [16], [32], [64]: one store of [bytes] bytes per sample. *)
Fixpoint silence_samples (bytes samples : nat) (m : gmap Z Z)
    (dst dst_step sil : Z) : gmap Z Z :=
  match samples with
  | O => m
  | S k =>
      silence_samples bytes k (store_le bytes m dst sil) (dst + dst_step)
        dst_step sil
  end.

(** [case 4] of [snd_pcm_area_copy]. *)
Fixpoint copy_nibbles (samples : nat) (m : gmap Z Z)
    (src srcbit src_step srcbit_step dst dstbit dst_step dstbit_step : Z)
  : gmap Z Z :=
  match samples with
  | O => m
  | S k =>
      let srcval :=
        if negb (srcbit =? 0) then Z.land (load m src) 15
        else Z.land (load m src) 240 in
      let d :=
        if negb (dstbit =? 0) then Z.land (load m dst) 240
        else Z.land (load m dst) 15 in
      let m1 := store m dst (Z.lor d srcval) in
      let src1 := src + src_step in
      let srcbit1 := srcbit + srcbit_step in
      let '(src2, srcbit2) :=
        if srcbit1 =? 8 then (src1 + 1, 0) else (src1, srcbit1) in
      let dst1 := dst + dst_step in
      let dstbit1 := dstbit + dstbit_step in
      let '(dst2, dstbit2) :=
        if dstbit1 =? 8 then (dst1 + 1, 0) else (dst1, dstbit1) in
      copy_nibbles k m1 src2 srcbit2 src_step srcbit_step
        dst2 dstbit2 dst_step dstbit_step
  end.

(** [case 8], [16], [32], [64] of [snd_pcm_area_copy]. *)
Fixpoint copy_samples (bytes samples : nat) (m : gmap Z Z)
    (src src_step dst dst_step : Z) : gmap Z Z :=
  match samples with
  | O => m
  | S k =>
      copy_samples bytes k (store_le bytes m dst (load_le bytes m src))
        (src + src_step) src_step (dst + dst_step) dst_step
  end.

Section Formats.

(** [snd_pcm_format_physical_width] and [snd_pcm_format_silence_64] are
    defined in another file of the library: parameters here. *)
Variable snd_pcm_format_physical_width : Z -> Z.
Variable snd_pcm_format_silence_64 : Z -> Z.

Definition snd_pcm_area_silence (m : gmap Z Z)
    (dst_area : snd_pcm_channel_area_t) (dst_offset samples format : Z)
  : res Z * gmap Z Z :=
  if addr dst_area =? 0 then (Ret 0, m)
  else
    let dst := snd_pcm_channel_area_addr dst_area dst_offset in
    let width := snd_pcm_format_physical_width format in
    let silence := snd_pcm_format_silence_64 format in
    let fast := step dst_area =? to_uint width in
    if fast && (to_uint width =? 0) then (Fault DivByZero, m)
    else
      let dwords := if fast then to_uint (samples * width) / 64 else 0 in
      let samples1 :=
        if fast then to_uint (samples - to_uint (dwords * 64) / to_uint width)
        else samples in
      let '(m1, dst1) := silence_dwords (Z.to_nat dwords) m dst silence in
      if fast && (samples1 =? 0) then (Ret 0, m1)
      else
        let dst_step := step dst_area / 8 in
        let n := Z.to_nat samples1 in
        match width with
        | 4 =>
            let s0 := Z.land silence 240 in
            let s1 := Z.land silence 15 in
            let dstbit := first dst_area mod 8 in
            let dstbit_step := step dst_area mod 8 in
            (Ret 0, silence_nibbles n m1 dst1 dstbit dst_step dstbit_step s0 s1)
        | 8 => (Ret 0, silence_samples 1 n m1 dst1 dst_step silence)
        | 16 => (Ret 0, silence_samples 2 n m1 dst1 dst_step silence)
        | 32 => (Ret 0, silence_samples 4 n m1 dst1 dst_step silence)
        | 64 => (Ret 0, silence_samples 8 n m1 dst1 dst_step silence)
        | _ => (Fault AssertFail, m1)
        end.

Definition snd_pcm_area_copy (m : gmap Z Z)
    (dst_area : snd_pcm_channel_area_t) (dst_offset : Z)
    (src_area : snd_pcm_channel_area_t) (src_offset : Z)
    (samples format : Z) : res Z * gmap Z Z :=
  if addr src_area =? 0
  then snd_pcm_area_silence m dst_area dst_offset samples format
  else
    let src := snd_pcm_channel_area_addr src_area src_offset in
    if addr dst_area =? 0 then (Ret 0, m)
    else
      let dst := snd_pcm_channel_area_addr dst_area dst_offset in
      let width := snd_pcm_format_physical_width format in
      let fast :=
        (step src_area =? to_uint width) && (step dst_area =? to_uint width) in
      if fast && (to_uint width =? 0) then (Fault DivByZero, m)
      else
        let bytes := if fast then to_uint (samples * width) / 8 else 0 in
        let samples1 :=
          if fast then to_uint (samples - to_ulong (bytes * 8) / to_ulong width)
          else samples in
        let m1 := memcpy m dst src (Z.to_nat bytes) in
        if fast && (samples1 =? 0) then (Ret 0, m1)
        else
          let src_step := step src_area / 8 in
          let dst_step := step dst_area / 8 in
          let n := Z.to_nat samples1 in
          match width with
          | 4 =>
              (Ret 0,
               copy_nibbles n m1
                 src (first src_area mod 8) src_step (step src_area mod 8)
                 dst (first dst_area mod 8) dst_step (step dst_area mod 8))
          | 8 => (Ret 0, copy_samples 1 n m1 src src_step dst dst_step)
          | 16 => (Ret 0, copy_samples 2 n m1 src src_step dst dst_step)
          | 32 => (Ret 0, copy_samples 4 n m1 src src_step dst dst_step)
          | 64 => (Ret 0, copy_samples 8 n m1 src src_step dst dst_step)
          | _ => (Fault AssertFail, m1)
          end.

(** The inner [while (1)] of [snd_pcm_areas_silence]: [i] is the index of
    the pointer [dst_areas] in the array, [channels1] and [chns] are the
    counters; the result is the final [chns]. *)
Fixpoint silence_run (fuel : nat) (areas : list snd_pcm_channel_area_t)
    (i : nat) (channels1 chns : Z) (addr0 step0 width : Z) : res Z :=
  match fuel with
  | O => Fault OutOfFuel
  | S k =>
      let channels1 := channels1 - 1 in
      let chns := chns + 1 in
      let i := S i in
      if channels1 =? 0 then Ret chns
      else
        match areas !! i, areas !! (i - 1)%nat with
        | Some a, Some prev =>
            if negb (addr a =? addr0) || negb (step a =? step0)
               || negb (first a =? to_uint (first prev + width))
            then Ret chns
            else silence_run k areas i channels1 chns addr0 step0 width
        | _, _ => Fault OutOfBounds
        end
  end.

(** The outer [while (channels > 0)] of [snd_pcm_areas_silence]. *)
Fixpoint areas_silence_loop (fuel : nat) (m : gmap Z Z)
    (areas : list snd_pcm_channel_area_t) (i : nat)
    (dst_offset channels frames format : Z) : res Z * gmap Z Z :=
  match fuel with
  | O => (Fault OutOfFuel, m)
  | S k =>
      if channels >? 0 then
        match areas !! i with
        | None => (Fault OutOfBounds, m)
        | Some begin =>
            let width := snd_pcm_format_physical_width format in
            match silence_run (Z.to_nat channels) areas i channels 0
                    (addr begin) (step begin) width with
            | Fault f => (Fault f, m)
            | Ret chns =>
                if (chns >? 1) && (to_uint (chns * width) =? step begin) then
                  (* Collapse the areas *)
                  let d := {| addr := addr begin; first := first begin;
                              step := to_uint width |} in
                  match snd_pcm_area_silence m d (to_ulong (dst_offset * chns))
                          (to_uint (frames * chns)) format with
                  | (Ret err, m1) =>
                      if err <? 0 then (Ret err, m1)
                      else areas_silence_loop k m1 areas (i + Z.to_nat chns)
                             dst_offset (channels - chns) frames format
                  | (Fault f, m1) => (Fault f, m1)
                  end
                else
                  match snd_pcm_area_silence m begin dst_offset
                          (to_uint frames) format with
                  | (Ret err, m1) =>
                      if err <? 0 then (Ret err, m1)
                      else areas_silence_loop k m1 areas (S i)
                             dst_offset (channels - 1) frames format
                  | (Fault f, m1) => (Fault f, m1)
                  end
            end
        end
      else (Ret 0, m)
  end.

Definition snd_pcm_areas_silence (m : gmap Z Z)
    (dst_areas : list snd_pcm_channel_area_t)
    (dst_offset channels frames format : Z) : res Z * gmap Z Z :=
  areas_silence_loop (S (Z.to_nat channels)) m dst_areas 0
    dst_offset channels frames format.

(** The inner [while (dst_areas->step == step)] of [snd_pcm_areas_copy]:
    [i] is the common index of [src_areas] and [dst_areas]. *)
Fixpoint copy_run (fuel : nat)
    (dst_areas src_areas : list snd_pcm_channel_area_t) (i : nat)
    (channels1 chns : Z) (step0 src_addr dst_addr width : Z) : res Z :=
  match fuel with
  | O => Fault OutOfFuel
  | S k =>
      match dst_areas !! i with
      | None => Fault OutOfBounds
      | Some d0 =>
          if step d0 =? step0 then
            let channels1 := channels1 - 1 in
            let chns := chns + 1 in
            let i := S i in
            if channels1 =? 0 then Ret chns
            else
              match src_areas !! i, src_areas !! (i - 1)%nat,
                    dst_areas !! i, dst_areas !! (i - 1)%nat with
              | Some s, Some sp, Some d, Some dp =>
                  if negb (step s =? step0) || negb (addr s =? src_addr)
                     || negb (addr d =? dst_addr)
                     || negb (first s =? to_uint (first sp + width))
                     || negb (first d =? to_uint (first dp + width))
                  then Ret chns
                  else copy_run k dst_areas src_areas i channels1 chns
                         step0 src_addr dst_addr width
              | _, _, _, _ => Fault OutOfBounds
              end
          else Ret chns
      end
  end.

(** The outer [while (channels > 0)] of [snd_pcm_areas_copy]; the results
    of [snd_pcm_area_copy] are not looked at. *)
Fixpoint areas_copy_loop (fuel : nat) (m : gmap Z Z)
    (dst_areas src_areas : list snd_pcm_channel_area_t) (i : nat)
    (dst_offset src_offset channels frames format : Z) : res Z * gmap Z Z :=
  match fuel with
  | O => (Fault OutOfFuel, m)
  | S k =>
      if channels >? 0 then
        match src_areas !! i, dst_areas !! i with
        | Some src_start, Some dst_start =>
            let width := snd_pcm_format_physical_width format in
            match copy_run (S (Z.to_nat channels)) dst_areas src_areas i
                    channels 0 (step src_start) (addr src_start)
                    (addr dst_start) width with
            | Fault f => (Fault f, m)
            | Ret chns =>
                if (chns >? 1) && (to_uint (chns * width) =? step src_start)
                then
                  (* Collapse the areas *)
                  let s := {| addr := addr src_start;
                              first := first src_start;
                              step := to_uint width |} in
                  let d := {| addr := addr dst_start;
                              first := first dst_start;
                              step := to_uint width |} in
                  match snd_pcm_area_copy m d (to_ulong (dst_offset * chns))
                          s (to_ulong (src_offset * chns))
                          (to_uint (frames * chns)) format with
                  | (Ret _, m1) =>
                      areas_copy_loop k m1 dst_areas src_areas
                        (i + Z.to_nat chns) dst_offset src_offset
                        (channels - chns) frames format
                  | (Fault f, m1) => (Fault f, m1)
                  end
                else
                  match snd_pcm_area_copy m dst_start dst_offset
                          src_start src_offset (to_uint frames) format with
                  | (Ret _, m1) =>
                      areas_copy_loop k m1 dst_areas src_areas (S i)
                        dst_offset src_offset (channels - 1) frames format
                  | (Fault f, m1) => (Fault f, m1)
                  end
            end
        | _, _ => (Fault OutOfBounds, m)
        end
      else (Ret 0, m)
  end.

Definition snd_pcm_areas_copy (m : gmap Z Z)
    (dst_areas : list snd_pcm_channel_area_t) (dst_offset : Z)
    (src_areas : list snd_pcm_channel_area_t) (src_offset : Z)
    (channels frames format : Z) : res Z * gmap Z Z :=
  areas_copy_loop (S (Z.to_nat channels)) m dst_areas src_areas 0
    dst_offset src_offset channels frames format.

(** The per-channel path, as a reference: [snd_pcm_area_silence] once for
    every channel, left to right. *)
Fixpoint per_channel_silence (m : gmap Z Z)
    (dst_areas : list snd_pcm_channel_area_t)
    (dst_offset frames format : Z) : res Z * gmap Z Z :=
  match dst_areas with
  | [] => (Ret 0, m)
  | a :: rest =>
      match snd_pcm_area_silence m a dst_offset (to_uint frames) format with
      | (Ret err, m1) =>
          if err <? 0 then (Ret err, m1)
          else per_channel_silence m1 rest dst_offset frames format
      | (Fault f, m1) => (Fault f, m1)
      end
  end.

(** [snd_pcm_area_copy] once for every pair of channels, left to right. *)
Fixpoint per_channel_copy (m : gmap Z Z)
    (dst_areas : list snd_pcm_channel_area_t) (dst_offset : Z)
    (src_areas : list snd_pcm_channel_area_t) (src_offset : Z)
    (frames format : Z) : res Z * gmap Z Z :=
  match dst_areas, src_areas with
  | d :: drest, s :: srest =>
      match snd_pcm_area_copy m d dst_offset s src_offset
              (to_uint frames) format with
      | (Ret _, m1) =>
          per_channel_copy m1 drest dst_offset srest src_offset frames format
      | (Fault f, m1) => (Fault f, m1)
      end
  | _, _ => (Ret 0, m)
  end.

End Formats.

(** *** Words for the statements about the silence and copy routines *)

(** Byte [i] of the value [v]; byte 0 is the least significant one. *)
Definition byte_of (v i : Z) : Z := (v / 256 ^ i) mod 256.

(** The byte at the address [q] belongs to one of [n] samples of [k] bytes,
    the first of them at [dst] and each one [step] bytes after the one
    before. *)
Definition in_samples (dst step k n q : Z) : bool :=
  (0 <=? q - dst) && ((q - dst) / step <? n) && ((q - dst) mod step <? k).

(** A 64 bit pattern that is one sample of [k] bytes, repeated. *)
Definition replicated (k sil : Z) : Prop :=
  forall i, 0 <= i < 8 -> byte_of sil i = byte_of sil (i mod k).

(** The byte of the source that belongs to the byte [q] of the destination:
    the same byte of the same sample, for samples [ss] bytes apart from
    [src] on and [sd] bytes apart from [dst] on. *)
Definition source_of (src ss dst sd q : Z) : Z :=
  src + (q - dst) / sd * ss + (q - dst) mod sd.

(** The areas of [c] channels of [w] bits interleaved in one buffer at
    [base], the first channel [first0] bits into a frame of [c * w] bits. *)
Definition interleaved (base first0 w : Z) (c : nat)
  : list snd_pcm_channel_area_t :=
  map (fun j => {| addr := base; first := first0 + Z.of_nat j * w;
                   step := Z.of_nat c * w |}) (seq 0 c).

End Area.

(** ** The PCM handle and its operations *)

Module Pcm.

Import Area.

Inductive snd_pcm_stream_t :=
| SND_PCM_STREAM_PLAYBACK
| SND_PCM_STREAM_CAPTURE.

Inductive snd_pcm_state_t :=
| SND_PCM_STATE_OPEN
| SND_PCM_STATE_SETUP
| SND_PCM_STATE_PREPARED
| SND_PCM_STATE_RUNNING
| SND_PCM_STATE_XRUN
| SND_PCM_STATE_PAUSED
| SND_PCM_STATE_DRAINING.

Inductive snd_pcm_start_t :=
| SND_PCM_START_EXPLICIT
| SND_PCM_START_DATA.

(** Modelled from the spec: the numeric values of [snd_pcm_state_t] are
    declared in a header that is not part of the sources; the states are
    numbered in the order in which the specification lists them. *)
Definition snd_enum_to_int (s : snd_pcm_state_t) : Z :=
  match s with
  | SND_PCM_STATE_OPEN => 0
  | SND_PCM_STATE_SETUP => 1
  | SND_PCM_STATE_PREPARED => 2
  | SND_PCM_STATE_RUNNING => 3
  | SND_PCM_STATE_XRUN => 4
  | SND_PCM_STATE_PAUSED => 5
  | SND_PCM_STATE_DRAINING => 6
  end.

Definition state_eqb (a b : snd_pcm_state_t) : bool :=
  snd_enum_to_int a =? snd_enum_to_int b.

Definition stream_eqb (a b : snd_pcm_stream_t) : bool :=
  match a, b with
  | SND_PCM_STREAM_PLAYBACK, SND_PCM_STREAM_PLAYBACK => true
  | SND_PCM_STREAM_CAPTURE, SND_PCM_STREAM_CAPTURE => true
  | _, _ => false
  end.

Definition start_eqb (a b : snd_pcm_start_t) : bool :=
  match a, b with
  | SND_PCM_START_EXPLICIT, SND_PCM_START_EXPLICIT => true
  | SND_PCM_START_DATA, SND_PCM_START_DATA => true
  | _, _ => false
  end.

(** [<sys/poll.h>] *)
Definition POLLIN : Z := 1.
Definition POLLOUT : Z := 4.

(** *** What a run of the library does to the world outside

    Every call that leaves [pcm.c] (an entry of one of the two operation
    tables, the transfer callback, [poll], [free], and the two library
    functions of other files) is recorded with its arguments and its
    result. [Raise e] is a ghost mark: it is recorded where the code leaves
    a transfer loop with the error [e]. *)
Inductive op_id :=
| OpState | OpAvailUpdate | OpPrepare | OpReset | OpStart | OpDrop | OpDrain
| OpPause | OpRewind
| OpHwFree | OpClose
| OpMunmap | OpHwParams
| OpPoll | OpXfer | OpFreeName | OpFreePcm.

Inductive event :=
| Call (op : op_id) (args : list Z) (result : Z)
| Raise (err : Z).

Section Backend.

(** The private state of the endpoint behind the handle ([op_arg] and
    [fast_op_arg] both point into it) together with the state of the
    operating system as far as [poll] sees it. *)
Context {B : Type}.

(** A computation reads and writes the backend, may stop at a fault, and
    records its calls. *)
Definition M (A : Type) : Type := B -> res A * B * list event.

Definition ret {A : Type} (a : A) : M A := fun b => (Ret a, b, []).

Definition bind {A C : Type} (m : M A) (f : A -> M C) : M C :=
  fun b =>
    match m b with
    | (Ret a, b1, l1) => let '(r, b2, l2) := f a b1 in (r, b2, l1 ++ l2)
    | (Fault e, b1, l1) => (Fault e, b1, l1)
    end.

Definition fail {A : Type} (f : fault) : M A := fun b => (Fault f, b, []).

Definition assert (c : bool) : M unit :=
  if c then ret tt else fail AssertFail.

Definition emit (e : event) : M unit := fun b => (Ret tt, b, [e]).

(** A call to a function that returns an [int], recorded: whatever the
    model of the function answers, the caller sees an [int]. *)
Definition call (op : op_id) (args : list Z) (f : B -> Z * B) : M Z :=
  fun b =>
    let '(r, b1) := f b in
    (Ret (to_int r), b1, [Call op args (to_int r)]).

(** The same for a function that returns a [snd_pcm_sframes_t]. *)
Definition call_long (op : op_id) (args : list Z) (f : B -> Z * B) : M Z :=
  fun b =>
    let '(r, b1) := f b in
    (Ret (to_long r), b1, [Call op args (to_long r)]).

Notation "'let*' x ':=' m 'in' k" := (bind m (fun x => k))
  (at level 10, x name, m at level 100, k at level 200, only parsing).

(** [snd_pcm_fast_ops_t]: the entries used by [pcm.c] that are modelled. *)
Record snd_pcm_fast_ops_t := {
  fast_state : B -> snd_pcm_state_t * B;
  fast_prepare : B -> Z * B;
  fast_reset : B -> Z * B;
  fast_start : B -> Z * B;
  fast_drop : B -> Z * B;
  fast_drain : B -> Z * B;
  fast_pause : Z -> B -> Z * B;
  fast_rewind : Z -> B -> Z * B;
  fast_avail_update : B -> Z * B
}.

(** [snd_pcm_ops_t] *)
Record snd_pcm_ops_t := {
  ops_close : B -> Z * B;
  ops_hw_free : B -> Z * B
}.

(** [snd_pcm_t], the fields that [pcm.c] reads or writes in the functions
    below. [mmap_channels] is [true] when the pointer is not NULL. *)
Record snd_pcm_t := {
  name : option string;
  stream : snd_pcm_stream_t;
  mode : Z;
  setup : bool;
  frame_bits : Z;
  sample_bits : Z;
  xfer_align : Z;
  start_mode : snd_pcm_start_t;
  mmap_channels : bool;
  poll_fd : Z;
  ops : snd_pcm_ops_t;
  fast_ops : snd_pcm_fast_ops_t
}.

(** [pcm->setup = v] *)
Definition set_setup (pcm : snd_pcm_t) (v : bool) : snd_pcm_t :=
  {| name := name pcm; stream := stream pcm; mode := mode pcm;
     setup := v; frame_bits := frame_bits pcm;
     sample_bits := sample_bits pcm; xfer_align := xfer_align pcm;
     start_mode := start_mode pcm; mmap_channels := mmap_channels pcm;
     poll_fd := poll_fd pcm; ops := ops pcm; fast_ops := fast_ops pcm |}.

(** The type of the transfer callback, [snd_pcm_xfer_areas_func_t]:
    areas, offset, size; it returns a frame count or a negative error. *)
Definition snd_pcm_xfer_areas_func_t : Type :=
  list snd_pcm_channel_area_t -> Z -> Z -> B -> Z * B.

(** Parts of the library and of the system that [pcm.c] calls and that are
    not in this file. *)
Variable SND_PCM_NONBLOCK : Z.
Variable snd_pcm_munmap : snd_pcm_t -> B -> (Z * snd_pcm_t) * B.
Variable hw_params_t : Type.
Variable _snd_pcm_hw_params :
  snd_pcm_t -> hw_params_t -> B -> (Z * snd_pcm_t) * B.
(** [poll(&pfd, 1, timeout)] on descriptor [fd] for [events]: the result
    and [errno]. *)
Variable poll : Z -> Z -> Z -> B -> (Z * Z) * B.

Definition snd_pcm_state (pcm : snd_pcm_t) : M snd_pcm_state_t :=
  fun b =>
    let '(s, b1) := fast_state (fast_ops pcm) b in
    (Ret s, b1, [Call OpState [] (snd_enum_to_int s)]).

Definition snd_pcm_prepare (pcm : snd_pcm_t) : M Z :=
  let* _ := assert (setup pcm) in
  call OpPrepare [] (fast_prepare (fast_ops pcm)).

Definition snd_pcm_reset (pcm : snd_pcm_t) : M Z :=
  let* _ := assert (setup pcm) in
  call OpReset [] (fast_reset (fast_ops pcm)).

Definition snd_pcm_start (pcm : snd_pcm_t) : M Z :=
  let* _ := assert (setup pcm) in
  call OpStart [] (fast_start (fast_ops pcm)).

Definition snd_pcm_drop (pcm : snd_pcm_t) : M Z :=
  let* _ := assert (setup pcm) in
  call OpDrop [] (fast_drop (fast_ops pcm)).

Definition snd_pcm_drain (pcm : snd_pcm_t) : M Z :=
  let* _ := assert (setup pcm) in
  call OpDrain [] (fast_drain (fast_ops pcm)).

Definition snd_pcm_pause (pcm : snd_pcm_t) (enable : Z) : M Z :=
  let* _ := assert (setup pcm) in
  call OpPause [enable] (fast_pause (fast_ops pcm) enable).

Definition snd_pcm_rewind (pcm : snd_pcm_t) (frames : Z) : M Z :=
  let* _ := assert (setup pcm) in
  let* _ := assert (frames >? 0) in
  call_long OpRewind [frames] (fast_rewind (fast_ops pcm) frames).

Definition snd_pcm_avail_update (pcm : snd_pcm_t) : M Z :=
  call_long OpAvailUpdate [] (fast_avail_update (fast_ops pcm)).

(** [snd_pcm_hw_params]: the configuration is installed by
    [_snd_pcm_hw_params], then the stream is prepared. *)
Definition snd_pcm_hw_params (pcm : snd_pcm_t) (params : hw_params_t)
  : M (Z * snd_pcm_t) :=
  fun b =>
    let '((err, pcm1), b1) := _snd_pcm_hw_params pcm params b in
    let err := to_int err in
    let l1 := [Call OpHwParams [] err] in
    if err >=? 0 then
      match snd_pcm_prepare pcm1 b1 with
      | (Ret err1, b2, l2) => (Ret (err1, pcm1), b2, l1 ++ l2)
      | (Fault f, b2, l2) => (Fault f, b2, l1 ++ l2)
      end
    else (Ret (err, pcm1), b1, l1).

(** [snd_pcm_hw_free]: the result and the handle after the call. *)
Definition snd_pcm_hw_free (pcm : snd_pcm_t) : M (Z * snd_pcm_t) :=
  let* _ := assert (setup pcm) in
  let* s := snd_pcm_state pcm in
  let* _ := assert (snd_enum_to_int s
                    <=? snd_enum_to_int SND_PCM_STATE_PREPARED) in
  let* r := (if mmap_channels pcm then
          fun b =>
            let '((err, pcm1), b1) := snd_pcm_munmap pcm b in
            (Ret (to_int err, pcm1), b1, [Call OpMunmap [] (to_int err)])
        else ret (0, pcm)) in
  if mmap_channels pcm && (fst r <? 0) then ret (fst r, snd r)
  else
    let* err := call OpHwFree [] (ops_hw_free (ops (snd r))) in
    ret (err, set_setup (snd r) false).

(** [pcm->mode & SND_PCM_NONBLOCK] *)
Definition nonblock (pcm : snd_pcm_t) : bool :=
  negb (Z.land (mode pcm) SND_PCM_NONBLOCK =? 0).

(** [snd_pcm_close]; the handle is freed, only the result is left. The
    local [ret] of the source is [result] here. *)
Definition snd_pcm_close (pcm : snd_pcm_t) : M Z :=
  let result := 0 in
  let* r := (if setup pcm then
          let* _ := (if nonblock pcm
                   || stream_eqb (stream pcm) SND_PCM_STREAM_CAPTURE
                then snd_pcm_drop pcm
                else snd_pcm_drain pcm) in
          let* e := snd_pcm_hw_free pcm in
          ret (if fst e <? 0 then fst e else result, snd e)
        else ret (result, pcm)) in
  let result := fst r in
  let pcm := snd r in
  let* err := call OpClose [] (ops_close (ops pcm)) in
  let result := if err <? 0 then err else result in
  let pcm := set_setup pcm false in
  let* _ := (match name pcm with
        | Some _ => emit (Call OpFreeName [] 0)
        | None => ret tt
        end) in
  let* _ := emit (Call OpFreePcm [] 0) in
  ret 0.

(** [snd_pcm_poll_descriptors] with [space >= 1]: the descriptor and the
    events asked for; the count returned is always 1. *)
Definition snd_pcm_poll_descriptors (pcm : snd_pcm_t) (space : Z)
  : Z * option (Z * Z) :=
  (1,
   if space >=? 1 then
     Some (poll_fd pcm,
           if stream_eqb (stream pcm) SND_PCM_STREAM_PLAYBACK
           then POLLOUT else POLLIN)
   else None).

Definition snd_pcm_wait (pcm : snd_pcm_t) (timeout : Z) : M Z :=
  let '(err, pfd) := snd_pcm_poll_descriptors pcm 1 in
  let* _ := assert (err =? 1) in
  match pfd with
  | Some (fd, events) =>
      fun b =>
        let '((err, errno), b1) := poll fd events timeout b in
        let err := to_int err in
        (Ret (if err <? 0 then to_int (- to_int errno) else 0), b1,
         [Call OpPoll [fd; events; timeout] err])
  | None => fail OutOfBounds
  end.

(** [snd_pcm_bytes_to_frames]: [bytes * 8 / pcm->frame_bits] in [long]. *)
Definition snd_pcm_bytes_to_frames (pcm : snd_pcm_t) (bytes : Z) : res Z :=
  if setup pcm then
    if frame_bits pcm =? 0 then Fault DivByZero
    else Ret (to_long (Z.quot (to_long (bytes * 8)) (frame_bits pcm)))
  else Fault AssertFail.

(** [snd_pcm_frames_to_bytes]: [frames * pcm->frame_bits / 8] in [long]. *)
Definition snd_pcm_frames_to_bytes (pcm : snd_pcm_t) (frames : Z) : res Z :=
  if setup pcm then
    Ret (to_long (Z.quot (to_long (frames * frame_bits pcm)) 8))
  else Fault AssertFail.

(** *** The transfer loops *)

(** [err = e; goto _end] (or [break] with [err < 0]): the loop is left
    with the frames moved so far and the error. *)
Definition leave (xfer err : Z) : M (Z * Z) :=
  let* _ := emit (Raise err) in
  ret (xfer, err).

(** The second half of the body of the loop of [snd_pcm_write_areas],
    from the rounding of [avail] to the end of the body; [again] is the way
    back to [while (size > 0)] with the new [offset], [size] and [xfer]. *)
Definition write_transfer (pcm : snd_pcm_t)
    (areas : list snd_pcm_channel_area_t) (func : snd_pcm_xfer_areas_func_t)
    (again : Z -> Z -> Z -> M (Z * Z))
    (state : snd_pcm_state_t) (offset size xfer avail : Z) : M (Z * Z) :=
  if (avail >? xfer_align pcm) && (xfer_align pcm =? 0)
  then fail DivByZero
  else
    let avail :=
      if avail >? xfer_align pcm
      then avail - avail mod xfer_align pcm else avail in
    let frames := if size >? avail then avail else size in
    let* _ := assert (negb (frames =? 0)) in
    let* r := call_long OpXfer [offset; frames] (func areas offset frames) in
    let err := to_int r in
    if err <? 0 then leave xfer err
    else
      let* _ := assert (err =? frames) in
      let offset := to_ulong (offset + frames) in
      let size := size - frames in
      let xfer := xfer + frames in
      let continue (err : Z) : M (Z * Z) :=
        if size >? 0 then again offset size xfer else ret (xfer, err) in
      if state_eqb state SND_PCM_STATE_PREPARED
         && start_eqb (start_mode pcm) SND_PCM_START_DATA
      then
        let* err := snd_pcm_start pcm in
        if err <? 0 then leave xfer err else continue err
      else continue err.

(** The loop of [snd_pcm_write_areas] from the label [_again] on, entered
    with [size > 0]. Every passage through [_again] takes one unit of
    [fuel]. The result is the pair of the locals [xfer] and [err] at
    [_end]. *)
Fixpoint write_areas_loop (fuel : nat) (pcm : snd_pcm_t)
    (areas : list snd_pcm_channel_area_t) (func : snd_pcm_xfer_areas_func_t)
    (state : snd_pcm_state_t) (offset size xfer : Z) : M (Z * Z) :=
  match fuel with
  | O => fail OutOfFuel
  | S k =>
      let* avail := snd_pcm_avail_update pcm in
      if avail <? 0 then leave xfer (- EPIPE)
      else if state_eqb state SND_PCM_STATE_PREPARED then
        if avail =? 0 then leave xfer (- EPIPE)
        else write_transfer pcm areas func
               (write_areas_loop k pcm areas func state)
               state offset size xfer avail
      else if (avail =? 0)
              || ((size >=? xfer_align pcm) && (avail <? xfer_align pcm))
      then
        if nonblock pcm then leave xfer (- EAGAIN)
        else
          let* err := snd_pcm_wait pcm (-1) in
          if err <? 0 then leave xfer err
          else
            let* state := snd_pcm_state pcm in
            write_areas_loop k pcm areas func state offset size xfer
      else write_transfer pcm areas func
             (write_areas_loop k pcm areas func state)
             state offset size xfer avail
  end.

(** [return xfer > 0 ? xfer : err;] with the conversions of C: [err] goes
    to [unsigned long], the result to [snd_pcm_sframes_t]. *)
Definition xfer_result (r : Z * Z) : Z :=
  to_long (if fst r >? 0 then fst r else to_ulong (snd r)).

Definition snd_pcm_write_areas (fuel : nat) (pcm : snd_pcm_t)
    (areas : list snd_pcm_channel_area_t) (offset size : Z)
    (func : snd_pcm_xfer_areas_func_t) : M Z :=
  let xfer := 0 in
  let err := 0 in
  let* state := snd_pcm_state pcm in
  if size =? 0 then ret 0
  else if (size >? xfer_align pcm) && (xfer_align pcm =? 0)
  then fail DivByZero
  else
    let size :=
      if size >? xfer_align pcm then size - size mod xfer_align pcm
      else size in
    match state with
    | SND_PCM_STATE_PREPARED
    | SND_PCM_STATE_RUNNING =>
        let* r := (if size >? 0
                   then write_areas_loop fuel pcm areas func state offset
                          size xfer
                   else ret (xfer, err)) in
        ret (xfer_result r)
    | SND_PCM_STATE_XRUN =>
        let* _ := emit (Raise (- EPIPE)) in ret (- EPIPE)
    | _ =>
        let* _ := emit (Raise (- EBADFD)) in ret (- EBADFD)
    end.

(** The second half of the body of the loop of [snd_pcm_read_areas]. *)
Definition read_transfer (pcm : snd_pcm_t)
    (areas : list snd_pcm_channel_area_t) (func : snd_pcm_xfer_areas_func_t)
    (again : Z -> Z -> Z -> M (Z * Z))
    (offset size xfer avail : Z) : M (Z * Z) :=
  if (avail >? xfer_align pcm) && (xfer_align pcm =? 0)
  then fail DivByZero
  else
    let avail :=
      if avail >? xfer_align pcm
      then avail - avail mod xfer_align pcm else avail in
    let frames := if size >? avail then avail else size in
    let* _ := assert (negb (frames =? 0)) in
    let* r := call_long OpXfer [offset; frames] (func areas offset frames) in
    let err := to_int r in
    if err <? 0 then leave xfer err
    else
      let* _ := assert (err =? frames) in
      let offset := to_ulong (offset + frames) in
      let size := size - frames in
      let xfer := xfer + frames in
      if size >? 0 then again offset size xfer else ret (xfer, err).

(** The loop of [snd_pcm_read_areas] from the label [_again] on. *)
Fixpoint read_areas_loop (fuel : nat) (pcm : snd_pcm_t)
    (areas : list snd_pcm_channel_area_t) (func : snd_pcm_xfer_areas_func_t)
    (state : snd_pcm_state_t) (offset size xfer : Z) : M (Z * Z) :=
  match fuel with
  | O => fail OutOfFuel
  | S k =>
      let* avail := snd_pcm_avail_update pcm in
      if avail <? 0 then leave xfer (- EPIPE)
      else if state_eqb state SND_PCM_STATE_DRAINING then
        if avail =? 0 then leave xfer (- EPIPE)
        else read_transfer pcm areas func
               (read_areas_loop k pcm areas func state)
               offset size xfer avail
      else if (avail =? 0)
              || ((size >=? xfer_align pcm) && (avail <? xfer_align pcm))
      then
        if nonblock pcm then leave xfer (- EAGAIN)
        else
          let* err := snd_pcm_wait pcm (-1) in
          if err <? 0 then leave xfer err
          else
            let* state := snd_pcm_state pcm in
            read_areas_loop k pcm areas func state offset size xfer
      else read_transfer pcm areas func
             (read_areas_loop k pcm areas func state)
             offset size xfer avail
  end.

Definition snd_pcm_read_areas (fuel : nat) (pcm : snd_pcm_t)
    (areas : list snd_pcm_channel_area_t) (offset size : Z)
    (func : snd_pcm_xfer_areas_func_t) : M Z :=
  let xfer := 0 in
  let err := 0 in
  let* state := snd_pcm_state pcm in
  if size =? 0 then ret 0
  else if (size >? xfer_align pcm) && (xfer_align pcm =? 0)
  then fail DivByZero
  else
    let size :=
      if size >? xfer_align pcm then size - size mod xfer_align pcm
      else size in
    let loop : M Z :=
      let* r := (if size >? 0
                 then read_areas_loop fuel pcm areas func state offset
                        size xfer
                 else ret (xfer, err)) in
      ret (xfer_result r) in
    match state with
    | SND_PCM_STATE_PREPARED =>
        if start_eqb (start_mode pcm) SND_PCM_START_DATA then
          let* err := snd_pcm_start pcm in
          if err <? 0 then
            let* r := leave xfer err in ret (xfer_result r)
          else loop
        else loop
    | SND_PCM_STATE_DRAINING
    | SND_PCM_STATE_RUNNING => loop
    | SND_PCM_STATE_XRUN =>
        let* _ := emit (Raise (- EPIPE)) in ret (- EPIPE)
    | _ =>
        let* _ := emit (Raise (- EBADFD)) in ret (- EBADFD)
    end.

(** *** Reading a record of calls *)

(** The frames that the transfer callback took: the sum of its results
    over the calls that did not fail. *)
Fixpoint frames_moved (l : list event) : Z :=
  match l with
  | [] => 0
  | Call OpXfer _ r :: l' =>
      (if to_int r <? 0 then 0 else to_int r) + frames_moved l'
  | _ :: l' => frames_moved l'
  end.

(** The errors met, in the order in which they were met. *)
Fixpoint errors_raised (l : list event) : list Z :=
  match l with
  | [] => []
  | Raise e :: l' => e :: errors_raised l'
  | _ :: l' => errors_raised l'
  end.

(** The first error met; 0 when there is none. *)
Definition first_error (l : list event) : Z :=
  match errors_raised l with
  | [] => 0
  | e :: _ => e
  end.

(** The calls of one operation in a record. *)
Definition op_eqb (a b : op_id) : bool :=
  match a, b with
  | OpState, OpState | OpAvailUpdate, OpAvailUpdate | OpPrepare, OpPrepare
  | OpReset, OpReset | OpStart, OpStart | OpDrop, OpDrop | OpDrain, OpDrain
  | OpPause, OpPause | OpRewind, OpRewind | OpHwFree, OpHwFree
  | OpClose, OpClose | OpMunmap, OpMunmap | OpHwParams, OpHwParams
  | OpPoll, OpPoll | OpXfer, OpXfer | OpFreeName, OpFreeName
  | OpFreePcm, OpFreePcm => true
  | _, _ => false
  end.

Definition calls_of (op : op_id) (l : list event) : list event :=
  List.filter (fun e => match e with
                        | Call o _ _ => op_eqb o op
                        | Raise _ => false
                        end) l.

(** *** Words for the statements about the functions above *)

(** [snd_pcm_bytes_to_frames(pcm, snd_pcm_frames_to_bytes(pcm, frames))] *)
Definition frames_bytes_frames (pcm : snd_pcm_t) (frames : Z) : res Z :=
  match snd_pcm_frames_to_bytes pcm frames with
  | Ret bytes => snd_pcm_bytes_to_frames pcm bytes
  | Fault f => Fault f
  end.

(** What [snd_pcm_close] records when it destroys the handle. *)
Definition destroy_log (pcm : snd_pcm_t) : list event :=
  match name pcm with
  | Some _ => [Call OpFreeName [] 0; Call OpFreePcm [] 0]
  | None => [Call OpFreePcm [] 0]
  end.

(** The operation by which [snd_pcm_close] stops the stream. *)
Definition stop_op (pcm : snd_pcm_t) : op_id :=
  if nonblock pcm
     || stream_eqb (stream pcm) SND_PCM_STREAM_CAPTURE
  then OpDrop else OpDrain.

(** The state that the endpoint reports once [snd_pcm_close] has stopped
    the stream. *)
Definition state_after_stop (pcm : snd_pcm_t) (b : B) : snd_pcm_state_t :=
  let b1 :=
    if nonblock pcm
       || stream_eqb (stream pcm) SND_PCM_STREAM_CAPTURE
    then snd (fast_drop (fast_ops pcm) b)
    else snd (fast_drain (fast_ops pcm) b) in
  fst (fast_state (fast_ops pcm) b1).

(** The calls of [snd_pcm_hw_free] after its assertions: the mapping is
    released when there is one, and the [hw_free] entry of the endpoint is
    called unless that release has failed. *)
Definition hw_free_calls (pcm : snd_pcm_t) (l : list event) : Prop :=
  if mmap_channels pcm then
    (exists e, e < 0 /\ l = [Call OpMunmap [] e])
    \/ (exists e e', 0 <= e
                     /\ l = [Call OpMunmap [] e; Call OpHwFree [] e'])
  else exists e', l = [Call OpHwFree [] e'].

(** The calls by which [snd_pcm_close] destroys the handle: [free] of the
    name when there is one, then [free] of the handle. *)
Definition destroy_calls (l : list event) : Prop :=
  l = [Call OpFreeName [] 0; Call OpFreePcm [] 0]
  \/ l = [Call OpFreePcm [] 0].

(** A record without transfer and without error. *)
Definition quiet (l : list event) : Prop :=
  frames_moved l = 0 /\ errors_raised l = [].

(** What holds when a loop is left with the locals [x] (frames moved) and
    [e] (error), entered with [size] frames to move and [xfer] frames
    moved, after the record [l]: [x] counts the frames that the callback
    took; either the loop came to its end, no error was met and frames
    were moved, or it was left at the first error met, [e], which is the
    last thing recorded. *)
Definition loop_post (size xfer x e : Z) (l : list event) : Prop :=
  x = xfer + frames_moved l
  /\ frames_moved l <= size
  /\ ((errors_raised l = [] /\ 0 < frames_moved l)
      \/ (errors_raised l = [e] /\ (exists l0, l = l0 ++ [Raise e])
          /\ - 2 ^ 31 <= e < 0)).

(** The result [r] of a transfer call asked for [size] frames, after the
    record [l]: [r] is the number of frames moved when frames were
    moved, and the first error met otherwise (0 when there is nothing to
    move); the error, when there is one, ends the call. *)
Definition frames_or_first_error (size r : Z) (l : list event) : Prop :=
  frames_moved l <= size
  /\ (0 < frames_moved l ->
      r = to_long (frames_moved l)
      /\ (size <= LONG_MAX -> r = frames_moved l))
  /\ (frames_moved l = 0 -> r = first_error l)
  /\ (errors_raised l = []
      \/ exists l0 e, l = l0 ++ [Raise e] /\ errors_raised l0 = []).

(** A computation that does not stop for want of fuel. *)
Definition no_timeout {A : Type} (m : M A) (b : B) : Prop :=
  fst (fst (m b)) <> Fault OutOfFuel.

(** *** Non-blocking mode, samples, and areas over application buffers *)

(** [pcm->mode = v] *)
Definition set_mode (pcm : snd_pcm_t) (v : Z) : snd_pcm_t :=
  {| name := name pcm; stream := stream pcm; mode := v;
     setup := setup pcm; frame_bits := frame_bits pcm;
     sample_bits := sample_bits pcm; xfer_align := xfer_align pcm;
     start_mode := start_mode pcm; mmap_channels := mmap_channels pcm;
     poll_fd := poll_fd pcm; ops := ops pcm; fast_ops := fast_ops pcm |}.

(** [snd_pcm_nonblock]: the result and the handle after the call.
    [ops_nonblock] is the entry [nonblock] of the table [pcm->ops], an
    entry that the record [snd_pcm_ops_t] above does not carry. *)
Definition snd_pcm_nonblock (ops_nonblock : Z -> B -> Z * B)
    (pcm : snd_pcm_t) (nb : Z) : B -> (Z * snd_pcm_t) * B :=
  fun b =>
    let '(err, b1) := ops_nonblock nb b in
    let err := to_int err in
    if err <? 0 then ((err, pcm), b1)
    else if negb (nb =? 0)
    then ((0, set_mode pcm (Z.lor (mode pcm) SND_PCM_NONBLOCK)), b1)
    else ((0, set_mode pcm (Z.land (mode pcm) (Z.lnot SND_PCM_NONBLOCK))),
          b1).

(** [snd_pcm_bytes_to_samples]: [bytes * 8 / pcm->sample_bits] in [long],
    returned as an [int]. *)
Definition snd_pcm_bytes_to_samples (pcm : snd_pcm_t) (bytes : Z) : res Z :=
  if setup pcm then
    if sample_bits pcm =? 0 then Fault DivByZero
    else
      Ret (to_int (to_long (Z.quot (to_long (bytes * 8)) (sample_bits pcm))))
  else Fault AssertFail.

(** [snd_pcm_areas_from_buf]: the areas written, from [channel] on, for [n]
    more channels. *)
Fixpoint areas_from_buf_loop (n : nat) (pcm : snd_pcm_t) (buf channel : Z)
  : list snd_pcm_channel_area_t :=
  match n with
  | O => []
  | S k =>
      {| addr := buf;
         first := to_uint (channel * sample_bits pcm);
         step := to_uint (frame_bits pcm) |}
      :: areas_from_buf_loop k pcm buf (channel + 1)
  end.

(** [channels] is [pcm->channels], a field that the record [snd_pcm_t]
    above does not carry. *)
Definition snd_pcm_areas_from_buf (pcm : snd_pcm_t) (channels buf : Z)
  : list snd_pcm_channel_area_t :=
  areas_from_buf_loop (Z.to_nat channels) pcm buf 0.

(** [snd_pcm_areas_from_bufs]: one pointer of [bufs] is read for every
    channel. *)
Fixpoint areas_from_bufs_loop (n : nat) (pcm : snd_pcm_t) (bufs : list Z)
  : res (list snd_pcm_channel_area_t) :=
  match n with
  | O => Ret []
  | S k =>
      match bufs with
      | [] => Fault OutOfBounds
      | p :: rest =>
          match areas_from_bufs_loop k pcm rest with
          | Ret l =>
              Ret ({| addr := p; first := 0;
                      step := to_uint (sample_bits pcm) |} :: l)
          | Fault f => Fault f
          end
      end
  end.

Definition snd_pcm_areas_from_bufs (pcm : snd_pcm_t) (channels : Z)
    (bufs : list Z) : res (list snd_pcm_channel_area_t) :=
  areas_from_bufs_loop (Z.to_nat channels) pcm bufs.

(** *** More words for the statements about the transfer loops *)

(** [size] after [if (size > pcm->xfer_align) size -= size % pcm->xfer_align] *)
Definition rounded (size align : Z) : Z :=
  if size >? align then size - size mod align else size.

(** The events for which [snd_pcm_wait] polls. *)
Definition poll_events (pcm : snd_pcm_t) : Z :=
  if stream_eqb (stream pcm) SND_PCM_STREAM_PLAYBACK then POLLOUT else POLLIN.

(** The calls of the transfer callback in a record come one after the
    other over the frames asked for: the first one at [offset], every one
    for at least one frame and for no more than what is left of [size], the
    next one where the one before ends (offsets are [snd_pcm_uframes_t]). *)
Fixpoint in_order (offset size : Z) (l : list event) : Prop :=
  match l with
  | [] => True
  | Call OpXfer args _ :: l' =>
      exists frames,
        args = [offset; frames] /\ 0 < frames <= size
        /\ in_order (to_ulong (offset + frames)) (size - frames) l'
  | _ :: l' => in_order offset size l'
  end.

(** What holds of a loop entered at [offset] with [size] frames to move
    and left with the result [r] after the record [l]: the callback was
    called in order, and when the loop returns without having met an error
    it has moved all the frames. *)
Definition loop_inv (offset size : Z) (r : res (Z * Z)) (l : list event)
  : Prop :=
  in_order offset size l
  /\ forall x e : Z, r = Ret (x, e) -> errors_raised l = [] ->
                     frames_moved l = size.

(** The operations that a record calls are all among [allowed]. *)
Definition calls_only (allowed : list op_id) (l : list event) : Prop :=
  Forall (fun e => match e with
                   | Call o _ _ => existsb (op_eqb o) allowed = true
                   | Raise _ => True
                   end) l.

End Backend.

End Pcm.

(** ** The other name tables: streams, states, access types, subformats
    and the modes of the software parameters *)

Module Tables.

Import Pcm.

(** An array declared without a size and filled by designated initialisers
    [[index v] = text v], one for every [v] of [inits]: it has as many slots
    as the largest index asks for, a slot that no initialiser names is NULL
    ([None]), of two initialisers for one slot the later one stays, and a
    read outside the array is a fault. *)
Section Designated.

Context {A : Type}.
Variable index : A -> Z.
Variable text : A -> string.

Definition array_length (inits : list A) : Z :=
  fold_left (fun n v => Z.max n (index v + 1)) inits 0.

Definition array_slot (inits : list A) (i : Z) : option string :=
  fold_left (fun slot v => if index v =? i then Some (text v) else slot)
    inits None.

Definition array_get (inits : list A) (i : Z) : res (option string) :=
  if (0 <=? i) && (i <? array_length inits)
  then Ret (array_slot inits i)
  else Fault OutOfBounds.

(** The body that the name functions share:
    [assert(v <= LAST); return names[snd_enum_to_int(v)];] *)
Definition name_of (last : Z) (inits : list A) (v : Z)
  : res (option string) :=
  if v <=? last then array_get inits v else Fault AssertFail.

End Designated.

Inductive snd_pcm_access_t :=
| SND_PCM_ACCESS_MMAP_INTERLEAVED
| SND_PCM_ACCESS_MMAP_NONINTERLEAVED
| SND_PCM_ACCESS_MMAP_COMPLEX
| SND_PCM_ACCESS_RW_INTERLEAVED
| SND_PCM_ACCESS_RW_NONINTERLEAVED.

Inductive snd_pcm_subformat_t :=
| SND_PCM_SUBFORMAT_STD.

Inductive snd_pcm_xrun_t :=
| SND_PCM_XRUN_NONE
| SND_PCM_XRUN_STOP.

Inductive snd_pcm_tstamp_t :=
| SND_PCM_TSTAMP_NONE
| SND_PCM_TSTAMP_MMAP.

(** [#v] of the macros [STREAM(v)], [STATE(v)], [ACCESS(v)], [SUBFORMAT(v)],
    [START(v)], [XRUN(v)] and [TSTAMP(v)]. *)
Definition stream_text (v : snd_pcm_stream_t) : string :=
  match v with
  | SND_PCM_STREAM_PLAYBACK => "PLAYBACK"
  | SND_PCM_STREAM_CAPTURE => "CAPTURE"
  end%string.

Definition state_text (v : snd_pcm_state_t) : string :=
  match v with
  | SND_PCM_STATE_OPEN => "OPEN"
  | SND_PCM_STATE_SETUP => "SETUP"
  | SND_PCM_STATE_PREPARED => "PREPARED"
  | SND_PCM_STATE_RUNNING => "RUNNING"
  | SND_PCM_STATE_XRUN => "XRUN"
  | SND_PCM_STATE_PAUSED => "PAUSED"
  | SND_PCM_STATE_DRAINING => "DRAINING"
  end%string.

Definition access_text (v : snd_pcm_access_t) : string :=
  match v with
  | SND_PCM_ACCESS_MMAP_INTERLEAVED => "MMAP_INTERLEAVED"
  | SND_PCM_ACCESS_MMAP_NONINTERLEAVED => "MMAP_NONINTERLEAVED"
  | SND_PCM_ACCESS_MMAP_COMPLEX => "MMAP_COMPLEX"
  | SND_PCM_ACCESS_RW_INTERLEAVED => "RW_INTERLEAVED"
  | SND_PCM_ACCESS_RW_NONINTERLEAVED => "RW_NONINTERLEAVED"
  end%string.

Definition subformat_text (v : snd_pcm_subformat_t) : string :=
  match v with
  | SND_PCM_SUBFORMAT_STD => "STD"
  end%string.

(** [d] of [SUBFORMATD(v, d)] *)
Definition subformat_describe (v : snd_pcm_subformat_t) : string :=
  match v with
  | SND_PCM_SUBFORMAT_STD => "Standard"
  end%string.

Definition start_text (v : snd_pcm_start_t) : string :=
  match v with
  | SND_PCM_START_EXPLICIT => "EXPLICIT"
  | SND_PCM_START_DATA => "DATA"
  end%string.

Definition xrun_text (v : snd_pcm_xrun_t) : string :=
  match v with
  | SND_PCM_XRUN_NONE => "NONE"
  | SND_PCM_XRUN_STOP => "STOP"
  end%string.

Definition tstamp_text (v : snd_pcm_tstamp_t) : string :=
  match v with
  | SND_PCM_TSTAMP_NONE => "NONE"
  | SND_PCM_TSTAMP_MMAP => "MMAP"
  end%string.

(** The initialisers of the tables, in the order of the source. The table
    of state names has no entry for the state DRAINING. *)
Definition snd_pcm_stream_names : list snd_pcm_stream_t :=
  [ SND_PCM_STREAM_PLAYBACK; SND_PCM_STREAM_CAPTURE ].

Definition snd_pcm_state_names : list snd_pcm_state_t :=
  [ SND_PCM_STATE_OPEN; SND_PCM_STATE_SETUP; SND_PCM_STATE_PREPARED;
    SND_PCM_STATE_RUNNING; SND_PCM_STATE_XRUN; SND_PCM_STATE_PAUSED ].

Definition snd_pcm_access_names : list snd_pcm_access_t :=
  [ SND_PCM_ACCESS_MMAP_INTERLEAVED; SND_PCM_ACCESS_MMAP_NONINTERLEAVED;
    SND_PCM_ACCESS_MMAP_COMPLEX; SND_PCM_ACCESS_RW_INTERLEAVED;
    SND_PCM_ACCESS_RW_NONINTERLEAVED ].

Definition snd_pcm_subformat_names : list snd_pcm_subformat_t :=
  [ SND_PCM_SUBFORMAT_STD ].

Definition snd_pcm_subformat_descriptions : list snd_pcm_subformat_t :=
  [ SND_PCM_SUBFORMAT_STD ].

Definition snd_pcm_start_mode_names : list snd_pcm_start_t :=
  [ SND_PCM_START_EXPLICIT; SND_PCM_START_DATA ].

Definition snd_pcm_xrun_mode_names : list snd_pcm_xrun_t :=
  [ SND_PCM_XRUN_NONE; SND_PCM_XRUN_STOP ].

Definition snd_pcm_tstamp_mode_names : list snd_pcm_tstamp_t :=
  [ SND_PCM_TSTAMP_NONE; SND_PCM_TSTAMP_MMAP ].

Section Enumerations.

(** The numeric values of the enumerations and their [_LAST] constants are
    declared in a header that is not part of [pcm.c]: parameters here. *)
Variable SND_PCM_STREAM : snd_pcm_stream_t -> Z.
Variable SND_PCM_STREAM_LAST : Z.
Variable SND_PCM_STATE : snd_pcm_state_t -> Z.
Variable SND_PCM_STATE_LAST : Z.
Variable SND_PCM_ACCESS : snd_pcm_access_t -> Z.
Variable SND_PCM_ACCESS_LAST : Z.
Variable SND_PCM_SUBFORMAT : snd_pcm_subformat_t -> Z.
Variable SND_PCM_SUBFORMAT_LAST : Z.
Variable SND_PCM_START : snd_pcm_start_t -> Z.
Variable SND_PCM_START_LAST : Z.
Variable SND_PCM_XRUN : snd_pcm_xrun_t -> Z.
Variable SND_PCM_XRUN_LAST : Z.
Variable SND_PCM_TSTAMP : snd_pcm_tstamp_t -> Z.
Variable SND_PCM_TSTAMP_LAST : Z.

Definition snd_pcm_stream_name (stream : Z) : res (option string) :=
  name_of SND_PCM_STREAM stream_text SND_PCM_STREAM_LAST
    snd_pcm_stream_names stream.

Definition snd_pcm_access_name (access : Z) : res (option string) :=
  name_of SND_PCM_ACCESS access_text SND_PCM_ACCESS_LAST
    snd_pcm_access_names access.

Definition snd_pcm_subformat_name (subformat : Z) : res (option string) :=
  name_of SND_PCM_SUBFORMAT subformat_text SND_PCM_SUBFORMAT_LAST
    snd_pcm_subformat_names subformat.

Definition snd_pcm_subformat_description (subformat : Z)
  : res (option string) :=
  name_of SND_PCM_SUBFORMAT subformat_describe SND_PCM_SUBFORMAT_LAST
    snd_pcm_subformat_descriptions subformat.

Definition snd_pcm_start_mode_name (mode : Z) : res (option string) :=
  name_of SND_PCM_START start_text SND_PCM_START_LAST
    snd_pcm_start_mode_names mode.

Definition snd_pcm_xrun_mode_name (mode : Z) : res (option string) :=
  name_of SND_PCM_XRUN xrun_text SND_PCM_XRUN_LAST
    snd_pcm_xrun_mode_names mode.

Definition snd_pcm_tstamp_mode_name (mode : Z) : res (option string) :=
  name_of SND_PCM_TSTAMP tstamp_text SND_PCM_TSTAMP_LAST
    snd_pcm_tstamp_mode_names mode.

Definition snd_pcm_state_name (state : Z) : res (option string) :=
  name_of SND_PCM_STATE state_text SND_PCM_STATE_LAST
    snd_pcm_state_names state.

End Enumerations.

(** An enumeration gives every enumerator its own value, between 0 and the
    constant [last]. *)
Definition numbers {A : Type} (index : A -> Z) (last : Z) : Prop :=
  (forall v w, index v = index w -> v = w)
  /\ forall v, 0 <= index v <= last.

End Tables.

(** ** Endpoints, callbacks and memories for the examples *)

Module Examples.

Import Names Area Pcm.

(** An endpoint: the backend is a counter of calls, every
    operation answers with a fixed result. *)
Definition fixed_fast_ops (s : snd_pcm_state_t) (r avail : Z)
  : @snd_pcm_fast_ops_t nat :=
  {| fast_state := fun b => (s, S b);
     fast_prepare := fun b => (r, S b);
     fast_reset := fun b => (r, S b);
     fast_start := fun b => (r, S b);
     fast_drop := fun b => (r, S b);
     fast_drain := fun b => (r, S b);
     fast_pause := fun _ b => (r, S b);
     fast_rewind := fun frames b => (frames, S b);
     fast_avail_update := fun b => (avail, S b) |}.

Definition fixed_ops (r : Z) : @snd_pcm_ops_t nat :=
  {| ops_close := fun b => (r, S b);
     ops_hw_free := fun b => (r, S b) |}.

(** A playback handle over the fixed endpoint. *)
Definition fixed_pcm (is_setup : bool) (bits align : Z)
    (s : snd_pcm_state_t) (r avail : Z) : @snd_pcm_t nat :=
  {| name := Some "default"%string;
     stream := SND_PCM_STREAM_PLAYBACK;
     mode := 0;
     setup := is_setup;
     frame_bits := bits;
     sample_bits := bits;
     xfer_align := align;
     start_mode := SND_PCM_START_DATA;
     mmap_channels := false;
     poll_fd := 3;
     ops := fixed_ops r;
     fast_ops := fixed_fast_ops s r avail |}.

(** [snd_pcm_munmap] and [_snd_pcm_hw_params] of the examples: the first
    succeeds, the second installs a configuration ([setup] becomes true). *)
Definition munmap_ok (pcm : @snd_pcm_t nat) (b : nat)
  : (Z * @snd_pcm_t nat) * nat := ((0, pcm), S b).

Definition hw_params_ok (pcm : @snd_pcm_t nat) (_ : unit) (b : nat)
  : (Z * @snd_pcm_t nat) * nat := ((0, set_setup pcm true), S b).

(** [poll] of the examples: the descriptor is ready at once. *)
Definition poll_ready (fd events timeout : Z) (b : nat) : (Z * Z) * nat :=
  ((1, 0), S b).

(** A callback that takes all the frames it is given. *)
Definition take_all : @snd_pcm_xfer_areas_func_t nat :=
  fun _ _ frames b => (frames, S b).

(** The handle [pcm] opened with the mode [m]. *)
Definition with_mode (m : Z) (pcm : @snd_pcm_t nat) : @snd_pcm_t nat :=
  {| name := name pcm; stream := stream pcm; mode := m;
     setup := setup pcm; frame_bits := frame_bits pcm;
     sample_bits := sample_bits pcm; xfer_align := xfer_align pcm;
     start_mode := start_mode pcm; mmap_channels := mmap_channels pcm;
     poll_fd := poll_fd pcm; ops := ops pcm; fast_ops := fast_ops pcm |}.

(** A memory whose bytes [p .. p+n-1] are all 0xff. *)
Definition all_ones (p : Z) (n : nat) : gmap Z Z :=
  store_bytes ∅ p (repeat 255 n).

(** The values of the enumeration in the kernel interface of the time:
    consecutive from [S8 = 0] to [GSM = 24], then [SPECIAL = 31]. *)
Definition abi_format (f : format_tag) : Z :=
  match f with
  | S8 => 0 | U8 => 1 | S16_LE => 2 | S16_BE => 3 | U16_LE => 4
  | U16_BE => 5 | S24_LE => 6 | S24_BE => 7 | U24_LE => 8 | U24_BE => 9
  | S32_LE => 10 | S32_BE => 11 | U32_LE => 12 | U32_BE => 13
  | FLOAT_LE => 14 | FLOAT_BE => 15 | FLOAT64_LE => 16 | FLOAT64_BE => 17
  | IEC958_SUBFRAME_LE => 18 | IEC958_SUBFRAME_BE => 19
  | MU_LAW => 20 | A_LAW => 21 | IMA_ADPCM => 22 | MPEG => 23 | GSM => 24
  | SPECIAL => 31
  end.

(** The handle [pcm] with frames of [bits] bits. *)
Definition with_frame_bits (bits : Z) (pcm : @snd_pcm_t nat)
  : @snd_pcm_t nat :=
  {| name := name pcm; stream := stream pcm; mode := mode pcm;
     setup := setup pcm; frame_bits := bits;
     sample_bits := sample_bits pcm; xfer_align := xfer_align pcm;
     start_mode := start_mode pcm; mmap_channels := mmap_channels pcm;
     poll_fd := poll_fd pcm; ops := ops pcm; fast_ops := fast_ops pcm |}.

(** The handle [pcm] with the start mode [m]. *)
Definition with_start_mode (m : snd_pcm_start_t) (pcm : @snd_pcm_t nat)
  : @snd_pcm_t nat :=
  {| name := name pcm; stream := stream pcm; mode := mode pcm;
     setup := setup pcm; frame_bits := frame_bits pcm;
     sample_bits := sample_bits pcm; xfer_align := xfer_align pcm;
     start_mode := m; mmap_channels := mmap_channels pcm;
     poll_fd := poll_fd pcm; ops := ops pcm; fast_ops := fast_ops pcm |}.

(** A callback that takes one frame, whatever it is given. *)
Definition take_one : @snd_pcm_xfer_areas_func_t nat :=
  fun _ _ _ b => (1, S b).

(** A [nonblock] entry that succeeds. *)
Definition nonblock_ok (nb : Z) (b : nat) : Z * nat := (0, S b).

Import Tables.

(** Numberings of the other enumerations for the examples: the
    enumerators count from 0 in the order of their declaration; the states
    are numbered by [snd_enum_to_int]. *)
Definition stream_value (v : snd_pcm_stream_t) : Z :=
  match v with
  | SND_PCM_STREAM_PLAYBACK => 0
  | SND_PCM_STREAM_CAPTURE => 1
  end.

Definition access_value (v : snd_pcm_access_t) : Z :=
  match v with
  | SND_PCM_ACCESS_MMAP_INTERLEAVED => 0
  | SND_PCM_ACCESS_MMAP_NONINTERLEAVED => 1
  | SND_PCM_ACCESS_MMAP_COMPLEX => 2
  | SND_PCM_ACCESS_RW_INTERLEAVED => 3
  | SND_PCM_ACCESS_RW_NONINTERLEAVED => 4
  end.

Definition subformat_value (v : snd_pcm_subformat_t) : Z := 0.

Definition start_value (v : snd_pcm_start_t) : Z :=
  match v with
  | SND_PCM_START_EXPLICIT => 0
  | SND_PCM_START_DATA => 1
  end.

Definition xrun_value (v : snd_pcm_xrun_t) : Z :=
  match v with
  | SND_PCM_XRUN_NONE => 0
  | SND_PCM_XRUN_STOP => 1
  end.

Definition tstamp_value (v : snd_pcm_tstamp_t) : Z :=
  match v with
  | SND_PCM_TSTAMP_NONE => 0
  | SND_PCM_TSTAMP_MMAP => 1
  end.

End Examples.

(** * Properties *)

(** ** C integer conversions *)

Module CTypesFacts.

Lemma to_int_small z : - 2 ^ 31 <= z < 2 ^ 31 -> to_int z = z.
Proof. intros H. unfold to_int. rewrite Z.mod_small; lia. Qed.

Lemma to_long_small z : - 2 ^ 63 <= z < 2 ^ 63 -> to_long z = z.
Proof. intros H. unfold to_long. rewrite Z.mod_small; lia. Qed.

Lemma to_uint_small z : 0 <= z < 2 ^ 32 -> to_uint z = z.
Proof. intros H. unfold to_uint. now rewrite Z.mod_small. Qed.

Lemma to_ulong_small z : 0 <= z < 2 ^ 64 -> to_ulong z = z.
Proof. intros H. unfold to_ulong. now rewrite Z.mod_small. Qed.

Lemma to_long_range z : - 2 ^ 63 <= to_long z < 2 ^ 63.
Proof.
  unfold to_long.
  pose proof (Z.mod_pos_bound (z + 2 ^ 63) (2 ^ 64) ltac:(lia)). lia.
Qed.

Lemma to_int_range z : - 2 ^ 31 <= to_int z < 2 ^ 31.
Proof.
  unfold to_int.
  pose proof (Z.mod_pos_bound (z + 2 ^ 31) (2 ^ 32) ltac:(lia)). lia.
Qed.

(** conversion of a negative [int] to [unsigned long] and back to [long] *)
Lemma to_long_to_ulong z : - 2 ^ 63 <= z < 2 ^ 63 -> to_long (to_ulong z) = z.
Proof.
  intros H. unfold to_long, to_ulong.
  rewrite Zplus_mod_idemp_l. rewrite Z.mod_small; lia.
Qed.

End CTypesFacts.

(** ** The format name table *)

Module NamesFacts.

Import Names Examples.

Lemma tolower_zero c : tolower c = 0 <-> c = 0.
Proof.
  unfold tolower.
  destruct ((65 <=? c) && (c <=? 90)) eqn:E; [|tauto].
  apply andb_true_iff in E as [E1 E2]. lia.
Qed.

Lemma strcasecmp_lower a : forall b, strcasecmp a b = 0 <-> lower a = lower b.
Proof.
  induction a as [|c1 r1 IH]; intros [|c2 r2]; simpl.
  - tauto.
  - change (tolower 0) with 0.
    destruct (code c2 =? 0) eqn:E.
    + apply Z.eqb_eq in E. rewrite E. change (tolower 0) with 0. split; auto.
    + apply Z.eqb_neq in E. pose proof (tolower_zero (code c2)).
      split; [lia | discriminate].
  - change (tolower 0) with 0.
    destruct (code c1 =? 0) eqn:E.
    + apply Z.eqb_eq in E. rewrite E. change (tolower 0) with 0. split; auto.
    + apply Z.eqb_neq in E. pose proof (tolower_zero (code c1)).
      split; [lia | discriminate].
  - pose proof (tolower_zero (code c1)) as T1.
    pose proof (tolower_zero (code c2)) as T2.
    destruct (tolower (code c1) =? tolower (code c2)) eqn:E.
    + apply Z.eqb_eq in E.
      destruct (code c1 =? 0) eqn:E1.
      * apply Z.eqb_eq in E1.
        assert (code c2 = 0) as -> by (apply T2; rewrite <- E; now apply T1).
        simpl. tauto.
      * apply Z.eqb_neq in E1.
        assert (code c2 <> 0) as E2 by (intros K; apply T2 in K; lia).
        apply Z.eqb_neq in E2. rewrite E2, E, IH.
        split; [now intros -> | now intros [= ->]].
    + apply Z.eqb_neq in E.
      split; [lia|].
      destruct (code c1 =? 0) eqn:E1, (code c2 =? 0) eqn:E2;
        try discriminate.
      * apply Z.eqb_eq in E1, E2. rewrite E1, E2 in E. now destruct E.
      * now intros [= K _].
Qed.

(** No two entries of the table have the same name, even without case. *)
Lemma stringify_lower_inj f g :
  lower (stringify f) = lower (stringify g) -> f = g.
Proof.
  destruct f, g; intros H; try reflexivity; vm_compute in H; discriminate H.
Qed.

Lemma stringify_match f g :
  strcasecmp (stringify f) (stringify g) = 0 -> f = g.
Proof. intros H. now apply stringify_lower_inj, strcasecmp_lower. Qed.

Lemma all_initialized f : In f format_initializers.
Proof. destruct f; simpl; tauto. Qed.

Section FormatTable.

Variable SND_PCM_FORMAT : format_tag -> Z.
Variable SND_PCM_FORMAT_LAST : Z.
Variable SND_PCM_FORMAT_UNKNOWN : Z.

(** The enumeration gives every format its own value, between 0 and
    [SND_PCM_FORMAT_LAST]. *)
Hypothesis enum_inj :
  forall f g, SND_PCM_FORMAT f = SND_PCM_FORMAT g -> f = g.
Hypothesis enum_range :
  forall f, 0 <= SND_PCM_FORMAT f <= SND_PCM_FORMAT_LAST.

Local Abbreviation names := (snd_pcm_format_names SND_PCM_FORMAT).
Local Abbreviation slot_step i :=
  (fun slot v => if SND_PCM_FORMAT v =? i then Some (stringify v) else slot).

Lemma slot_of_format f : forall l slot,
  slot = Some (stringify f) \/ In f l ->
  fold_left (slot_step (SND_PCM_FORMAT f)) l slot = Some (stringify f).
Proof.
  induction l as [|v l IH]; intros slot H; simpl.
  - destruct H as [H|[]]; exact H.
  - apply IH.
    destruct (SND_PCM_FORMAT v =? SND_PCM_FORMAT f) eqn:E.
    + apply Z.eqb_eq, enum_inj in E. subst v. now left.
    + destruct H as [H|[H|H]]; [now left| |now right].
      subst v. rewrite Z.eqb_refl in E. discriminate.
Qed.

Lemma slot_origin i s : forall l slot,
  fold_left (slot_step i) l slot = Some s ->
  slot = Some s \/ exists f, SND_PCM_FORMAT f = i /\ s = stringify f.
Proof.
  induction l as [|v l IH]; intros slot H; simpl in H.
  - now left.
  - apply IH in H as [H|H]; [|now right].
    destruct (SND_PCM_FORMAT v =? i) eqn:E; [|now left].
    apply Z.eqb_eq in E. right. exists v. split; congruence.
Qed.

Lemma names_of_format f : names (SND_PCM_FORMAT f) = Some (stringify f).
Proof. apply slot_of_format. right. apply all_initialized. Qed.

Lemma names_origin i s :
  names i = Some s -> exists f, SND_PCM_FORMAT f = i /\ s = stringify f.
Proof.
  intros H. apply slot_origin in H as [H|H]; [discriminate|exact H].
Qed.

Local Abbreviation value_from :=
  (format_value_from SND_PCM_FORMAT SND_PCM_FORMAT_LAST SND_PCM_FORMAT_UNKNOWN).

(** The scan stops at the first slot whose name matches. *)
Lemma format_value_from_hit name t s : forall n start,
  start <= t <= SND_PCM_FORMAT_LAST ->
  (Z.to_nat (t - start) < n)%nat ->
  (forall i s', start <= i < t -> names i = Some s' ->
                strcasecmp name s' <> 0) ->
  names t = Some s -> strcasecmp name s = 0 ->
  value_from n start name = t.
Proof.
  induction n as [|n IH]; intros start Hr Hn Hbefore Ht Hs; [lia|].
  simpl. destruct (start <=? SND_PCM_FORMAT_LAST) eqn:E;
    [|apply Z.leb_gt in E; lia].
  destruct (Z.eq_dec start t) as [->|Hne].
  - rewrite Ht, Hs. reflexivity.
  - assert (value_from n (start + 1) name = t) as Hrec.
    { apply IH; auto; try lia. intros i s' Hi. apply Hbefore. lia. }
    destruct (names start) as [s'|] eqn:Es; [|exact Hrec].
    destruct (strcasecmp name s' =? 0) eqn:Ec; [|exact Hrec].
    apply Z.eqb_eq in Ec. exfalso. apply (Hbefore start s'); auto. lia.
Qed.

Lemma format_value_from_miss name : forall n start,
  (forall i s, names i = Some s -> strcasecmp name s <> 0) ->
  value_from n start name = SND_PCM_FORMAT_UNKNOWN.
Proof.
  induction n as [|n IH]; intros start H; simpl; [reflexivity|].
  destruct (start <=? SND_PCM_FORMAT_LAST); [|reflexivity].
  destruct (names start) as [s|] eqn:Es; [|now apply IH].
  destruct (strcasecmp name s =? 0) eqn:Ec; [|now apply IH].
  apply Z.eqb_eq in Ec. now apply H in Es.
Qed.

Local Abbreviation format_value :=
  (snd_pcm_format_value SND_PCM_FORMAT SND_PCM_FORMAT_LAST
     SND_PCM_FORMAT_UNKNOWN).

Lemma format_value_match f name :
  strcasecmp name (stringify f) = 0 ->
  format_value name = SND_PCM_FORMAT f.
Proof.
  intros H. unfold snd_pcm_format_value.
  pose proof (enum_range f) as R.
  apply format_value_from_hit with (s := stringify f); auto; try lia.
  - intros i s' Hi Hn Hc.
    apply names_origin in Hn as (g & Hg & ->).
    apply strcasecmp_lower in H, Hc.
    assert (g = f) by (apply stringify_lower_inj; congruence).
    subst g. lia.
  - apply names_of_format.
Qed.

(** C10: [snd_pcm_format_value] is a left inverse of [snd_pcm_format_name],
    whatever the case of the letters: for every format [f] of the table,
    [snd_pcm_format_name f] is the entry of [f], the value of that name is
    [f], and so is the value of every string that [strcasecmp] finds equal
    to it; a string that matches no name of the table has the value
    [SND_PCM_FORMAT_UNKNOWN]. *)
Theorem format_value_left_inverse :
  (forall f,
     snd_pcm_format_name SND_PCM_FORMAT SND_PCM_FORMAT_LAST
       (SND_PCM_FORMAT f) = Ret (Some (stringify f))
     /\ format_value (stringify f) = SND_PCM_FORMAT f)
  /\ (forall f name,
        strcasecmp name (stringify f) = 0 ->
        format_value name = SND_PCM_FORMAT f)
  /\ (forall name,
        (forall f, strcasecmp name (stringify f) <> 0) ->
        format_value name = SND_PCM_FORMAT_UNKNOWN).
Proof.
  split; [|split].
  - intros f. split.
    + unfold snd_pcm_format_name.
      pose proof (enum_range f) as R.
      destruct (SND_PCM_FORMAT f <=? SND_PCM_FORMAT_LAST) eqn:E;
        [|apply Z.leb_gt in E; lia].
      now rewrite names_of_format.
    + apply format_value_match, strcasecmp_lower. reflexivity.
  - intros f name. apply format_value_match.
  - intros name H. apply format_value_from_miss.
    intros i s Hn. apply names_origin in Hn as (f & _ & ->). apply H.
Qed.

End FormatTable.

Example format_value_lower_case :
  snd_pcm_format_value abi_format 31 (-1) "s16_le" = 2.
Proof. reflexivity. Qed.

Example format_value_no_match :
  snd_pcm_format_value abi_format 31 (-1) "S16" = -1.
Proof. reflexivity. Qed.

Lemma format_value_left_inverse_witness :
  (forall f g, abi_format f = abi_format g -> f = g)
  /\ (forall f, 0 <= abi_format f <= 31)
  /\ snd_pcm_format_value abi_format 31 (-1) "mu_law" = abi_format MU_LAW.
Proof.
  assert (forall f g, abi_format f = abi_format g -> f = g) as Hinj.
  { intros f g; destruct f, g; simpl; intros H; try reflexivity;
      discriminate H. }
  assert (forall f, 0 <= abi_format f <= 31) as Hrange.
  { intros f; destruct f; simpl; lia. }
  split; [exact Hinj|]. split; [exact Hrange|].
  apply (proj1 (proj2 (format_value_left_inverse
                         abi_format 31 (-1) Hinj Hrange)) MU_LAW).
  reflexivity.
Defined.

End NamesFacts.

(** ** The handle: conversions, state operations, close *)

Module PcmFacts.

Import Area Pcm Examples.

(** *** Bytes and frames *)

Section Conversions.

Context {B : Type}.
Implicit Types pcm : @snd_pcm_t B.

(** C8, amended: on a handle with [setup] true, a count of frames [n >= 0]
    whose size in bits [n * frame_bits] is a multiple of 8 (so for every
    [n] when [frame_bits] is a multiple of 8) and fits in a [long] comes
    back unchanged from the conversion to bytes and back to frames. *)
Theorem frames_bytes_frames_whole_bytes pcm n :
  setup pcm = true ->
  0 < frame_bits pcm ->
  0 <= n ->
  n * frame_bits pcm <= LONG_MAX ->
  (n * frame_bits pcm) mod 8 = 0 ->
  frames_bytes_frames pcm n = Ret n.
Proof.
  intros Hs Hb Hn Hmax Hdiv.
  unfold frames_bytes_frames, snd_pcm_frames_to_bytes, snd_pcm_bytes_to_frames.
  rewrite Hs. unfold LONG_MAX in Hmax.
  destruct (frame_bits pcm =? 0) eqn:E; [apply Z.eqb_eq in E; lia|].
  set (p := n * frame_bits pcm) in *.
  assert (0 <= p) by (subst p; nia).
  rewrite (CTypesFacts.to_long_small p) by lia.
  rewrite (Z.quot_div_nonneg p 8) by lia.
  assert (p = 8 * (p / 8)) as Hp.
  { rewrite (Z.div_mod p 8) at 1 by lia. lia. }
  rewrite (CTypesFacts.to_long_small (p / 8)) by lia.
  replace (p / 8 * 8) with p by lia.
  rewrite (CTypesFacts.to_long_small p) by lia.
  rewrite Z.quot_div_nonneg by lia.
  subst p. rewrite Z.div_mul by lia.
  rewrite CTypesFacts.to_long_small by nia. reflexivity.
Qed.

End Conversions.

Lemma frames_bytes_frames_whole_bytes_witness :
  frames_bytes_frames (fixed_pcm true 32 1 SND_PCM_STATE_PREPARED 0 0) 1000
  = Ret 1000.
Proof.
  apply frames_bytes_frames_whole_bytes; simpl; unfold LONG_MAX;
    [reflexivity | lia | lia | lia | reflexivity].
Defined.

(** C8 as stated fails: with one channel of a 4 bit format a frame is half
    a byte, one frame is 0 bytes, and 0 bytes are 0 frames. *)
Lemma frames_bytes_frames_nibble_counterexample :
  let pcm := fixed_pcm true 4 1 SND_PCM_STATE_PREPARED 0 0 in
  setup pcm = true
  /\ snd_pcm_frames_to_bytes pcm 1 = Ret 0
  /\ snd_pcm_bytes_to_frames pcm 0 = Ret 0
  /\ frames_bytes_frames pcm 1 <> Ret 1.
Proof. repeat split. discriminate. Qed.

(** *** State operations and their assertions *)

Section StateOps.

Context {B : Type}.
Variable SND_PCM_NONBLOCK : Z.
Variable snd_pcm_munmap : @snd_pcm_t B -> B -> (Z * @snd_pcm_t B) * B.
Variable hw_params_t : Type.
Variable _snd_pcm_hw_params :
  @snd_pcm_t B -> hw_params_t -> B -> (Z * @snd_pcm_t B) * B.

Implicit Types (pcm : @snd_pcm_t B) (b : B).

Local Abbreviation hw_free := (snd_pcm_hw_free snd_pcm_munmap).
Local Abbreviation close := (snd_pcm_close SND_PCM_NONBLOCK snd_pcm_munmap).
Local Abbreviation hw_params :=
  (snd_pcm_hw_params hw_params_t _snd_pcm_hw_params).

(** With [setup] true the state operations go to the fast table. *)
Lemma state_operations_dispatch pcm b :
  setup pcm = true ->
  snd_pcm_prepare pcm b = call OpPrepare [] (fast_prepare (fast_ops pcm)) b
  /\ snd_pcm_reset pcm b = call OpReset [] (fast_reset (fast_ops pcm)) b
  /\ snd_pcm_start pcm b = call OpStart [] (fast_start (fast_ops pcm)) b
  /\ snd_pcm_drop pcm b = call OpDrop [] (fast_drop (fast_ops pcm)) b
  /\ snd_pcm_drain pcm b = call OpDrain [] (fast_drain (fast_ops pcm)) b
  /\ (forall enable,
        snd_pcm_pause pcm enable b
        = call OpPause [enable] (fast_pause (fast_ops pcm) enable) b)
  /\ (forall frames, 0 < frames ->
        snd_pcm_rewind pcm frames b
        = call_long OpRewind [frames] (fast_rewind (fast_ops pcm) frames) b).
Proof.
  intros Hs.
  unfold snd_pcm_prepare, snd_pcm_reset, snd_pcm_start, snd_pcm_drop,
    snd_pcm_drain, snd_pcm_pause, snd_pcm_rewind, bind, assert, call,
    call_long.
  rewrite Hs. simpl.
  repeat split;
    try (match goal with |- context [?f b] => destruct (f b) end; reflexivity).
  - intros enable. now destruct (fast_pause (fast_ops pcm) enable b).
  - intros frames Hf. apply Z.gtb_lt in Hf. rewrite Hf. simpl.
    now destruct (fast_rewind (fast_ops pcm) frames b).
Qed.

(** C6, amended: [prepare], [start], [drop], [drain], [pause], [reset] and
    [rewind] assert [setup], and so does [hw_free]: called on a handle whose
    [setup] is false, each of the eight stops at its assertion before any
    call to the endpoint. Only [close] and [hw_params] run without [setup]:
    [close] goes to the [close] entry of the endpoint, destroys the handle
    and returns 0; [hw_params] calls [_snd_pcm_hw_params] and returns
    (its [prepare] step asserts [setup] on the configuration that
    [_snd_pcm_hw_params] has just installed). *)
Theorem setup_assertions pcm b :
  setup pcm = false ->
  (forall p params c,
     let '((err, p1), _) := _snd_pcm_hw_params p params c in
     0 <= to_int err -> setup p1 = true) ->
  snd_pcm_prepare pcm b = (Fault AssertFail, b, [])
  /\ snd_pcm_start pcm b = (Fault AssertFail, b, [])
  /\ snd_pcm_drop pcm b = (Fault AssertFail, b, [])
  /\ snd_pcm_drain pcm b = (Fault AssertFail, b, [])
  /\ (forall enable, snd_pcm_pause pcm enable b = (Fault AssertFail, b, []))
  /\ snd_pcm_reset pcm b = (Fault AssertFail, b, [])
  /\ (forall frames, snd_pcm_rewind pcm frames b = (Fault AssertFail, b, []))
  /\ hw_free pcm b = (Fault AssertFail, b, [])
  /\ (let '(e, b1) := ops_close (ops pcm) b in
      close pcm b
      = (Ret 0, b1, Call OpClose [] (to_int e) :: destroy_log pcm))
  /\ (forall params, exists r b1 e l,
        hw_params pcm params b = (Ret r, b1, Call OpHwParams [] e :: l)).
Proof.
  intros Hs Hinstall.
  unfold snd_pcm_prepare, snd_pcm_reset, snd_pcm_start, snd_pcm_drop,
    snd_pcm_drain, snd_pcm_pause, snd_pcm_rewind, snd_pcm_hw_free,
    snd_pcm_close, bind, assert.
  rewrite Hs. simpl.
  repeat split.
  - unfold call, emit, ret, destroy_log.
    destruct (ops_close (ops pcm) b) as [e b1].
    destruct (name pcm); reflexivity.
  - intros params. unfold snd_pcm_hw_params.
    specialize (Hinstall pcm params b).
    destruct (_snd_pcm_hw_params pcm params b) as [[err p1] b1].
    destruct (to_int err >=? 0) eqn:E.
    + apply Z.geb_le in E.
      destruct (state_operations_dispatch p1 b1 (Hinstall E)) as [-> _].
      unfold call. destruct (fast_prepare (fast_ops p1) b1) as [e1 b2].
      now eexists _, _, _, _.
    + now eexists _, _, _, _.
Qed.

End StateOps.

(** On the example endpoint, not set up, [prepare] stops at its assertion
    and [hw_params] goes through. *)
Lemma setup_assertions_witness :
  let pcm := fixed_pcm false 32 1 SND_PCM_STATE_OPEN 0 0 in
  setup pcm = false
  /\ snd_pcm_prepare pcm 0%nat = (Fault AssertFail, 0%nat, [])
  /\ exists r b1 e l,
       snd_pcm_hw_params unit hw_params_ok pcm tt 0%nat
       = (Ret r, b1, Call OpHwParams [] e :: l).
Proof.
  intros pcm.
  pose proof (setup_assertions 1 munmap_ok unit hw_params_ok pcm 0%nat
                eq_refl (fun p params c _ => eq_refl)) as H.
  split; [reflexivity|]. split; [apply H|].
  apply (proj2 (proj2 (proj2 (proj2 (proj2 (proj2 (proj2 (proj2
           (proj2 H))))))))).
Defined.

(** C6 as stated fails for [hw_free]: called with [setup] false it stops at
    [assert(pcm->setup)]. *)
Lemma hw_free_without_setup_counterexample :
  let pcm := fixed_pcm false 32 1 SND_PCM_STATE_OPEN 0 0 in
  setup pcm = false
  /\ snd_pcm_hw_free munmap_ok pcm 0%nat = (Fault AssertFail, 0%nat, []).
Proof. split; reflexivity. Qed.

(** *** Close *)

Section Close.

Context {B : Type}.
Variable SND_PCM_NONBLOCK : Z.
Variable snd_pcm_munmap : @snd_pcm_t B -> B -> (Z * @snd_pcm_t B) * B.

Implicit Types (pcm : @snd_pcm_t B) (b : B).

Local Abbreviation hw_free := (snd_pcm_hw_free snd_pcm_munmap).
Local Abbreviation close := (snd_pcm_close SND_PCM_NONBLOCK snd_pcm_munmap).
Local Abbreviation stop_op := (Pcm.stop_op SND_PCM_NONBLOCK).
Local Abbreviation state_after_stop :=
  (Pcm.state_after_stop SND_PCM_NONBLOCK).

Lemma hw_free_run pcm b :
  setup pcm = true ->
  let '(s, b1) := fast_state (fast_ops pcm) b in
  if snd_enum_to_int s <=? snd_enum_to_int SND_PCM_STATE_PREPARED then
    exists r b2 l,
      hw_free pcm b = (Ret r, b2, Call OpState [] (snd_enum_to_int s) :: l)
      /\ hw_free_calls pcm l
  else
    hw_free pcm b
    = (Fault AssertFail, b1, [Call OpState [] (snd_enum_to_int s)]).
Proof.
  intros Hs.
  unfold snd_pcm_hw_free, hw_free_calls, bind, assert, snd_pcm_state.
  rewrite Hs. simpl.
  destruct (fast_state (fast_ops pcm) b) as [s b1].
  destruct (snd_enum_to_int s <=? _); simpl; [|reflexivity].
  destruct (mmap_channels pcm); simpl.
  - destruct (snd_pcm_munmap pcm b1) as [[e p1] b2]. simpl.
    destruct (to_int e <? 0) eqn:E; simpl.
    + apply Z.ltb_lt in E. eexists _, _, _. split; [reflexivity|].
      left; now exists (to_int e).
    + apply Z.ltb_ge in E. unfold call.
      destruct (ops_hw_free (ops p1) b2) as [e' b3]. simpl.
      eexists _, _, _. split; [reflexivity|].
      right; now exists (to_int e), (to_int e').
  - unfold call. destruct (ops_hw_free (ops pcm) b1) as [e' b3]. simpl.
    eexists _, _, _. split; [reflexivity|]. now exists (to_int e').
Qed.

Lemma stop_run pcm b :
  setup pcm = true ->
  exists e b1,
    (if nonblock SND_PCM_NONBLOCK pcm
        || stream_eqb (stream pcm) SND_PCM_STREAM_CAPTURE
     then snd_pcm_drop pcm else snd_pcm_drain pcm) b
    = (Ret e, b1, [Call (stop_op pcm) [] e])
    /\ state_after_stop pcm b = fst (fast_state (fast_ops pcm) b1).
Proof.
  intros Hs.
  destruct (state_operations_dispatch pcm b Hs)
    as (_ & _ & _ & Hdrop & Hdrain & _).
  unfold Pcm.stop_op, Pcm.state_after_stop.
  destruct (nonblock SND_PCM_NONBLOCK pcm
            || stream_eqb (stream pcm) SND_PCM_STREAM_CAPTURE).
  - rewrite Hdrop. unfold call.
    destruct (fast_drop (fast_ops pcm) b) as [e b1].
    now exists (to_int e), b1.
  - rewrite Hdrain. unfold call.
    destruct (fast_drain (fast_ops pcm) b) as [e b1].
    now exists (to_int e), b1.
Qed.

(** Every run of [snd_pcm_close]. *)
Lemma close_run pcm b :
  if setup pcm then
    let s := snd_enum_to_int (state_after_stop pcm b) in
    if s <=? snd_enum_to_int SND_PCM_STATE_PREPARED then
      exists b1 e_stop l_free e_close l_destroy,
        close pcm b
        = (Ret 0, b1,
           Call (stop_op pcm) [] e_stop :: Call OpState [] s
             :: l_free ++ Call OpClose [] e_close :: l_destroy)
        /\ hw_free_calls pcm l_free
        /\ destroy_calls l_destroy
    else
      exists b1 e_stop,
        close pcm b
        = (Fault AssertFail, b1,
           [Call (stop_op pcm) [] e_stop; Call OpState [] s])
  else
    exists b1 e_close,
      close pcm b = (Ret 0, b1, Call OpClose [] e_close :: destroy_log pcm).
Proof.
  destruct (setup pcm) eqn:Hs.
  - destruct (stop_run pcm b Hs) as (e & b1 & Hstop & Hstate).
    pose proof (hw_free_run pcm b1 Hs) as Hfree.
    cbv zeta. rewrite Hstate.
    destruct (fast_state (fast_ops pcm) b1) as [s b2]. simpl fst.
    destruct (snd_enum_to_int s <=? _).
    + destruct Hfree as (r & b3 & l & Hf & Hl).
      unfold snd_pcm_close. rewrite Hs.
      unfold bind, call, emit, ret. rewrite Hstop, Hf. simpl.
      destruct (ops_close (ops (snd r)) b3) as [ec b4]. simpl.
      destruct (name (snd r)); simpl.
      * eexists _, e, l, _, _. split; [|split; [exact Hl|left; reflexivity]].
        rewrite app_nil_r. reflexivity.
      * eexists _, e, l, _, _. split; [|split; [exact Hl|right; reflexivity]].
        rewrite app_nil_r. reflexivity.
    + unfold snd_pcm_close. rewrite Hs.
      unfold bind, call, emit, ret. rewrite Hstop, Hfree. now exists b2, e.
  - unfold snd_pcm_close, bind, call, emit, ret, destroy_log. rewrite Hs.
    simpl. destruct (ops_close (ops pcm) b) as [ec b1].
    destruct (name pcm); now exists b1, (to_int ec).
Qed.

(** C5: on a handle with [setup] true, [snd_pcm_close] first stops the
    stream, by [drop] when the mode has [SND_PCM_NONBLOCK] or the stream is
    a capture and by [drain] otherwise; then comes [snd_pcm_hw_free] (it
    reads the state, releases the mapping when there is one, and calls the
    [hw_free] entry), then the [close] entry of the endpoint, then the
    handle is destroyed. With [setup] false there is only the [close] entry
    and the destruction. The first case supposes what [snd_pcm_hw_free]
    asserts: the stream, once stopped, is in a state up to PREPARED. *)
Theorem close_sequence pcm b :
  (stop_op pcm = OpDrop <->
     Z.land (mode pcm) SND_PCM_NONBLOCK <> 0
     \/ stream pcm = SND_PCM_STREAM_CAPTURE)
  /\ (stop_op pcm = OpDrain <->
        ~ (Z.land (mode pcm) SND_PCM_NONBLOCK <> 0
           \/ stream pcm = SND_PCM_STREAM_CAPTURE))
  /\ (setup pcm = true ->
      snd_enum_to_int (state_after_stop pcm b)
      <= snd_enum_to_int SND_PCM_STATE_PREPARED ->
      exists b1 e_stop s l_free e_close l_destroy,
        close pcm b
        = (Ret 0, b1,
           Call (stop_op pcm) [] e_stop :: Call OpState [] s
             :: l_free ++ Call OpClose [] e_close :: l_destroy)
        /\ hw_free_calls pcm l_free
        /\ destroy_calls l_destroy)
  /\ (setup pcm = false ->
      exists b1 e_close l_destroy,
        close pcm b = (Ret 0, b1, Call OpClose [] e_close :: l_destroy)
        /\ destroy_calls l_destroy).
Proof.
  assert (nonblock SND_PCM_NONBLOCK pcm
          || stream_eqb (stream pcm) SND_PCM_STREAM_CAPTURE = true
          <-> Z.land (mode pcm) SND_PCM_NONBLOCK <> 0
              \/ stream pcm = SND_PCM_STREAM_CAPTURE) as Hcond.
  { unfold nonblock. rewrite orb_true_iff, negb_true_iff, Z.eqb_neq.
    destruct (stream pcm); simpl; intuition congruence. }
  pose proof (close_run pcm b) as Hrun.
  unfold Pcm.stop_op in *.
  split; [|split; [|split]].
  - destruct (nonblock SND_PCM_NONBLOCK pcm || _).
    + intuition.
    + split; [discriminate|]. intros H. apply Hcond in H. discriminate.
  - destruct (nonblock SND_PCM_NONBLOCK pcm || _).
    + split; [discriminate|]. intros H. destruct H. now apply Hcond.
    + split; [|reflexivity]. intros _ H. apply Hcond in H. discriminate.
  - intros Hs Hle. rewrite Hs in Hrun. cbv zeta in Hrun.
    apply Z.leb_le in Hle. rewrite Hle in Hrun.
    destruct Hrun as (b1 & e & l & ec & ld & H).
    now eexists b1, e, _, l, ec, ld.
  - intros Hs. rewrite Hs in Hrun. destruct Hrun as (b1 & ec & ->).
    exists b1, ec, (destroy_log pcm). split; [reflexivity|].
    unfold destroy_log, destroy_calls. destruct (name pcm); auto.
Qed.

(** C9: [snd_pcm_close] returns 0, whatever the stop operation,
    [snd_pcm_hw_free] and the [close] entry of the endpoint return: the
    local that collects their errors is not returned. (A handle with
    [setup] true is closed under the assertion of [snd_pcm_hw_free].) *)
Theorem close_returns_zero pcm b :
  (setup pcm = true ->
   snd_enum_to_int (state_after_stop pcm b)
   <= snd_enum_to_int SND_PCM_STATE_PREPARED) ->
  fst (fst (close pcm b)) = Ret 0.
Proof.
  intros Hle. pose proof (close_run pcm b) as Hrun.
  destruct (setup pcm).
  - specialize (Hle eq_refl). apply Z.leb_le in Hle.
    cbv zeta in Hrun. rewrite Hle in Hrun.
    destruct Hrun as (b1 & e & l & ec & ld & -> & _). reflexivity.
  - destruct Hrun as (b1 & ec & ->). reflexivity.
Qed.

End Close.

(** A handle whose endpoint answers every operation with the error -5,
    closed: the calls come in the order stop, state, [hw_free], [close],
    [free], and the result is 0. *)
Lemma close_sequence_witness :
  let pcm := fixed_pcm true 32 1 SND_PCM_STATE_SETUP (-5) 0 in
  setup pcm = true
  /\ snd_enum_to_int (state_after_stop 1 pcm 0%nat)
     <= snd_enum_to_int SND_PCM_STATE_PREPARED
  /\ exists b1 e_stop s l_free e_close l_destroy,
       snd_pcm_close 1 munmap_ok pcm 0%nat
       = (Ret 0, b1,
          Call (stop_op 1 pcm) [] e_stop :: Call OpState [] s
            :: l_free ++ Call OpClose [] e_close :: l_destroy)
       /\ hw_free_calls pcm l_free
       /\ destroy_calls l_destroy.
Proof.
  intros pcm.
  assert (snd_enum_to_int (state_after_stop 1 pcm 0%nat)
          <= snd_enum_to_int SND_PCM_STATE_PREPARED) as Hle
    by (simpl; lia).
  split; [reflexivity|]. split; [exact Hle|].
  exact (proj1 (proj2 (proj2 (close_sequence 1 munmap_ok pcm 0%nat)))
           eq_refl Hle).
Defined.

Example close_sequence_example :
  snd_pcm_close 1 munmap_ok
    (fixed_pcm true 32 1 SND_PCM_STATE_SETUP (-5) 0) 0%nat
  = (Ret 0, 4%nat,
     [Call OpDrain [] (-5); Call OpState [] 1; Call OpHwFree [] (-5);
      Call OpClose [] (-5); Call OpFreeName [] 0; Call OpFreePcm [] 0]).
Proof. reflexivity. Qed.

Lemma close_returns_zero_witness :
  let pcm := fixed_pcm true 32 1 SND_PCM_STATE_SETUP (-5) 0 in
  fst (fast_drain (fast_ops pcm) 0%nat) = -5
  /\ fst (ops_hw_free (ops pcm) 0%nat) = -5
  /\ fst (ops_close (ops pcm) 0%nat) = -5
  /\ fst (fst (snd_pcm_close 1 munmap_ok pcm 0%nat)) = Ret 0.
Proof.
  intros pcm.
  split; [reflexivity|]. split; [reflexivity|]. split; [reflexivity|].
  apply (close_returns_zero 1 munmap_ok pcm 0%nat).
  intros _. simpl. lia.
Defined.

(** *** The transfer loops *)

Section Transfer.

Context {B : Type}.
Variable SND_PCM_NONBLOCK : Z.
Variable poll : Z -> Z -> Z -> B -> (Z * Z) * B.

Implicit Types (pcm : @snd_pcm_t B) (b : B) (l q : list event).

Local Abbreviation write_areas_loop :=
  (write_areas_loop SND_PCM_NONBLOCK poll).
Local Abbreviation read_areas_loop :=
  (read_areas_loop SND_PCM_NONBLOCK poll).
Local Abbreviation write_areas := (snd_pcm_write_areas SND_PCM_NONBLOCK poll).
Local Abbreviation read_areas := (snd_pcm_read_areas SND_PCM_NONBLOCK poll).

Lemma frames_moved_app l1 l2 :
  frames_moved (l1 ++ l2) = frames_moved l1 + frames_moved l2.
Proof.
  induction l1 as [|[op args r|e] l1 IH]; simpl; [reflexivity| |exact IH].
  destruct op; rewrite ?IH; try reflexivity. lia.
Qed.

Lemma errors_raised_app l1 l2 :
  errors_raised (l1 ++ l2) = errors_raised l1 ++ errors_raised l2.
Proof.
  induction l1 as [|[op args r|e] l1 IH]; simpl; [reflexivity|exact IH|].
  now rewrite IH.
Qed.

Lemma frames_moved_nonneg l : 0 <= frames_moved l.
Proof.
  induction l as [|[op args r|e] l IH]; simpl; [lia| |exact IH].
  destruct op; try exact IH. destruct (to_int r <? 0) eqn:E; [lia|].
  apply Z.ltb_ge in E. lia.
Qed.

Lemma quiet_nil : quiet [].
Proof. split; reflexivity. Qed.

Lemma quiet_app l1 l2 : quiet l1 -> quiet l2 -> quiet (l1 ++ l2).
Proof.
  intros [M1 E1] [M2 E2]. split.
  - rewrite frames_moved_app. lia.
  - now rewrite errors_raised_app, E1, E2.
Qed.

Lemma quiet_call op args r : op <> OpXfer -> quiet [Call op args r].
Proof.
  intros H. split; [|reflexivity].
  destruct op; try reflexivity. now destruct H.
Qed.

Lemma loop_post_quiet q size xfer x e l :
  quiet q -> loop_post size xfer x e l -> loop_post size xfer x e (q ++ l).
Proof.
  intros [Mq Eq] (Hx & Hle & Hout). unfold loop_post.
  rewrite frames_moved_app, errors_raised_app, Mq, Eq. simpl.
  repeat split; try lia.
  destruct Hout as [H|(He & (l0 & ->) & Hr)]; [now left|right].
  repeat split; try lia; auto. exists (q ++ l0). now rewrite app_assoc.
Qed.

Lemma loop_post_leave q size xfer e :
  quiet q -> 0 <= size -> - 2 ^ 31 <= e < 0 ->
  loop_post size xfer xfer e (q ++ [Raise e]).
Proof.
  intros [Mq Eq] Hs He. unfold loop_post.
  rewrite frames_moved_app, errors_raised_app, Mq, Eq. simpl.
  repeat split; try lia. right. repeat split; try lia. now exists q.
Qed.

Lemma loop_post_moved args r frames size xfer x e l :
  to_int r = frames -> 0 < frames <= size ->
  loop_post (size - frames) (xfer + frames) x e l ->
  loop_post size xfer x e (Call OpXfer args r :: l).
Proof.
  intros Hr Hf (Hx & Hle & Hout). unfold loop_post. simpl.
  rewrite Hr. destruct (frames <? 0) eqn:E; [apply Z.ltb_lt in E; lia|].
  pose proof (frames_moved_nonneg l).
  repeat split; try lia.
  destruct Hout as [[He Hm]|(He & (l0 & ->) & Hrange)]; [left|right].
  - split; [exact He|lia].
  - repeat split; try lia; auto. now exists (Call OpXfer args r :: l0).
Qed.

Lemma loop_post_done args r frames size xfer err q :
  to_int r = frames -> 0 < frames <= size -> quiet q ->
  loop_post size xfer (xfer + frames) err (Call OpXfer args r :: q).
Proof.
  intros Hr Hf [Mq Eq]. unfold loop_post. simpl.
  rewrite Hr, Mq, Eq. destruct (frames <? 0) eqn:E; [apply Z.ltb_lt in E; lia|].
  repeat split; try lia. left. split; [reflexivity|lia].
Qed.

Lemma rounded_avail_pos avail align :
  0 < avail -> align <> 0 \/ avail <= align ->
  0 < (if avail >? align then avail - avail mod align else avail).
Proof.
  intros Ha Hal. destruct (avail >? align) eqn:E; [|exact Ha].
  apply Z.gtb_lt in E. destruct Hal as [Hal|Hal]; [|lia].
  destruct (Z_lt_le_dec 0 align) as [Hp|Hn].
  - pose proof (Z.mod_pos_bound avail align Hp). lia.
  - pose proof (Z.mod_neg_bound avail align ltac:(lia)). lia.
Qed.

Lemma start_inv pcm b r b' l :
  snd_pcm_start pcm b = (r, b', l) ->
  (r = Fault AssertFail /\ l = [])
  \/ exists e, r = Ret e /\ l = [Call OpStart [] e] /\ - 2 ^ 31 <= e < 2 ^ 31.
Proof.
  unfold snd_pcm_start, bind, assert, call. destruct (setup pcm); simpl.
  - destruct (fast_start (fast_ops pcm) b) as [e b1]. intros [= <- <- <-].
    right. exists (to_int e). repeat split; apply CTypesFacts.to_int_range.
  - intros [= <- <- <-]. now left.
Qed.

Lemma write_transfer_post pcm areas func again state offset size xfer avail :
  0 < size -> 0 < avail ->
  (forall offset' size' xfer' b x e b' l,
     0 < size' ->
     again offset' size' xfer' b = (Ret (x, e), b', l) ->
     loop_post size' xfer' x e l) ->
  forall b x e b' l,
    write_transfer pcm areas func again state offset size xfer avail b
    = (Ret (x, e), b', l) ->
    loop_post size xfer x e l.
Proof.
  intros Hsize Havail IH b x e b' l. unfold write_transfer.
  destruct ((avail >? xfer_align pcm) && (xfer_align pcm =? 0)) eqn:E0;
    [discriminate|].
  assert (xfer_align pcm <> 0 \/ avail <= xfer_align pcm) as Hal.
  { apply andb_false_iff in E0 as [E0|E0].
    - right. rewrite Z.gtb_ltb in E0. apply Z.ltb_ge in E0. lia.
    - left. now apply Z.eqb_neq. }
  pose proof (rounded_avail_pos avail (xfer_align pcm) Havail Hal) as Hav.
  set (avail' := if avail >? xfer_align pcm
                 then avail - avail mod xfer_align pcm else avail) in *.
  set (frames := if size >? avail' then avail' else size).
  assert (0 < frames <= size) as Hf.
  { subst frames. destruct (size >? avail') eqn:E; [|lia].
    rewrite Z.gtb_ltb in E. apply Z.ltb_lt in E. lia. }
  unfold bind at 1. unfold assert.
  destruct (frames =? 0) eqn:Ez; [apply Z.eqb_eq in Ez; lia|].
  cbn [negb ret]. unfold bind at 1. unfold call_long.
  destruct (func areas offset frames b) as [r0 b1].
  set (r := to_long r0).
  destruct (to_int r <? 0) eqn:Eneg.
  - unfold leave, bind, emit, ret. intros [= <- <- <- <-].
    apply Z.ltb_lt in Eneg. pose proof (CTypesFacts.to_int_range r).
    unfold loop_post. simpl. apply Z.ltb_lt in Eneg as Eneg'. rewrite Eneg'.
    repeat split; try lia. right. repeat split; try lia.
    now exists [Call OpXfer [offset; frames] r].
  - apply Z.ltb_ge in Eneg.
    destruct (to_int r =? frames) eqn:Eeq; [|discriminate].
    apply Z.eqb_eq in Eeq.
    assert (forall err q b0 l2,
              quiet q ->
              (if size - frames >? 0
               then again (to_ulong (offset + frames)) (size - frames)
                      (xfer + frames)
               else ret (xfer + frames, err)) b0 = (Ret (x, e), b', l2) ->
              loop_post size xfer x e
                (Call OpXfer [offset; frames] r :: q ++ l2)) as Hcont.
    { intros err q b0 l2 Hq. destruct (size - frames >? 0) eqn:Erest.
      - intros H. apply IH in H; [|apply Z.gtb_lt in Erest; lia].
        eapply loop_post_moved; eauto. now apply loop_post_quiet.
      - intros [= <- <- <- <-]. rewrite app_nil_r.
        now apply loop_post_done. }
    unfold bind at 1. cbn [ret].
    destruct (state_eqb state SND_PCM_STATE_PREPARED
              && start_eqb (start_mode pcm) SND_PCM_START_DATA).
    + unfold bind at 1.
      destruct (snd_pcm_start pcm b1) as [[rs bs] ls] eqn:Es.
      apply start_inv in Es as [[-> ->]|(e0 & -> & -> & He0)];
        [discriminate|].
      destruct (e0 <? 0) eqn:E1.
      * unfold leave, bind, emit, ret. intros [= <- <- <- <-].
        apply Z.ltb_lt in E1. cbn [app].
        eapply loop_post_moved; eauto.
        apply (loop_post_leave [Call OpStart [] e0]);
          [now apply quiet_call|lia|lia].
      * destruct (if size - frames >? 0
                  then again (to_ulong (offset + frames)) (size - frames)
                         (xfer + frames)
                  else ret (xfer + frames, e0)) eqn:Ek at 1.
        destruct p as [rk bk]. cbn [app]. intros [= -> <- <-].
        apply (Hcont e0 [Call OpStart [] e0] bs l0);
          [now apply quiet_call|exact Ek].
    + destruct (if size - frames >? 0
                then again (to_ulong (offset + frames)) (size - frames)
                       (xfer + frames)
                else ret (xfer + frames, to_int r)) eqn:Ek at 1.
      destruct p as [rk bk]. cbn [app]. intros [= -> <- <-].
      apply (Hcont (to_int r) [] b1 l0); [apply quiet_nil|exact Ek].
Qed.

Lemma read_transfer_post pcm areas func again offset size xfer avail :
  0 < size -> 0 < avail ->
  (forall offset' size' xfer' b x e b' l,
     0 < size' ->
     again offset' size' xfer' b = (Ret (x, e), b', l) ->
     loop_post size' xfer' x e l) ->
  forall b x e b' l,
    read_transfer pcm areas func again offset size xfer avail b
    = (Ret (x, e), b', l) ->
    loop_post size xfer x e l.
Proof.
  intros Hsize Havail IH b x e b' l. unfold read_transfer.
  destruct ((avail >? xfer_align pcm) && (xfer_align pcm =? 0)) eqn:E0;
    [discriminate|].
  assert (xfer_align pcm <> 0 \/ avail <= xfer_align pcm) as Hal.
  { apply andb_false_iff in E0 as [E0|E0].
    - right. rewrite Z.gtb_ltb in E0. apply Z.ltb_ge in E0. lia.
    - left. now apply Z.eqb_neq. }
  pose proof (rounded_avail_pos avail (xfer_align pcm) Havail Hal) as Hav.
  set (avail' := if avail >? xfer_align pcm
                 then avail - avail mod xfer_align pcm else avail) in *.
  set (frames := if size >? avail' then avail' else size).
  assert (0 < frames <= size) as Hf.
  { subst frames. destruct (size >? avail') eqn:E; [|lia].
    rewrite Z.gtb_ltb in E. apply Z.ltb_lt in E. lia. }
  unfold bind at 1. unfold assert.
  destruct (frames =? 0) eqn:Ez; [apply Z.eqb_eq in Ez; lia|].
  cbn [negb ret]. unfold bind at 1. unfold call_long.
  destruct (func areas offset frames b) as [r0 b1].
  set (r := to_long r0).
  destruct (to_int r <? 0) eqn:Eneg.
  - unfold leave, bind, emit, ret. intros [= <- <- <- <-].
    pose proof (CTypesFacts.to_int_range r).
    unfold loop_post. simpl. apply Z.ltb_lt in Eneg as Eneg'. rewrite Eneg.
    repeat split; try lia. right. repeat split; try lia.
    now exists [Call OpXfer [offset; frames] r].
  - apply Z.ltb_ge in Eneg.
    destruct (to_int r =? frames) eqn:Eeq; [|discriminate].
    apply Z.eqb_eq in Eeq.
    unfold bind at 1. cbn [ret].
    destruct (size - frames >? 0) eqn:Erest.
    + destruct (again (to_ulong (offset + frames)) (size - frames)
                  (xfer + frames) b1) as [[rk bk] lk] eqn:Ek.
      cbn [app]. intros [= -> <- <-].
      apply IH in Ek; [|apply Z.gtb_lt in Erest; lia].
      eapply loop_post_moved; eauto.
    + cbn [app]. intros [= <- <- <- <-]. now apply loop_post_done, quiet_nil.
Qed.

Lemma wait_inv pcm timeout b r b' l :
  snd_pcm_wait poll pcm timeout b = (r, b', l) ->
  exists e, r = Ret e /\ quiet l /\ - 2 ^ 31 <= e < 2 ^ 31
            /\ calls_of OpPoll l = l.
Proof.
  unfold snd_pcm_wait, snd_pcm_poll_descriptors, bind, assert. simpl.
  destruct (poll _ _ _ b) as [[err errno] b1]. simpl.
  intros [= <- <- <-]. eexists. split; [reflexivity|].
  split; [now apply quiet_call|]. split; [|reflexivity].
  destruct (to_int err <? 0); [apply CTypesFacts.to_int_range|lia].
Qed.

Lemma write_areas_loop_S k pcm areas func state offset size xfer :
  write_areas_loop (S k) pcm areas func state offset size xfer
  = bind (snd_pcm_avail_update pcm) (fun avail =>
      if avail <? 0 then leave xfer (- EPIPE)
      else if state_eqb state SND_PCM_STATE_PREPARED then
        if avail =? 0 then leave xfer (- EPIPE)
        else write_transfer pcm areas func
               (write_areas_loop k pcm areas func state)
               state offset size xfer avail
      else if (avail =? 0)
              || ((size >=? xfer_align pcm) && (avail <? xfer_align pcm))
      then
        if nonblock SND_PCM_NONBLOCK pcm then leave xfer (- EAGAIN)
        else
          bind (snd_pcm_wait poll pcm (-1)) (fun err =>
            if err <? 0 then leave xfer err
            else
              bind (snd_pcm_state pcm) (fun state =>
                write_areas_loop k pcm areas func state offset size xfer))
      else write_transfer pcm areas func
             (write_areas_loop k pcm areas func state)
             state offset size xfer avail).
Proof. reflexivity. Qed.

Lemma read_areas_loop_S k pcm areas func state offset size xfer :
  read_areas_loop (S k) pcm areas func state offset size xfer
  = bind (snd_pcm_avail_update pcm) (fun avail =>
      if avail <? 0 then leave xfer (- EPIPE)
      else if state_eqb state SND_PCM_STATE_DRAINING then
        if avail =? 0 then leave xfer (- EPIPE)
        else read_transfer pcm areas func
               (read_areas_loop k pcm areas func state)
               offset size xfer avail
      else if (avail =? 0)
              || ((size >=? xfer_align pcm) && (avail <? xfer_align pcm))
      then
        if nonblock SND_PCM_NONBLOCK pcm then leave xfer (- EAGAIN)
        else
          bind (snd_pcm_wait poll pcm (-1)) (fun err =>
            if err <? 0 then leave xfer err
            else
              bind (snd_pcm_state pcm) (fun state =>
                read_areas_loop k pcm areas func state offset size xfer))
      else read_transfer pcm areas func
             (read_areas_loop k pcm areas func state)
             offset size xfer avail).
Proof. reflexivity. Qed.

(** The first half of the body of the two loops is the same but for the
    state in which [avail == 0] ends the transfer; [step] is the second
    half and [loop] the loop itself. *)
Lemma loop_body_post pcm (special : bool) (step : Z -> M (Z * Z))
    (loop : snd_pcm_state_t -> M (Z * Z)) size xfer :
  0 < size ->
  (forall avail b x e b' l,
     0 < avail -> step avail b = (Ret (x, e), b', l) ->
     loop_post size xfer x e l) ->
  (forall state b x e b' l,
     loop state b = (Ret (x, e), b', l) -> loop_post size xfer x e l) ->
  forall b x e b' l,
    bind (snd_pcm_avail_update pcm) (fun avail =>
      if avail <? 0 then leave xfer (- EPIPE)
      else if special then
        if avail =? 0 then leave xfer (- EPIPE) else step avail
      else if (avail =? 0)
              || ((size >=? xfer_align pcm) && (avail <? xfer_align pcm))
      then
        if nonblock SND_PCM_NONBLOCK pcm then leave xfer (- EAGAIN)
        else
          bind (snd_pcm_wait poll pcm (-1)) (fun err =>
            if err <? 0 then leave xfer err
            else bind (snd_pcm_state pcm) loop)
      else step avail) b = (Ret (x, e), b', l) ->
    loop_post size xfer x e l.
Proof.
  intros Hsize Hstep Hloop b x e b' l.
  unfold bind at 1. unfold snd_pcm_avail_update, call_long.
  destruct (fast_avail_update (fast_ops pcm) b) as [a0 b1].
  set (avail := to_long a0).
  assert (quiet [Call OpAvailUpdate [] avail]) as Hq by now apply quiet_call.
  assert (forall err, - 2 ^ 31 <= err < 0 ->
            (let '(r, b2, l2) := leave xfer err b1 in
             (r, b2, [Call OpAvailUpdate [] avail] ++ l2))
            = (Ret (x, e), b', l) -> loop_post size xfer x e l) as Hleave.
  { intros err He. unfold leave, bind, emit, ret. intros [= <- <- <- <-].
    apply (loop_post_leave [Call OpAvailUpdate [] avail]); auto. lia. }
  assert (0 <= avail ->
          (avail =? 0) = false ->
            (let '(r, b2, l2) := step avail b1 in
             (r, b2, [Call OpAvailUpdate [] avail] ++ l2))
            = (Ret (x, e), b', l) -> loop_post size xfer x e l) as Hgo.
  { intros Hge Hnz. destruct (step avail b1) as [[rk bk] lk] eqn:Ek.
    intros [= -> <- <-].
    apply (loop_post_quiet [Call OpAvailUpdate [] avail]); auto.
    apply Z.eqb_neq in Hnz.
    apply (Hstep avail b1 x e bk lk); [lia|exact Ek]. }
  assert (- 2 ^ 31 <= - EPIPE < 0 /\ - 2 ^ 31 <= - EAGAIN < 0)
    as [Hpipe Hagain]
    by (unfold EPIPE, EAGAIN; change (2 ^ 31) with 2147483648; lia).
  destruct (avail <? 0) eqn:Eneg; [now apply (Hleave (- EPIPE))|].
  apply Z.ltb_ge in Eneg.
  destruct special.
  - destruct (avail =? 0) eqn:Ez; [now apply (Hleave (- EPIPE))|].
    now apply Hgo.
  - destruct ((avail =? 0)
              || ((size >=? xfer_align pcm) && (avail <? xfer_align pcm)))
      eqn:Eblock.
    + destruct (nonblock SND_PCM_NONBLOCK pcm);
        [now apply (Hleave (- EAGAIN))|].
      unfold bind at 1.
      destruct (snd_pcm_wait poll pcm (-1) b1) as [[rw bw] lw] eqn:Ew.
      apply wait_inv in Ew as (ew & -> & Hqw & Hrange & _).
      destruct (ew <? 0) eqn:Eerr.
      * unfold leave, bind, emit, ret. intros [= <- <- <- <-].
        apply Z.ltb_lt in Eerr.
        apply (loop_post_leave (Call OpAvailUpdate [] avail :: lw));
          [now apply (quiet_app [Call OpAvailUpdate [] avail])|lia|lia].
      * unfold bind at 1. unfold snd_pcm_state.
        destruct (fast_state (fast_ops pcm) bw) as [s bs].
        destruct (loop s bs) as [[rl bl] ll] eqn:El.
        intros [= -> <- <-]. apply Hloop in El.
        apply (loop_post_quiet [Call OpAvailUpdate [] avail]); auto.
        apply loop_post_quiet; auto.
        apply (loop_post_quiet [Call OpState [] (snd_enum_to_int s)]); auto.
    + apply orb_false_iff in Eblock as [Ez _]. now apply Hgo.
Qed.

Lemma write_loop_post : forall fuel pcm areas func state offset size xfer,
  0 < size ->
  forall b x e b' l,
    write_areas_loop fuel pcm areas func state offset size xfer b
    = (Ret (x, e), b', l) ->
    loop_post size xfer x e l.
Proof.
  induction fuel as [|k IH]; intros pcm areas func state offset size xfer
    Hsize b x e b' l; [discriminate|].
  rewrite write_areas_loop_S.
  apply (loop_body_post pcm (state_eqb state SND_PCM_STATE_PREPARED)
           (write_transfer pcm areas func
              (write_areas_loop k pcm areas func state) state offset size
              xfer)
           (fun state => write_areas_loop k pcm areas func state offset size
                           xfer)); auto.
  - intros avail b0 x0 e0 b0' l0 Ha.
    apply write_transfer_post; auto.
    intros offset' size' xfer' b1 x1 e1 b1' l1 Hs. now apply IH.
  - intros state' b0 x0 e0 b0' l0. now apply IH.
Qed.

Lemma read_loop_post : forall fuel pcm areas func state offset size xfer,
  0 < size ->
  forall b x e b' l,
    read_areas_loop fuel pcm areas func state offset size xfer b
    = (Ret (x, e), b', l) ->
    loop_post size xfer x e l.
Proof.
  induction fuel as [|k IH]; intros pcm areas func state offset size xfer
    Hsize b x e b' l; [discriminate|].
  rewrite read_areas_loop_S.
  apply (loop_body_post pcm (state_eqb state SND_PCM_STATE_DRAINING)
           (read_transfer pcm areas func
              (read_areas_loop k pcm areas func state) offset size xfer)
           (fun state => read_areas_loop k pcm areas func state offset size
                           xfer)); auto.
  - intros avail b0 x0 e0 b0' l0 Ha.
    apply read_transfer_post; auto.
    intros offset' size' xfer' b1 x1 e1 b1' l1 Hs. now apply IH.
  - intros state' b0 x0 e0 b0' l0. now apply IH.
Qed.

Lemma frames_or_first_error_loop size size0 x e l q :
  quiet q -> 0 < size <= size0 ->
  loop_post size 0 x e l ->
  frames_or_first_error size0 (xfer_result (x, e)) (q ++ l).
Proof.
  intros [Mq Eq] Hs (Hx & Hle & Hout).
  unfold frames_or_first_error, xfer_result, first_error. cbn [fst snd].
  rewrite frames_moved_app, errors_raised_app, Mq, Eq. cbn [app].
  rewrite !Z.add_0_l in *. subst x.
  split; [lia|]. split; [|split].
  - intros Hpos. apply Z.gtb_lt in Hpos as Hgt. rewrite Hgt.
    split; [reflexivity|]. unfold LONG_MAX. intros Hmax.
    apply CTypesFacts.to_long_small. lia.
  - intros Hz. destruct Hout as [[_ Hm]|(He & _ & Hr)]; [lia|].
    rewrite Hz, He. cbn. apply CTypesFacts.to_long_to_ulong.
    assert (2 ^ 31 < 2 ^ 63) by (apply Z.pow_lt_mono_r; lia). lia.
  - destruct Hout as [[He _]|(He & (l0 & ->) & _)]; [now left|right].
    exists (q ++ l0), e. split; [now rewrite app_assoc|].
    rewrite errors_raised_app in *. rewrite Eq. cbn [app].
    now apply (app_inv_tail [e] _ []) in He.
Qed.

Lemma frames_or_first_error_early size e q :
  quiet q -> 0 <= size ->
  frames_or_first_error size e (q ++ [Raise e]).
Proof.
  intros [Mq Eq] Hs. unfold frames_or_first_error, first_error.
  rewrite frames_moved_app, errors_raised_app, Mq, Eq. cbn.
  split; [lia|]. split; [lia|]. split; [reflexivity|].
  right. now exists q, e.
Qed.

(** [size] after [if (size > pcm->xfer_align) size -= size % pcm->xfer_align] *)
Lemma rounded_size_range size align :
  0 < size -> 0 <= align -> align <> 0 \/ size <= align ->
  0 < (if size >? align then size - size mod align else size) <= size.
Proof.
  intros Hs Ha Hal. destruct (size >? align) eqn:E; [|lia].
  apply Z.gtb_lt in E. destruct Hal as [Hal|Hal]; [|lia].
  pose proof (Z.mod_pos_bound size align ltac:(lia)). lia.
Qed.

Lemma write_areas_post fuel pcm areas offset size func b r b' l :
  0 <= size -> 0 <= xfer_align pcm ->
  write_areas fuel pcm areas offset size func b = (Ret r, b', l) ->
  frames_or_first_error size r l.
Proof.
  intros Hsize Halign. unfold snd_pcm_write_areas.
  unfold bind at 1. unfold snd_pcm_state.
  destruct (fast_state (fast_ops pcm) b) as [s b0].
  set (q := [Call OpState [] (snd_enum_to_int s)]).
  assert (quiet q) as Hq by now apply quiet_call.
  destruct (size =? 0) eqn:Ez.
  - intros [= <- <- <-].
    unfold frames_or_first_error, first_error. cbn.
    repeat split; try lia. now left.
  - apply Z.eqb_neq in Ez.
    destruct ((size >? xfer_align pcm) && (xfer_align pcm =? 0)) eqn:E0;
      [discriminate|].
    assert (xfer_align pcm <> 0 \/ size <= xfer_align pcm) as Hal.
    { apply andb_false_iff in E0 as [E0|E0].
      - right. rewrite Z.gtb_ltb in E0. apply Z.ltb_ge in E0. lia.
      - left. now apply Z.eqb_neq. }
    pose proof (rounded_size_range size (xfer_align pcm)
                  ltac:(lia) Halign Hal) as Hr.
    set (size' := if size >? xfer_align pcm
                  then size - size mod xfer_align pcm else size) in *.
    assert (forall m : M (Z * Z),
              (forall b x e b' l, m b = (Ret (x, e), b', l) ->
                                  loop_post size' 0 x e l) ->
              (let '(r1, b2, l2) :=
                 bind (if size' >? 0 then m else ret (0, 0))
                   (fun r => ret (xfer_result r)) b0 in
               (r1, b2, q ++ l2)) = (Ret r, b', l) ->
              frames_or_first_error size r l) as Hloop.
    { intros m Hm. unfold bind, ret.
      destruct (size' >? 0) eqn:Epos; [|rewrite Z.gtb_ltb in Epos;
                                        apply Z.ltb_ge in Epos; lia].
      destruct (m b0) as [[[[x e]|f] b1] l1] eqn:Em; [|discriminate].
      intros [= <- <- <-]. rewrite app_nil_r.
      apply Hm in Em.
      now apply (frames_or_first_error_loop size' size x e l1 q). }
    assert (forall e,
              (let '(r1, b2, l2) :=
                 bind (emit (Raise e)) (fun _ => ret e) b0 in
               (r1, b2, q ++ l2)) = (Ret r, b', l) ->
              frames_or_first_error size r l) as Hearly.
    { intros e. unfold bind, emit, ret. intros [= <- <- <-].
      now apply (frames_or_first_error_early size e q). }
    destruct s; try apply Hearly; apply Hloop; intros b1 x e b1' l1;
      now apply write_loop_post.
Qed.

Lemma read_areas_post fuel pcm areas offset size func b r b' l :
  0 <= size -> 0 <= xfer_align pcm ->
  read_areas fuel pcm areas offset size func b = (Ret r, b', l) ->
  frames_or_first_error size r l.
Proof.
  intros Hsize Halign. unfold snd_pcm_read_areas.
  unfold bind at 1. unfold snd_pcm_state.
  destruct (fast_state (fast_ops pcm) b) as [s b0].
  set (q := [Call OpState [] (snd_enum_to_int s)]).
  assert (quiet q) as Hq by now apply quiet_call.
  destruct (size =? 0) eqn:Ez.
  - intros [= <- <- <-].
    unfold frames_or_first_error, first_error. cbn.
    repeat split; try lia. now left.
  - apply Z.eqb_neq in Ez.
    destruct ((size >? xfer_align pcm) && (xfer_align pcm =? 0)) eqn:E0;
      [discriminate|].
    assert (xfer_align pcm <> 0 \/ size <= xfer_align pcm) as Hal.
    { apply andb_false_iff in E0 as [E0|E0].
      - right. rewrite Z.gtb_ltb in E0. apply Z.ltb_ge in E0. lia.
      - left. now apply Z.eqb_neq. }
    pose proof (rounded_size_range size (xfer_align pcm)
                  ltac:(lia) Halign Hal) as Hr.
    set (size' := if size >? xfer_align pcm
                  then size - size mod xfer_align pcm else size) in *.
    set (loop := bind (if size' >? 0
                       then read_areas_loop fuel pcm areas func s offset
                              size' 0
                       else ret (0, 0))
                   (fun r => ret (xfer_result r))).
    assert (forall q1 b1 l1,
              quiet q1 -> loop b1 = (Ret r, b', l1) ->
              frames_or_first_error size r (q1 ++ l1)) as Hloop.
    { intros q1 b1 l1 Hq1. unfold loop, bind, ret.
      destruct (size' >? 0) eqn:Epos; [|rewrite Z.gtb_ltb in Epos;
                                        apply Z.ltb_ge in Epos; lia].
      destruct (read_areas_loop fuel pcm areas func s offset size' 0 b1)
        as [[[[x e]|f] b2] l2] eqn:Em; [|discriminate].
      intros [= <- <- <-]. rewrite app_nil_r.
      apply read_loop_post in Em; [|lia].
      now apply (frames_or_first_error_loop size' size x e l2 q1). }
    assert (forall e,
              (let '(r1, b2, l2) :=
                 bind (emit (Raise e)) (fun _ => ret e) b0 in
               (r1, b2, q ++ l2)) = (Ret r, b', l) ->
              frames_or_first_error size r l) as Hearly.
    { intros e. unfold bind, emit, ret. intros [= <- <- <-].
      now apply (frames_or_first_error_early size e q). }
    assert ((let '(r1, b2, l2) := loop b0 in (r1, b2, q ++ l2))
            = (Ret r, b', l) -> frames_or_first_error size r l) as Hplain.
    { destruct (loop b0) as [[r1 b2] l2] eqn:El. intros [= -> <- <-].
      exact (Hloop q b0 l2 Hq El). }
    destruct s; try apply Hearly; try exact Hplain.
    destruct (start_eqb (start_mode pcm) SND_PCM_START_DATA);
      [|exact Hplain].
    unfold bind at 1.
    destruct (snd_pcm_start pcm b0) as [[rs bs] ls] eqn:Es.
    apply start_inv in Es as [[-> ->]|(e0 & -> & -> & He0)]; [discriminate|].
    assert (quiet (q ++ [Call OpStart [] e0])) as Hq1
      by (apply quiet_app; [exact Hq|now apply quiet_call]).
    destruct (e0 <? 0) eqn:Eneg.
    + unfold leave, bind, emit, ret, xfer_result. cbn [fst snd app].
      intros [= <- <- <-]. apply Z.ltb_lt in Eneg.
      change (0 >? 0) with false. cbv iota.
      rewrite CTypesFacts.to_long_to_ulong.
      * apply (frames_or_first_error_early size e0
                 (q ++ [Call OpStart [] e0])); auto.
      * assert (2 ^ 31 < 2 ^ 63) by (apply Z.pow_lt_mono_r; lia). lia.
    + destruct (loop bs) as [[r1 b2] l2] eqn:El. intros [= -> <- <-].
      exact (Hloop (q ++ [Call OpStart [] e0]) bs l2 Hq1 El).
Qed.

(** The value returned when the loop is left with [xfer] frames moved and
    the error [e]. *)
Lemma xfer_result_leave xfer e :
  0 <= xfer <= LONG_MAX -> - 2 ^ 31 <= e < 0 ->
  xfer_result (xfer, e) = if 0 <? xfer then xfer else e.
Proof.
  intros Hx He. unfold xfer_result, LONG_MAX in *. cbn [fst snd].
  rewrite Z.gtb_ltb. destruct (0 <? xfer).
  - apply CTypesFacts.to_long_small. lia.
  - apply CTypesFacts.to_long_to_ulong.
    assert (2 ^ 31 < 2 ^ 63) by (apply Z.pow_lt_mono_r; lia). lia.
Qed.

(** A pass through the loop that would block, in non-blocking mode. *)
Lemma loop_body_would_block pcm (step : Z -> M (Z * Z))
    (loop : snd_pcm_state_t -> M (Z * Z)) size xfer b a b1 :
  nonblock SND_PCM_NONBLOCK pcm = true ->
  fast_avail_update (fast_ops pcm) b = (a, b1) ->
  to_long a = 0
  \/ (xfer_align pcm <= size /\ 0 <= to_long a < xfer_align pcm) ->
  bind (snd_pcm_avail_update pcm) (fun avail =>
    if avail <? 0 then leave xfer (- EPIPE)
    else if false then
      if avail =? 0 then leave xfer (- EPIPE) else step avail
    else if (avail =? 0)
            || ((size >=? xfer_align pcm) && (avail <? xfer_align pcm))
    then
      if nonblock SND_PCM_NONBLOCK pcm then leave xfer (- EAGAIN)
      else
        bind (snd_pcm_wait poll pcm (-1)) (fun err =>
          if err <? 0 then leave xfer err
          else bind (snd_pcm_state pcm) loop)
    else step avail) b
  = (Ret (xfer, - EAGAIN), b1,
     [Call OpAvailUpdate [] (to_long a); Raise (- EAGAIN)]).
Proof.
  intros Hnb Ha Hblock.
  unfold bind at 1. unfold snd_pcm_avail_update, call_long. rewrite Ha.
  assert ((to_long a <? 0) = false) as -> by (apply Z.ltb_ge; lia).
  assert ((to_long a =? 0)
          || ((size >=? xfer_align pcm) && (to_long a <? xfer_align pcm))
          = true) as ->.
  { destruct Hblock as [->|(H1 & H2)]; [reflexivity|].
    apply orb_true_iff. right. apply andb_true_iff. split.
    - apply Z.geb_le. lia.
    - apply Z.ltb_lt. lia. }
  rewrite Hnb. reflexivity.
Qed.

(** *** Non-blocking transfers end *)

Lemma no_timeout_bind {A C : Type} (m : M A) (f : A -> M C) b :
  no_timeout m b ->
  (forall a b1 l1, m b = (Ret a, b1, l1) -> no_timeout (f a) b1) ->
  no_timeout (bind m f) b.
Proof.
  unfold no_timeout, bind. intros Hm Hf.
  destruct (m b) as [[[a|e] b1] l1].
  - specialize (Hf a b1 l1 eq_refl).
    destruct (f a b1) as [[r b2] l2]. exact Hf.
  - cbn in *. intros [= ->]. now apply Hm.
Qed.

Lemma no_timeout_leave xfer e b : no_timeout (leave xfer e) b.
Proof. discriminate. Qed.

Lemma no_timeout_start pcm b : no_timeout (snd_pcm_start pcm) b.
Proof.
  unfold no_timeout. destruct (snd_pcm_start pcm b) as [[r b1] l] eqn:E.
  apply start_inv in E as [[-> _]|(e & -> & _)]; discriminate.
Qed.

Lemma no_timeout_call_long op args f b : no_timeout (call_long op args f) b.
Proof. unfold no_timeout, call_long. now destruct (f b). Qed.

Lemma no_timeout_assert c b : no_timeout (assert c) b.
Proof. unfold no_timeout, assert. now destruct c. Qed.

Lemma write_transfer_no_timeout pcm areas func again state offset size xfer
    avail b :
  0 < size -> 0 < avail ->
  (forall offset' size' xfer' b1,
     0 < size' < size -> no_timeout (again offset' size' xfer') b1) ->
  no_timeout (write_transfer pcm areas func again state offset size xfer
                avail) b.
Proof.
  intros Hsize Havail IH. unfold write_transfer.
  destruct ((avail >? xfer_align pcm) && (xfer_align pcm =? 0)) eqn:E0;
    [discriminate|].
  assert (xfer_align pcm <> 0 \/ avail <= xfer_align pcm) as Hal.
  { apply andb_false_iff in E0 as [E0|E0].
    - right. rewrite Z.gtb_ltb in E0. apply Z.ltb_ge in E0. lia.
    - left. now apply Z.eqb_neq. }
  pose proof (rounded_avail_pos avail (xfer_align pcm) Havail Hal) as Hav.
  set (avail' := if avail >? xfer_align pcm
                 then avail - avail mod xfer_align pcm else avail) in *.
  set (frames := if size >? avail' then avail' else size).
  assert (0 < frames <= size) as Hf.
  { subst frames. destruct (size >? avail') eqn:E; [|lia].
    rewrite Z.gtb_ltb in E. apply Z.ltb_lt in E. lia. }
  assert (forall err b1,
            no_timeout
              (if size - frames >? 0
               then again (to_ulong (offset + frames)) (size - frames)
                      (xfer + frames)
               else ret (xfer + frames, err)) b1) as Hcont.
  { intros err b1. destruct (size - frames >? 0) eqn:E; [|discriminate].
    apply IH. apply Z.gtb_lt in E. lia. }
  apply no_timeout_bind; [apply no_timeout_assert|]. intros _ b1 l1 _.
  apply no_timeout_bind; [apply no_timeout_call_long|]. intros r b2 l2 _.
  destruct (to_int r <? 0); [apply no_timeout_leave|].
  apply no_timeout_bind; [apply no_timeout_assert|]. intros _ b3 l3 _.
  destruct (state_eqb state SND_PCM_STATE_PREPARED
            && start_eqb (start_mode pcm) SND_PCM_START_DATA);
    [|apply Hcont].
  apply no_timeout_bind; [apply no_timeout_start|]. intros e b4 l4 _.
  destruct (e <? 0); [apply no_timeout_leave|apply Hcont].
Qed.

Lemma read_transfer_no_timeout pcm areas func again offset size xfer
    avail b :
  0 < size -> 0 < avail ->
  (forall offset' size' xfer' b1,
     0 < size' < size -> no_timeout (again offset' size' xfer') b1) ->
  no_timeout (read_transfer pcm areas func again offset size xfer avail) b.
Proof.
  intros Hsize Havail IH. unfold read_transfer.
  destruct ((avail >? xfer_align pcm) && (xfer_align pcm =? 0)) eqn:E0;
    [discriminate|].
  assert (xfer_align pcm <> 0 \/ avail <= xfer_align pcm) as Hal.
  { apply andb_false_iff in E0 as [E0|E0].
    - right. rewrite Z.gtb_ltb in E0. apply Z.ltb_ge in E0. lia.
    - left. now apply Z.eqb_neq. }
  pose proof (rounded_avail_pos avail (xfer_align pcm) Havail Hal) as Hav.
  set (avail' := if avail >? xfer_align pcm
                 then avail - avail mod xfer_align pcm else avail) in *.
  set (frames := if size >? avail' then avail' else size).
  assert (0 < frames <= size) as Hf.
  { subst frames. destruct (size >? avail') eqn:E; [|lia].
    rewrite Z.gtb_ltb in E. apply Z.ltb_lt in E. lia. }
  apply no_timeout_bind; [apply no_timeout_assert|]. intros _ b1 l1 _.
  apply no_timeout_bind; [apply no_timeout_call_long|]. intros r b2 l2 _.
  destruct (to_int r <? 0); [apply no_timeout_leave|].
  apply no_timeout_bind; [apply no_timeout_assert|]. intros _ b3 l3 _.
  destruct (size - frames >? 0) eqn:E; [|discriminate].
  apply IH. apply Z.gtb_lt in E. lia.
Qed.

Lemma loop_body_no_timeout pcm (special : bool) (step : Z -> M (Z * Z))
    (loop : snd_pcm_state_t -> M (Z * Z)) size xfer b :
  nonblock SND_PCM_NONBLOCK pcm = true ->
  (forall avail b1, 0 < avail -> no_timeout (step avail) b1) ->
  no_timeout
    (bind (snd_pcm_avail_update pcm) (fun avail =>
       if avail <? 0 then leave xfer (- EPIPE)
       else if special then
         if avail =? 0 then leave xfer (- EPIPE) else step avail
       else if (avail =? 0)
               || ((size >=? xfer_align pcm) && (avail <? xfer_align pcm))
       then
         if nonblock SND_PCM_NONBLOCK pcm then leave xfer (- EAGAIN)
         else
           bind (snd_pcm_wait poll pcm (-1)) (fun err =>
             if err <? 0 then leave xfer err
             else bind (snd_pcm_state pcm) loop)
       else step avail)) b.
Proof.
  intros Hnb Hstep.
  apply no_timeout_bind; [apply no_timeout_call_long|]. intros avail b1 l1 _.
  destruct (avail <? 0) eqn:Eneg; [apply no_timeout_leave|].
  apply Z.ltb_ge in Eneg.
  destruct special.
  - destruct (avail =? 0) eqn:Ez; [apply no_timeout_leave|].
    apply Z.eqb_neq in Ez. apply Hstep. lia.
  - destruct ((avail =? 0) || _) eqn:Eblock.
    + rewrite Hnb. apply no_timeout_leave.
    + apply orb_false_iff in Eblock as [Ez _].
      apply Z.eqb_neq in Ez. apply Hstep. lia.
Qed.

Lemma write_loop_no_timeout pcm areas func :
  nonblock SND_PCM_NONBLOCK pcm = true ->
  forall fuel state offset size xfer b,
    0 < size <= Z.of_nat fuel ->
    no_timeout (write_areas_loop fuel pcm areas func state offset size xfer)
      b.
Proof.
  intros Hnb. induction fuel as [|k IH]; intros state offset size xfer b Hs;
    [lia|].
  rewrite write_areas_loop_S.
  apply (loop_body_no_timeout pcm (state_eqb state SND_PCM_STATE_PREPARED));
    auto.
  intros avail b1 Ha. apply write_transfer_no_timeout; try lia.
  intros offset' size' xfer' b2 Hs'. apply IH. lia.
Qed.

Lemma read_loop_no_timeout pcm areas func :
  nonblock SND_PCM_NONBLOCK pcm = true ->
  forall fuel state offset size xfer b,
    0 < size <= Z.of_nat fuel ->
    no_timeout (read_areas_loop fuel pcm areas func state offset size xfer)
      b.
Proof.
  intros Hnb. induction fuel as [|k IH]; intros state offset size xfer b Hs;
    [lia|].
  rewrite read_areas_loop_S.
  apply (loop_body_no_timeout pcm (state_eqb state SND_PCM_STATE_DRAINING));
    auto.
  intros avail b1 Ha. apply read_transfer_no_timeout; try lia.
  intros offset' size' xfer' b2 Hs'. apply IH. lia.
Qed.

Lemma no_timeout_state pcm b : no_timeout (snd_pcm_state pcm) b.
Proof.
  unfold no_timeout, snd_pcm_state.
  now destruct (fast_state (fast_ops pcm) b).
Qed.

Lemma areas_no_timeout pcm areas offset size func fuel b :
  nonblock SND_PCM_NONBLOCK pcm = true ->
  0 <= size <= Z.of_nat fuel -> 0 <= xfer_align pcm ->
  no_timeout (write_areas fuel pcm areas offset size func) b
  /\ no_timeout (read_areas fuel pcm areas offset size func) b.
Proof.
  intros Hnb Hsize Halign.
  unfold snd_pcm_write_areas, snd_pcm_read_areas.
  split; (apply no_timeout_bind; [apply no_timeout_state|]);
    intros s b0 l0 _;
    (destruct (size =? 0) eqn:Ez; [discriminate|]);
    apply Z.eqb_neq in Ez;
    (destruct ((size >? xfer_align pcm) && (xfer_align pcm =? 0)) eqn:E0;
      [discriminate|]);
    assert (xfer_align pcm <> 0 \/ size <= xfer_align pcm) as Hal
      by (apply andb_false_iff in E0 as [E0|E0];
          [right; rewrite Z.gtb_ltb in E0; apply Z.ltb_ge in E0; lia
          |left; now apply Z.eqb_neq]);
    pose proof (rounded_size_range size (xfer_align pcm)
                  ltac:(lia) Halign Hal) as Hr;
    set (size' := if size >? xfer_align pcm
                  then size - size mod xfer_align pcm else size) in *.
  - assert (forall b1,
              no_timeout
                (bind (if size' >? 0
                       then write_areas_loop fuel pcm areas func s offset
                              size' 0
                       else ret (0, 0))
                   (fun r => ret (xfer_result r))) b1) as Hloop.
    { intros b1. apply no_timeout_bind; [|discriminate].
      destruct (size' >? 0); [|discriminate].
      apply write_loop_no_timeout; auto. lia. }
    destruct s; try apply Hloop; discriminate.
  - assert (forall b1,
              no_timeout
                (bind (if size' >? 0
                       then read_areas_loop fuel pcm areas func s offset
                              size' 0
                       else ret (0, 0))
                   (fun r => ret (xfer_result r))) b1) as Hloop.
    { intros b1. apply no_timeout_bind; [|discriminate].
      destruct (size' >? 0); [|discriminate].
      apply read_loop_no_timeout; auto. lia. }
    destruct s; try apply Hloop; try discriminate.
    destruct (start_eqb (start_mode pcm) SND_PCM_START_DATA);
      [|apply Hloop].
    apply no_timeout_bind; [apply no_timeout_start|]. intros e b1 l1 _.
    destruct (e <? 0); [discriminate|apply Hloop].
Qed.


(** A pass through the loop with the ring empty, in the state in which
    that ends the transfer: [Ha] is the answer of the endpoint, [Hz] says
    that it is 0. *)
Ltac empty_pass Ha Hz :=
  change (state_eqb _ _) with true;
  unfold bind at 1; unfold snd_pcm_avail_update, call_long;
  rewrite Ha, Hz; reflexivity.

(** C2: a pass through the loop of [snd_pcm_write_areas] in state PREPARED,
    or of [snd_pcm_read_areas] in state DRAINING, in which
    [snd_pcm_avail_update] answers 0, leaves the loop with [-EPIPE] after
    that one call: there is no [poll] and no [-EAGAIN]. A call entered in
    that state with [size > 0] whose first [snd_pcm_avail_update] answers
    0 returns [-EPIPE]. *)
Theorem xrun_on_empty_ring :
  (forall k pcm areas func offset size xfer b a b1,
     fast_avail_update (fast_ops pcm) b = (a, b1) ->
     to_long a = 0 ->
     write_areas_loop (S k) pcm areas func SND_PCM_STATE_PREPARED
       offset size xfer b
     = (Ret (xfer, - EPIPE), b1,
        [Call OpAvailUpdate [] 0; Raise (- EPIPE)])
     /\ read_areas_loop (S k) pcm areas func SND_PCM_STATE_DRAINING
          offset size xfer b
        = (Ret (xfer, - EPIPE), b1,
           [Call OpAvailUpdate [] 0; Raise (- EPIPE)]))
  /\ (forall k pcm areas offset size func b b0 a b1,
        0 < size -> 0 < xfer_align pcm ->
        fast_avail_update (fast_ops pcm) b0 = (a, b1) ->
        to_long a = 0 ->
        (fast_state (fast_ops pcm) b = (SND_PCM_STATE_PREPARED, b0) ->
         write_areas (S k) pcm areas offset size func b
         = (Ret (- EPIPE), b1,
            [Call OpState [] 2; Call OpAvailUpdate [] 0; Raise (- EPIPE)]))
        /\ (fast_state (fast_ops pcm) b = (SND_PCM_STATE_DRAINING, b0) ->
            read_areas (S k) pcm areas offset size func b
            = (Ret (- EPIPE), b1,
               [Call OpState [] 6; Call OpAvailUpdate [] 0;
                Raise (- EPIPE)]))).
Proof.
  split.
  - intros k pcm areas func offset size xfer b a b1 Ha Hz. split.
    + rewrite write_areas_loop_S. empty_pass Ha Hz.
    + rewrite read_areas_loop_S. empty_pass Ha Hz.
  - intros k pcm areas offset size func b b0 a b1 Hsize Halign Ha Hz.
    assert ((size =? 0) = false) as Ez by (apply Z.eqb_neq; lia).
    assert ((size >? xfer_align pcm) && (xfer_align pcm =? 0) = false) as E0.
    { apply andb_false_iff. right. apply Z.eqb_neq. lia. }
    pose proof (rounded_size_range size (xfer_align pcm) Hsize
                  ltac:(lia) ltac:(lia)) as Hr.
    assert (((if size >? xfer_align pcm
              then size - size mod xfer_align pcm else size) >? 0) = true)
      as Epos by (apply Z.gtb_lt; lia).
    split; intros Hs.
    + unfold snd_pcm_write_areas. unfold bind at 1. unfold snd_pcm_state.
      rewrite Hs, Ez, E0. cbv iota. rewrite Epos.
      unfold bind at 1. rewrite write_areas_loop_S.
      change (state_eqb _ _) with true.
      unfold bind at 1. unfold snd_pcm_avail_update, call_long.
      rewrite Ha, Hz. reflexivity.
    + unfold snd_pcm_read_areas. unfold bind at 1. unfold snd_pcm_state.
      rewrite Hs, Ez, E0. cbv iota zeta. rewrite Epos.
      unfold bind at 1. rewrite read_areas_loop_S.
      change (state_eqb _ _) with true.
      unfold bind at 1. unfold snd_pcm_avail_update, call_long.
      rewrite Ha, Hz. reflexivity.
Qed.

(** The callback takes the whole request in one call when the ring has at
    least [xfer_align] frames free and the request is at most
    [xfer_align]. *)
Lemma write_transfer_whole pcm areas func again state offset size avail
    b r b2 :
  setup pcm = true ->
  0 < size <= xfer_align pcm -> size < 2 ^ 31 ->
  xfer_align pcm <= avail ->
  func areas offset size b = (r, b2) -> to_long r = size ->
  exists e b' l,
    write_transfer pcm areas func again state offset size 0 avail b
    = (Ret (size, e), b', Call OpXfer [offset; size] size :: l)
    /\ frames_moved l = 0 /\ calls_of OpXfer l = [].
Proof.
  intros Hsetup Hsize Hint Havail Hf Hr. unfold write_transfer.
  assert ((avail >? xfer_align pcm) && (xfer_align pcm =? 0) = false) as ->.
  { apply andb_false_iff. right. apply Z.eqb_neq. lia. }
  assert (xfer_align pcm
          <= (if avail >? xfer_align pcm
              then avail - avail mod xfer_align pcm else avail)) as Hav.
  { destruct (avail >? xfer_align pcm) eqn:E; [|lia].
    apply Z.gtb_lt in E.
    pose proof (Z.mod_pos_bound avail (xfer_align pcm) ltac:(lia)) as Hm.
    assert (avail mod xfer_align pcm = avail - xfer_align pcm
                                       * (avail / xfer_align pcm)) as Hd
      by (pose proof (Z.div_mod avail (xfer_align pcm) ltac:(lia)); lia).
    assert (1 <= avail / xfer_align pcm)
      by (apply Z.div_le_lower_bound; lia).
    nia. }
  set (avail' := if avail >? xfer_align pcm
                 then avail - avail mod xfer_align pcm else avail) in *.
  assert ((size >? avail') = false) as ->
    by (rewrite Z.gtb_ltb; apply Z.ltb_ge; lia).
  assert ((size =? 0) = false) as -> by (apply Z.eqb_neq; lia).
  unfold bind at 1. cbn [negb assert ret].
  unfold bind at 1. unfold call_long. rewrite Hf, Hr.
  assert (to_int size = size) as ->
    by (apply CTypesFacts.to_int_small; lia).
  assert ((size <? 0) = false) as -> by (apply Z.ltb_ge; lia).
  rewrite Z.eqb_refl. unfold bind at 1. cbn [ret].
  replace (size - size) with 0 by lia. cbn [Z.gtb Z.compare].
  destruct (state_eqb state SND_PCM_STATE_PREPARED
            && start_eqb (start_mode pcm) SND_PCM_START_DATA).
  - unfold bind at 1. unfold snd_pcm_start, bind, assert, call.
    rewrite Hsetup. cbn [ret].
    destruct (fast_start (fast_ops pcm) b2) as [e0 b3].
    destruct (to_int e0 <? 0).
    + unfold leave, bind, emit, ret. cbn [app]. now eexists _, _, _.
    + cbn [app]. now eexists _, _, _.
  - cbn [app]. now eexists _, _, _.
Qed.

(** C3, amended: [size] is rounded down to a multiple of [xfer_align] only
    when [size > xfer_align]. On a ring with at least [xfer_align] frames
    free, in state PREPARED or RUNNING, with a callback that takes what it
    is given, a write of [xfer_align - 1] frames moves [xfer_align - 1]
    frames in one call of the callback and returns [xfer_align - 1]; a
    write of [xfer_align] frames moves exactly [xfer_align] frames and
    returns [xfer_align]. *)
Theorem write_near_alignment k pcm areas offset size func b s b0 a b1 r b2 :
  setup pcm = true ->
  1 < xfer_align pcm < 2 ^ 31 ->
  size = xfer_align pcm - 1 \/ size = xfer_align pcm ->
  fast_state (fast_ops pcm) b = (s, b0) ->
  s = SND_PCM_STATE_PREPARED \/ s = SND_PCM_STATE_RUNNING ->
  fast_avail_update (fast_ops pcm) b0 = (a, b1) ->
  xfer_align pcm <= to_long a ->
  func areas offset size b1 = (r, b2) -> to_long r = size ->
  exists b' l,
    write_areas (S k) pcm areas offset size func b = (Ret size, b', l)
    /\ frames_moved l = size
    /\ calls_of OpXfer l = [Call OpXfer [offset; size] size].
Proof.
  intros Hsetup Halign Hsize Hs Hstate Ha Havail Hf Hr.
  assert (0 < size <= xfer_align pcm) as Hrange by lia.
  destruct (write_transfer_whole pcm areas func
              (write_areas_loop k pcm areas func s) s offset size
              (to_long a) b1 r b2 Hsetup Hrange ltac:(lia) Havail Hf Hr)
    as (e & b' & l & Ht & Hm & Hc).
  assert (write_areas_loop (S k) pcm areas func s offset size 0 b0
          = (Ret (size, e), b',
             Call OpAvailUpdate [] (to_long a)
               :: Call OpXfer [offset; size] size :: l)) as Hloop.
  { rewrite write_areas_loop_S. unfold bind at 1.
    unfold snd_pcm_avail_update, call_long. rewrite Ha.
    assert ((to_long a <? 0) = false) as -> by (apply Z.ltb_ge; lia).
    assert ((to_long a =? 0) = false) as -> by (apply Z.eqb_neq; lia).
    assert ((to_long a <? xfer_align pcm) = false) as ->
      by (apply Z.ltb_ge; lia).
    rewrite andb_false_r. cbn [orb].
    destruct (state_eqb s SND_PCM_STATE_PREPARED); rewrite Ht; reflexivity. }
  exists b', (Call OpState [] (snd_enum_to_int s)
                :: Call OpAvailUpdate [] (to_long a)
                :: Call OpXfer [offset; size] size :: l).
  split; [|split].
  - unfold snd_pcm_write_areas. unfold bind at 1. unfold snd_pcm_state.
    rewrite Hs.
    assert ((size =? 0) = false) as -> by (apply Z.eqb_neq; lia).
    assert ((size >? xfer_align pcm) = false) as ->
      by (rewrite Z.gtb_ltb; apply Z.ltb_ge; lia).
    cbn [andb].
    assert ((size >? 0) = true) as -> by (apply Z.gtb_lt; lia).
    assert (xfer_result (size, e) = size) as Hres.
    { unfold xfer_result. cbn [fst snd].
      assert ((size >? 0) = true) as -> by (apply Z.gtb_lt; lia).
      apply CTypesFacts.to_long_small.
      assert (2 ^ 31 < 2 ^ 63) by (apply Z.pow_lt_mono_r; lia). lia. }
    destruct Hstate as [-> | ->]; unfold bind, ret; rewrite Hloop, Hres;
      now rewrite app_nil_r.
  - cbn [frames_moved]. rewrite Hm.
    assert (to_int size = size) as ->
      by (apply CTypesFacts.to_int_small; lia).
    assert ((size <? 0) = false) as -> by (apply Z.ltb_ge; lia). lia.
  - unfold calls_of in *. cbn [List.filter op_eqb]. now rewrite Hc.
Qed.

End Transfer.

(** *** Runs of the transfer loops on the example endpoint *)


(** Non-blocking mode, ring full: [-EAGAIN], and the endpoint is asked once. *)
Example write_would_block_example :
  snd_pcm_write_areas 1 poll_ready 5
    (with_mode 1 (fixed_pcm true 32 4 SND_PCM_STATE_RUNNING 0 0))
    [] 0 10 take_all 0%nat
  = (Ret (- EAGAIN), 2%nat,
     [Call OpState [] 3; Call OpAvailUpdate [] 0; Raise (- EAGAIN)]).
Proof. reflexivity. Qed.

Lemma xrun_on_empty_ring_witness :
  let pcm := fixed_pcm true 32 4 SND_PCM_STATE_PREPARED 0 0 in
  snd_pcm_write_areas 1 poll_ready 1 pcm [] 0 10 take_all 0%nat
  = (Ret (- EPIPE), 2%nat,
     [Call OpState [] 2; Call OpAvailUpdate [] 0; Raise (- EPIPE)]).
Proof.
  intros pcm.
  apply (proj1 (proj2 (xrun_on_empty_ring 1 poll_ready) 0%nat pcm [] 0 10
                  take_all 0%nat 1%nat 0 2%nat
                  ltac:(lia) ltac:(simpl; lia) eq_refl eq_refl)).
  reflexivity.
Defined.

Lemma write_near_alignment_witness :
  let pcm := fixed_pcm true 32 4 SND_PCM_STATE_RUNNING 0 8 in
  exists b' l,
    snd_pcm_write_areas 1 poll_ready 1 pcm [] 0 3 take_all 0%nat
    = (Ret 3, b', l)
    /\ frames_moved l = 3
    /\ calls_of OpXfer l = [Call OpXfer [0; 3] 3].
Proof.
  intros pcm.
  assert (1 < xfer_align pcm < 2 ^ 31) as Halign
    by (change (2 ^ 31) with 2147483648; simpl; lia).
  assert (xfer_align pcm <= to_long 8) as Havail
    by (change (to_long 8) with 8; simpl; lia).
  exact (write_near_alignment 1 poll_ready 0%nat pcm [] 0 3 take_all 0%nat
           SND_PCM_STATE_RUNNING 1%nat 8 2%nat 3 3%nat
           eq_refl Halign (or_introl eq_refl) eq_refl (or_intror eq_refl)
           eq_refl Havail eq_refl eq_refl).
Defined.

(** C3 as stated fails: with [xfer_align = 4] and 8 frames free, a write of
    3 frames moves 3 frames and returns 3, not 0. *)
Lemma write_below_alignment_counterexample :
  let pcm := fixed_pcm true 32 4 SND_PCM_STATE_RUNNING 0 8 in
  let run := snd_pcm_write_areas 1 poll_ready 1 pcm [] 0 3 take_all 0%nat in
  xfer_align pcm = 4
  /\ fst (fast_avail_update (fast_ops pcm) 1%nat) = 8
  /\ fst (fst run) = Ret 3
  /\ fst (fst run) <> Ret 0
  /\ frames_moved (snd run) = 3.
Proof. repeat split. discriminate. Qed.

End PcmFacts.

(** ** Channel areas *)

Module AreaFacts.

Import Area Examples.

Lemma load_store_eq (m : gmap Z Z) p v : load (store m p v) p = v mod 256.
Proof. unfold load, store. now rewrite lookup_insert_eq. Qed.

Lemma load_store_ne (m : gmap Z Z) p q v :
  p <> q -> load (store m p v) q = load m q.
Proof. intros H. unfold load, store. now rewrite lookup_insert_ne. Qed.

Lemma byte_mask x : x mod 256 = Z.land x 255.
Proof. change 256 with (2 ^ 8). now rewrite <- Z.land_ones. Qed.

Lemma mask_high_bits c n : 0 <= c < 256 -> 8 <= n -> Z.testbit c n = false.
Proof.
  intros Hc Hn. destruct (Z.eq_dec c 0) as [->|Hz].
  - apply Z.testbit_0_l.
  - apply Z.bits_above_log2; [lia|].
    assert (Z.log2 c < 8) by (apply Z.log2_lt_pow2; lia). lia.
Qed.

(** Equalities between bytes built with [Z.land], [Z.lor] and the masks
    15, 240 and 255, bit by bit. *)
Ltac mask_bits :=
  repeat match goal with
         | |- context [Z.testbit (Zpos ?p) ?k] =>
             let v := eval vm_compute in (Z.testbit (Zpos p) k) in
             change (Z.testbit (Zpos p) k) with v
         end.

Ltac case_bits :=
  repeat match goal with
         | |- context [Z.testbit ?x ?k] =>
             let t := fresh "t" in
             set (t := Z.testbit x k); clearbody t; destruct t
         end.

Ltac nibble_bits :=
  apply Z.bits_inj'; intros n Hn;
  repeat rewrite ?Z.land_spec, ?Z.lor_spec;
  destruct (Z_lt_le_dec n 8) as [Hlt|Hge];
  [ assert (n = 0 \/ n = 1 \/ n = 2 \/ n = 3 \/ n = 4 \/ n = 5 \/ n = 6
            \/ n = 7) as Hcase by lia;
    repeat (destruct Hcase as [->|Hcase]); try subst n;
    mask_bits; case_bits; reflexivity
  | rewrite ?(mask_high_bits 15 n), ?(mask_high_bits 240 n),
      ?(mask_high_bits 255 n) by lia;
    repeat rewrite ?andb_false_r, ?orb_false_r; reflexivity ].

Lemma keep_high_set_low old sil :
  Z.land (Z.lor (Z.land old 240) (Z.land sil 15) mod 256) 240
  = Z.land old 240
  /\ Z.land (Z.lor (Z.land old 240) (Z.land sil 15) mod 256) 15
     = Z.land sil 15.
Proof. rewrite byte_mask. split; nibble_bits. Qed.

Lemma set_high_then_low old sil :
  Z.lor (Z.land (Z.lor (Z.land old 15) (Z.land sil 240) mod 256) 240)
    (Z.land sil 15) mod 256
  = Z.land sil 255.
Proof. rewrite !byte_mask. nibble_bits. Qed.

(** One turn of the nibble loop, at the low and at the high nibble, when
    the samples are 4 bits apart. *)
Lemma silence_nibbles_low k (m : gmap Z Z) dst dst_step s0 s1 :
  silence_nibbles (S k) m dst 4 dst_step 4 s0 s1
  = silence_nibbles k
      (store m dst (Z.lor (Z.land (load m dst) 240) s1))
      (dst + dst_step + 1) 0 dst_step 4 s0 s1.
Proof. reflexivity. Qed.

Lemma silence_nibbles_high k (m : gmap Z Z) dst dst_step s0 s1 :
  silence_nibbles (S k) m dst 0 dst_step 4 s0 s1
  = silence_nibbles k
      (store m dst (Z.lor (Z.land (load m dst) 15) s0))
      (dst + dst_step) 4 dst_step 4 s0 s1.
Proof. reflexivity. Qed.

(** The per-sample loop writes upwards from [dst]. *)
Lemma store_le_below n : forall (m : gmap Z Z) p v q,
  q < p -> load (store_le n m p v) q = load m q.
Proof.
  induction n as [|n IH]; intros m p v q H; simpl; [reflexivity|].
  rewrite IH by lia. apply load_store_ne. lia.
Qed.

Lemma silence_samples_below bytes n : forall (m : gmap Z Z) dst dst_step sil q,
  0 <= dst_step -> q < dst ->
  load (silence_samples bytes n m dst dst_step sil) q = load m q.
Proof.
  induction n as [|n IH]; intros m dst dst_step sil q Hs H; simpl;
    [reflexivity|].
  rewrite IH by lia. now apply store_le_below.
Qed.

Lemma silence_samples_first n (m : gmap Z Z) dst dst_step sil :
  (0 < n)%nat -> 0 < dst_step ->
  load (silence_samples 1 n m dst dst_step sil) dst = sil mod 256.
Proof.
  intros Hn Hs. destruct n as [|n]; [lia|]. simpl.
  rewrite silence_samples_below by lia. apply load_store_eq.
Qed.

Section Formats.

Variable snd_pcm_format_physical_width : Z -> Z.
Variable snd_pcm_format_silence_64 : Z -> Z.

Local Abbreviation area_silence :=
  (snd_pcm_area_silence snd_pcm_format_physical_width
     snd_pcm_format_silence_64).

(** C7, amended: for a format of width 4 and the area [(base, first = 4,
    step = 4)], [snd_pcm_area_silence] with 3 samples leaves the high
    nibble (mask 0xf0) of byte 0 as it was, sets the low nibble (mask 0x0f)
    of byte 0 to the low nibble of the silence pattern, and sets both
    nibbles of byte 1 to those of the pattern; no other byte changes. *)
Theorem area_silence_three_nibbles (m : gmap Z Z) base format :
  snd_pcm_format_physical_width format = 4 ->
  base <> 0 ->
  let sil := snd_pcm_format_silence_64 format in
  exists m',
    area_silence m {| addr := base; first := 4; step := 4 |} 0 3 format
    = (Ret 0, m')
    /\ Z.land (load m' base) 240 = Z.land (load m base) 240
    /\ Z.land (load m' base) 15 = Z.land sil 15
    /\ load m' (base + 1) = Z.land sil 255
    /\ forall p, p <> base -> p <> base + 1 -> load m' p = load m p.
Proof.
  intros Hw Hbase sil.
  unfold snd_pcm_area_silence, snd_pcm_channel_area_addr.
  cbn [addr first step]. rewrite Hw.
  apply Z.eqb_neq in Hbase. rewrite Hbase.
  change (to_uint 4) with 4.
  cbn [Z.eqb andb Pos.eqb].
  change (to_uint (3 * 4) / 64) with 0.
  change (to_uint (3 - to_uint (0 * 64) / 4)) with 3.
  change (4 / 8) with 0. change (0 * 4 / 8) with 0. change (4 mod 8) with 4.
  change (Z.to_nat 0) with 0%nat. change (Z.to_nat 3) with 3%nat.
  rewrite !Z.add_0_r.
  cbn [Z.eqb andb silence_dwords Pos.eqb].
  rewrite silence_nibbles_low, silence_nibbles_high, silence_nibbles_low.
  cbn [silence_nibbles].
  rewrite !Z.add_0_r. fold sil.
  eexists. split; [reflexivity|].
  repeat split.
  - rewrite !load_store_ne by lia. rewrite load_store_eq.
    apply keep_high_set_low.
  - rewrite !load_store_ne by lia. rewrite load_store_eq.
    apply keep_high_set_low.
  - rewrite load_store_eq, load_store_eq, load_store_ne by lia.
    apply set_high_then_low.
  - intros p H0 H1. rewrite !load_store_ne by congruence. reflexivity.
Qed.

(** [snd_pcm_area_silence] on a format of width 8 when the samples of the
    area are not adjacent: one byte per sample. *)
Lemma area_silence_bytes (m : gmap Z Z) a offset samples format :
  snd_pcm_format_physical_width format = 8 ->
  addr a <> 0 -> step a <> 8 ->
  area_silence m a offset samples format
  = (Ret 0,
     silence_samples 1 (Z.to_nat samples) m
       (snd_pcm_channel_area_addr a offset) (step a / 8)
       (snd_pcm_format_silence_64 format)).
Proof.
  intros Hw Ha Hs. unfold snd_pcm_area_silence. rewrite Hw.
  apply Z.eqb_neq in Ha, Hs. rewrite Ha.
  change (to_uint 8) with 8. rewrite Hs. reflexivity.
Qed.

End Formats.

Lemma area_silence_three_nibbles_witness :
  exists m',
    snd_pcm_area_silence (fun _ => 4) (fun _ => 0) (all_ones 1000 2)
      {| addr := 1000; first := 4; step := 4 |} 0 3 22
    = (Ret 0, m')
    /\ Z.land (load m' 1000) 240 = Z.land (load (all_ones 1000 2) 1000) 240
    /\ Z.land (load m' 1000) 15 = Z.land 0 15
    /\ load m' (1000 + 1) = Z.land 0 255
    /\ forall p, p <> 1000 -> p <> 1000 + 1 ->
                 load m' p = load (all_ones 1000 2) p.
Proof.
  apply (area_silence_three_nibbles (fun _ => 4) (fun _ => 0)
           (all_ones 1000 2) 1000 22); [reflexivity | lia].
Defined.

(** C7 as stated fails: with the silence pattern 0 over bytes 0xff, byte 0
    becomes 0xf0: its low nibble has changed, and its high nibble is not
    the pattern. *)
Lemma area_silence_three_nibbles_counterexample :
  let m := all_ones 1000 2 in
  let m' :=
    snd (snd_pcm_area_silence (fun _ => 4) (fun _ => 0) m
           {| addr := 1000; first := 4; step := 4 |} 0 3 22) in
  load m 1000 = 255
  /\ load m' 1000 = 240
  /\ Z.land (load m' 1000) 15 <> Z.land (load m 1000) 15
  /\ Z.land (load m' 1000) 240 <> Z.land 0 240.
Proof. vm_compute. repeat split; discriminate. Qed.

(** Two 16 bit channels interleaved in one buffer: the run is collapsed and
    the bytes written are those of the per-channel path. *)
Example areas_silence_interleaved_s16 :
  let areas := [ {| addr := 1000; first := 0; step := 32 |};
                 {| addr := 1000; first := 16; step := 32 |} ] in
  snd_pcm_areas_silence (fun _ => 16) (fun _ => 0x8000800080008000)
    (all_ones 1000 10) areas 0 2 2 4
  = per_channel_silence (fun _ => 16) (fun _ => 0x8000800080008000)
      (all_ones 1000 10) areas 0 2 4.
Proof. vm_compute. reflexivity. Qed.

(** Two interleaved 16 bit channels copied from one buffer to another:
    the run is collapsed into one [memcpy] of 16 bytes, and the result is
    that of the per-channel path. *)
Example areas_copy_interleaved_s16 :
  let dst := [ {| addr := 1000; first := 0; step := 32 |};
               {| addr := 1000; first := 16; step := 32 |} ] in
  let src := [ {| addr := 2000; first := 0; step := 32 |};
               {| addr := 2000; first := 16; step := 32 |} ] in
  let m := store_bytes (all_ones 1000 16) 2000
             [1; 2; 3; 4; 5; 6; 7; 8; 9; 10; 11; 12; 13; 14; 15; 16] in
  let r := snd_pcm_areas_copy (fun _ => 16) (fun _ => 0) m dst 0 src 0 2 4 2 in
  r = per_channel_copy (fun _ => 16) (fun _ => 0) m dst 0 src 0 4 2
  /\ load_bytes 16 (snd r) 1000
     = [1; 2; 3; 4; 5; 6; 7; 8; 9; 10; 11; 12; 13; 14; 15; 16].
Proof. vm_compute. split; reflexivity. Qed.

(** C4 fails on a run of 4 bit channels that starts in the middle of a
    byte: for the two channels [(1000, 4, 8)] and [(1000, 8, 8)] and 8
    frames, the collapsed call writes the 8 bytes 1000..1007 whole, while
    the per-channel calls write the low nibbles of bytes 1000..1007 and
    the high nibbles of bytes 1001..1008. Bytes 1000 and 1008 differ. *)
Theorem areas_silence_collapse_differs :
  let areas := [ {| addr := 1000; first := 4; step := 8 |};
                 {| addr := 1000; first := 8; step := 8 |} ] in
  let m := all_ones 1000 9 in
  let collapsed :=
    snd_pcm_areas_silence (fun _ => 4) (fun _ => 0) m areas 0 2 8 22 in
  let per_channel :=
    per_channel_silence (fun _ => 4) (fun _ => 0) m areas 0 8 22 in
  fst collapsed = Ret 0 /\ fst per_channel = Ret 0
  /\ load (snd collapsed) 1000 = 0 /\ load (snd per_channel) 1000 = 240
  /\ load (snd collapsed) 1008 = 255 /\ load (snd per_channel) 1008 = 15
  /\ snd collapsed <> snd per_channel.
Proof.
  vm_compute. repeat split. discriminate.
Qed.

(** The two paths differ as well when [frames * chns] does not fit the
    [unsigned int] parameter [samples] of [snd_pcm_area_silence]: for two
    interleaved 8 bit channels and a count of frames whose double is 0
    modulo 2^32 (2^31 frames), the collapsed call is given 0 samples and
    writes nothing, while the per-channel calls write every sample. *)
Lemma areas_silence_collapse_truncates (m : gmap Z Z) frames :
  let areas := [ {| addr := 1000; first := 0; step := 16 |};
                 {| addr := 1000; first := 8; step := 16 |} ] in
  let width := fun _ : Z => 8 in
  let silence := fun _ : Z => 0x8080808080808080 in
  0 < to_uint frames -> to_uint (frames * 2) = 0 ->
  snd_pcm_areas_silence width silence m areas 0 2 frames 1 = (Ret 0, m)
  /\ fst (per_channel_silence width silence m areas 0 frames 1) = Ret 0
  /\ load (snd (per_channel_silence width silence m areas 0 frames 1)) 1000
     = 128.
Proof.
  intros areas width silence Hpos Hzero. split; [|split].
  - unfold snd_pcm_areas_silence. change (Z.to_nat 2) with 2%nat.
    cbn [areas_silence_loop Z.gtb Z.compare areas lookup list_lookup].
    unfold width at 1 2 3 4.
    cbn [addr step first].
    change (silence_run (Z.to_nat 2) areas 0 2 0 1000 16 8) with (@Ret Z 2).
    change ((2 >? 1) && (to_uint (2 * 8) =? 16)) with true. cbv iota.
    unfold snd_pcm_area_silence. cbn [addr step first].
    unfold width. change (to_uint 8) with 8. cbn [Z.eqb Pos.eqb andb].
    rewrite Hzero.
    change (to_uint (0 * 8) / 64) with 0.
    change (to_uint (0 - to_uint (0 * 64) / 8) =? 0) with true.
    change (Z.to_nat 0) with 0%nat. cbn [silence_dwords].
    change (0 <? 0) with false. change (2 - 2 >? 0) with false.
    reflexivity.
  - unfold areas. cbn [per_channel_silence].
    rewrite !area_silence_bytes by (cbn; first [reflexivity | lia]).
    reflexivity.
  - unfold areas. cbn [per_channel_silence].
    rewrite !area_silence_bytes by (cbn; first [reflexivity | lia]).
    cbn [fst snd Z.ltb Z.compare].
    change (snd_pcm_channel_area_addr
              {| addr := 1000; first := 8; step := 16 |} 0) with 1001.
    change (snd_pcm_channel_area_addr
              {| addr := 1000; first := 0; step := 16 |} 0) with 1000.
    assert (0 < Z.to_nat (to_uint frames))%nat as Hn
      by (apply Nat2Z.inj_lt; rewrite Z2Nat.id; lia).
    rewrite silence_samples_below
      by (cbv; first [reflexivity | discriminate]).
    rewrite silence_samples_first
      by first [exact Hn | cbv; reflexivity].
    reflexivity.
Qed.

(** The count of the lemma above: 2^31 frames. *)
Example areas_silence_collapse_truncates_at :
  0 < to_uint (2 ^ 31) /\ to_uint (2 ^ 31 * 2) = 0.
Proof. split; reflexivity. Qed.

End AreaFacts.

(** ** More on the name tables *)

Module TableFacts.

Import Names Pcm Tables Examples.

Section FormatValue.

Variable SND_PCM_FORMAT : format_tag -> Z.
Variable SND_PCM_FORMAT_LAST : Z.
Variable SND_PCM_FORMAT_UNKNOWN : Z.

Local Abbreviation names := (snd_pcm_format_names SND_PCM_FORMAT).
Local Abbreviation value_from :=
  (format_value_from SND_PCM_FORMAT SND_PCM_FORMAT_LAST SND_PCM_FORMAT_UNKNOWN).
Local Abbreviation format_value :=
  (snd_pcm_format_value SND_PCM_FORMAT SND_PCM_FORMAT_LAST
     SND_PCM_FORMAT_UNKNOWN).

Lemma format_value_from_scan name : forall n start,
  (Z.to_nat (SND_PCM_FORMAT_LAST + 1 - start) <= n)%nat ->
  (start <= value_from n start name <= SND_PCM_FORMAT_LAST
   /\ matches names name (value_from n start name)
   /\ forall i, start <= i < value_from n start name ->
                ~ matches names name i)
  \/ (value_from n start name = SND_PCM_FORMAT_UNKNOWN
      /\ forall i, start <= i <= SND_PCM_FORMAT_LAST ->
                   ~ matches names name i).
Proof.
  induction n as [|n IH]; intros start Hn; simpl.
  - right. split; [reflexivity|]. intros i Hi. lia.
  - destruct (start <=? SND_PCM_FORMAT_LAST) eqn:E.
    + apply Z.leb_le in E.
      assert (~ matches names name start ->
              (start <= value_from n (start + 1) name <= SND_PCM_FORMAT_LAST
               /\ matches names name (value_from n (start + 1) name)
               /\ forall i, start <= i < value_from n (start + 1) name ->
                            ~ matches names name i)
              \/ (value_from n (start + 1) name = SND_PCM_FORMAT_UNKNOWN
                  /\ forall i, start <= i <= SND_PCM_FORMAT_LAST ->
                               ~ matches names name i)) as Hnext.
      { intros Hno.
        destruct (IH (start + 1) ltac:(lia)) as [(Hr & Hm & Hb)|(Hr & Hb)].
        - left. split; [lia|]. split; [exact Hm|].
          intros i Hi. destruct (Z.eq_dec i start) as [->|Hne];
            [exact Hno|]. apply Hb. lia.
        - right. split; [exact Hr|].
          intros i Hi. destruct (Z.eq_dec i start) as [->|Hne];
            [exact Hno|]. apply Hb. lia. }
      destruct (names start) as [s|] eqn:Es.
      * destruct (strcasecmp name s =? 0) eqn:Ec.
        -- apply Z.eqb_eq in Ec. left. split; [lia|]. split.
           ++ exists s. now split.
           ++ intros i Hi. lia.
        -- apply Z.eqb_neq in Ec. apply Hnext.
           intros (s' & Hs' & Hc). congruence.
      * apply Hnext. intros (s' & Hs' & _). congruence.
    + apply Z.leb_gt in E. right. split; [reflexivity|]. intros i Hi. lia.
Qed.

(** X1: [snd_pcm_format_value] returns the first slot of the table of
    names, from 0 up to [SND_PCM_FORMAT_LAST], whose name [strcasecmp]
    finds equal to [name]; when no slot matches it returns
    [SND_PCM_FORMAT_UNKNOWN]. This holds whatever the numbering of the
    formats is. *)
Theorem format_value_first_match name :
  (0 <= format_value name <= SND_PCM_FORMAT_LAST
   /\ matches names name (format_value name)
   /\ forall i, 0 <= i < format_value name -> ~ matches names name i)
  \/ (format_value name = SND_PCM_FORMAT_UNKNOWN
      /\ forall i, 0 <= i <= SND_PCM_FORMAT_LAST -> ~ matches names name i).
Proof.
  unfold snd_pcm_format_value.
  apply format_value_from_scan.
  replace (SND_PCM_FORMAT_LAST + 1 - 0) with (SND_PCM_FORMAT_LAST + 1) by lia.
  lia.
Qed.

Lemma format_value_from_same name1 name2 :
  (forall s, (strcasecmp name1 s =? 0) = (strcasecmp name2 s =? 0)) ->
  forall n start, value_from n start name1 = value_from n start name2.
Proof.
  intros H. induction n as [|n IH]; intros start; simpl; [reflexivity|].
  destruct (start <=? SND_PCM_FORMAT_LAST); [|reflexivity].
  destruct (names start) as [s|]; [|apply IH].
  rewrite H. destruct (strcasecmp name2 s =? 0); [reflexivity|apply IH].
Qed.

(** X2: two strings that [strcasecmp] finds equal (they differ in the case
    of their letters, or after a 0 character) have the same value, in
    every numbering of the formats. *)
Theorem format_value_ignores_case name1 name2 :
  strcasecmp name1 name2 = 0 ->
  format_value name1 = format_value name2.
Proof.
  intros H. apply NamesFacts.strcasecmp_lower in H.
  unfold snd_pcm_format_value. apply format_value_from_same.
  intros s.
  destruct (strcasecmp name2 s =? 0) eqn:E2.
  - apply Z.eqb_eq. apply NamesFacts.strcasecmp_lower.
    apply Z.eqb_eq, NamesFacts.strcasecmp_lower in E2. congruence.
  - apply Z.eqb_neq. intros E1. apply Z.eqb_neq in E2. apply E2.
    apply NamesFacts.strcasecmp_lower.
    apply NamesFacts.strcasecmp_lower in E1. congruence.
Qed.

Local Abbreviation descriptions :=
  (snd_pcm_format_descriptions SND_PCM_FORMAT).

(** The two tables are filled slot by slot in the same way. *)
Lemma slots_together i : forall l slot_n slot_d,
  (slot_n = None /\ slot_d = None
   \/ exists f, SND_PCM_FORMAT f = i /\ slot_n = Some (stringify f)
                /\ slot_d = Some (describe f)) ->
  let n := fold_left
             (fun slot v => if SND_PCM_FORMAT v =? i then Some (stringify v)
                            else slot) l slot_n in
  let d := fold_left
             (fun slot v => if SND_PCM_FORMAT v =? i then Some (describe v)
                            else slot) l slot_d in
  n = None /\ d = None
  \/ exists f, SND_PCM_FORMAT f = i /\ n = Some (stringify f)
               /\ d = Some (describe f).
Proof.
  induction l as [|v l IH]; intros slot_n slot_d H; simpl; [exact H|].
  apply IH. destruct (SND_PCM_FORMAT v =? i) eqn:E; [|exact H].
  apply Z.eqb_eq in E. right. now exists v.
Qed.


End FormatValue.

Lemma format_value_ignores_case_witness :
  strcasecmp "Mu_Law" "mU_lAW" = 0
  /\ snd_pcm_format_value abi_format 31 (-1) "Mu_Law"
     = snd_pcm_format_value abi_format 31 (-1) "mU_lAW".
Proof.
  split; [reflexivity|].
  apply (format_value_ignores_case abi_format 31 (-1)). reflexivity.
Defined.

(** *** Arrays built by designated initialisers *)

Section Designated.

Context {A : Type}.
Variable index : A -> Z.
Variable text : A -> string.

Lemma array_length_fold : forall (l : list A) n,
  n <= fold_left (fun n v => Z.max n (index v + 1)) l n
  /\ forall v, In v l ->
               index v < fold_left (fun n v => Z.max n (index v + 1)) l n.
Proof.
  induction l as [|w l IH]; intros n; simpl.
  - split; [lia|]. intros v [].
  - destruct (IH (Z.max n (index w + 1))) as [Hn Hin]. split; [lia|].
    intros v [->|Hv]; [lia|]. now apply Hin.
Qed.

Lemma array_length_listed (l : list A) v :
  In v l -> index v < array_length index l.
Proof. intros H. now apply (array_length_fold l 0). Qed.

Lemma array_slot_fold i : forall (l : list A) slot s,
  fold_left (fun slot v => if index v =? i then Some (text v) else slot)
    l slot = Some s ->
  slot = Some s \/ exists v, In v l /\ index v = i /\ s = text v.
Proof.
  induction l as [|w l IH]; intros slot s H; simpl in H; [now left|].
  apply IH in H as [H|(v & Hv & Hi & Hs)].
  - destruct (index w =? i) eqn:E; [|now left].
    apply Z.eqb_eq in E. right. exists w. simpl. split; [now left|].
    split; congruence.
  - right. exists v. simpl. auto.
Qed.

(** A slot that holds a string holds the string of a listed enumerator
    with that index. *)
Lemma array_slot_origin (l : list A) i s :
  array_slot index text l i = Some s ->
  exists v, In v l /\ index v = i /\ s = text v.
Proof.
  intros H. apply array_slot_fold in H as [H|H]; [discriminate|exact H].
Qed.

Lemma array_slot_listed_fold v : forall (l : list A) slot,
  (forall w, In w l -> index w = index v -> w = v) ->
  slot = Some (text v) \/ In v l ->
  fold_left (fun slot w => if index w =? index v then Some (text w) else slot)
    l slot = Some (text v).
Proof.
  induction l as [|w l IH]; intros slot Hinj H; simpl.
  - destruct H as [H|[]]. exact H.
  - apply IH; [intros u Hu; apply Hinj; now right|].
    destruct (index w =? index v) eqn:E.
    + apply Z.eqb_eq in E. left. f_equal. f_equal. apply Hinj; [now left|].
      exact E.
    + destruct H as [H|[H|H]]; [now left| |now right].
      subst w. rewrite Z.eqb_refl in E. discriminate.
Qed.

(** The function behind the name functions on a listed enumerator, when no
    other listed enumerator has its value and the value is at most
    [last]. *)
Lemma name_of_listed last (l : list A) v :
  In v l ->
  (forall w, In w l -> index w = index v -> w = v) ->
  0 <= index v <= last ->
  name_of index text last l (index v) = Ret (Some (text v)).
Proof.
  intros Hv Hinj Hr. unfold name_of, array_get.
  pose proof (array_length_listed l v Hv).
  destruct (index v <=? last) eqn:E1; [|apply Z.leb_gt in E1; lia].
  destruct (0 <=? index v) eqn:E2; [|apply Z.leb_gt in E2; lia].
  destruct (index v <? array_length index l) eqn:E3;
    [|apply Z.ltb_ge in E3; lia].
  simpl. f_equal. unfold array_slot.
  apply array_slot_listed_fold; auto.
Qed.

(** On a value that no listed enumerator has, no name is returned. *)
Lemma name_of_unlisted last (l : list A) i s :
  (forall v, In v l -> index v <> i) ->
  name_of index text last l i <> Ret (Some s).
Proof.
  intros Hno. unfold name_of, array_get.
  destruct (i <=? last); [|discriminate].
  destruct ((0 <=? i) && (i <? array_length index l)); [|discriminate].
  intros [= H]. apply array_slot_origin in H as (v & Hv & Hi & _).
  now apply (Hno v).
Qed.

End Designated.

Section Enumerations.

Variable SND_PCM_STREAM : snd_pcm_stream_t -> Z.
Variable SND_PCM_STREAM_LAST : Z.
Variable SND_PCM_STATE : snd_pcm_state_t -> Z.
Variable SND_PCM_STATE_LAST : Z.
Variable SND_PCM_ACCESS : snd_pcm_access_t -> Z.
Variable SND_PCM_ACCESS_LAST : Z.
Variable SND_PCM_SUBFORMAT : snd_pcm_subformat_t -> Z.
Variable SND_PCM_SUBFORMAT_LAST : Z.
Variable SND_PCM_START : snd_pcm_start_t -> Z.
Variable SND_PCM_START_LAST : Z.
Variable SND_PCM_XRUN : snd_pcm_xrun_t -> Z.
Variable SND_PCM_XRUN_LAST : Z.
Variable SND_PCM_TSTAMP : snd_pcm_tstamp_t -> Z.
Variable SND_PCM_TSTAMP_LAST : Z.

(** X4: when an enumeration gives every enumerator its own value, between
    0 and its [_LAST] constant, the name function of that enumeration
    returns, for every enumerator that its table lists, the spelling of
    the enumerator (and [snd_pcm_subformat_description] the description):
    streams, access types, subformats, start modes, xrun modes, timestamp
    modes, and the six states from OPEN to PAUSED. *)
Theorem listed_names_returned :
  numbers SND_PCM_STREAM SND_PCM_STREAM_LAST ->
  numbers SND_PCM_ACCESS SND_PCM_ACCESS_LAST ->
  numbers SND_PCM_SUBFORMAT SND_PCM_SUBFORMAT_LAST ->
  numbers SND_PCM_START SND_PCM_START_LAST ->
  numbers SND_PCM_XRUN SND_PCM_XRUN_LAST ->
  numbers SND_PCM_TSTAMP SND_PCM_TSTAMP_LAST ->
  numbers SND_PCM_STATE SND_PCM_STATE_LAST ->
  (forall v, snd_pcm_stream_name SND_PCM_STREAM SND_PCM_STREAM_LAST
               (SND_PCM_STREAM v) = Ret (Some (stream_text v)))
  /\ (forall v, snd_pcm_access_name SND_PCM_ACCESS SND_PCM_ACCESS_LAST
                  (SND_PCM_ACCESS v) = Ret (Some (access_text v)))
  /\ (forall v, snd_pcm_subformat_name SND_PCM_SUBFORMAT
                  SND_PCM_SUBFORMAT_LAST (SND_PCM_SUBFORMAT v)
                = Ret (Some (subformat_text v)))
  /\ (forall v, snd_pcm_subformat_description SND_PCM_SUBFORMAT
                  SND_PCM_SUBFORMAT_LAST (SND_PCM_SUBFORMAT v)
                = Ret (Some (subformat_describe v)))
  /\ (forall v, snd_pcm_start_mode_name SND_PCM_START SND_PCM_START_LAST
                  (SND_PCM_START v) = Ret (Some (start_text v)))
  /\ (forall v, snd_pcm_xrun_mode_name SND_PCM_XRUN SND_PCM_XRUN_LAST
                  (SND_PCM_XRUN v) = Ret (Some (xrun_text v)))
  /\ (forall v, snd_pcm_tstamp_mode_name SND_PCM_TSTAMP SND_PCM_TSTAMP_LAST
                  (SND_PCM_TSTAMP v) = Ret (Some (tstamp_text v)))
  /\ (forall v, v <> SND_PCM_STATE_DRAINING ->
                snd_pcm_state_name SND_PCM_STATE SND_PCM_STATE_LAST
                  (SND_PCM_STATE v) = Ret (Some (state_text v))).
Proof.
  intros [Istream Rstream] [Iaccess Raccess] [Isub Rsub] [Istart Rstart]
    [Ixrun Rxrun] [Itstamp Rtstamp] [Istate Rstate].
  repeat split; intros v;
    try (apply name_of_listed;
         [destruct v; simpl; tauto | now auto | now auto]).
  intros Hv. apply name_of_listed;
    [destruct v; simpl; tauto | now auto | now auto].
Qed.

(** X5: the table of state names has no entry for DRAINING: when the
    enumeration gives DRAINING a value of its own, [snd_pcm_state_name]
    never returns a name for it (it returns NULL, reads past the end of
    the table, or stops at its assertion). *)
Theorem draining_has_no_name s :
  (forall v w, SND_PCM_STATE v = SND_PCM_STATE w -> v = w) ->
  snd_pcm_state_name SND_PCM_STATE SND_PCM_STATE_LAST
    (SND_PCM_STATE SND_PCM_STATE_DRAINING) <> Ret (Some s).
Proof.
  intros Hinj. apply name_of_unlisted.
  intros v Hv E. apply Hinj in E. subst v.
  simpl in Hv.
  repeat (destruct Hv as [Hv|Hv]; [discriminate Hv|]). destruct Hv.
Qed.

End Enumerations.

Ltac numbered :=
  split; [intros v w; destruct v, w; simpl; intros H; try reflexivity;
          discriminate H
         |intros v; destruct v; unfold subformat_value; simpl; lia].

Lemma listed_names_returned_witness :
  numbers stream_value 1 /\ numbers access_value 4
  /\ numbers subformat_value 0 /\ numbers start_value 1
  /\ numbers xrun_value 1 /\ numbers tstamp_value 1
  /\ numbers snd_enum_to_int 6
  /\ snd_pcm_access_name access_value 4 3 = Ret (Some "RW_INTERLEAVED"%string).
Proof.
  assert (numbers stream_value 1) as H1 by numbered.
  assert (numbers access_value 4) as H2 by numbered.
  assert (numbers subformat_value 0) as H3 by numbered.
  assert (numbers start_value 1) as H4 by numbered.
  assert (numbers xrun_value 1) as H5 by numbered.
  assert (numbers tstamp_value 1) as H6 by numbered.
  assert (numbers snd_enum_to_int 6) as H7 by numbered.
  repeat (split; [assumption|]).
  exact (proj1 (proj2 (listed_names_returned stream_value 1 snd_enum_to_int 6
                         access_value 4 subformat_value 0 start_value 1
                         xrun_value 1 tstamp_value 1 H1 H2 H3 H4 H5 H6 H7))
           SND_PCM_ACCESS_RW_INTERLEAVED).
Defined.

(** With the states numbered from OPEN = 0 to DRAINING = 6 the table has
    six slots, and the name of DRAINING is read past its end. *)
Lemma draining_has_no_name_witness :
  (forall v w, snd_enum_to_int v = snd_enum_to_int w -> v = w)
  /\ snd_pcm_state_name snd_enum_to_int 6 6 = Fault OutOfBounds
  /\ snd_pcm_state_name snd_enum_to_int 6
       (snd_enum_to_int SND_PCM_STATE_DRAINING) <> Ret (Some "DRAINING"%string).
Proof.
  assert (forall v w, snd_enum_to_int v = snd_enum_to_int w -> v = w) as H.
  { intros v w; destruct v, w; simpl; intros E; try reflexivity;
      discriminate E. }
  split; [exact H|]. split; [reflexivity|].
  exact (draining_has_no_name snd_enum_to_int 6 "DRAINING"%string H).
Defined.

End TableFacts.

(** ** More on the handle: conversions, configuration, close, wait and the
    non-blocking mode *)

Module HandleFacts.

Import Area Pcm Examples.

Section Conversions.

Context {B : Type}.
Implicit Types pcm : @snd_pcm_t B.

(** X6: on a handle with [setup] true whose frames are [k > 0] whole
    bytes, a count of bytes [bytes >= 0] (with [bytes * 8] in the range of
    [long]) is [bytes / k] frames, the division rounding down, and these
    frames are [bytes - bytes mod k] bytes: the bytes of an incomplete
    frame at the end are dropped by the conversion. *)
Theorem bytes_to_frames_rounds_down pcm bytes k :
  setup pcm = true ->
  0 < k -> frame_bits pcm = 8 * k ->
  0 <= bytes -> bytes * 8 <= LONG_MAX ->
  snd_pcm_bytes_to_frames pcm bytes = Ret (bytes / k)
  /\ snd_pcm_frames_to_bytes pcm (bytes / k) = Ret (bytes - bytes mod k).
Proof.
  intros Hs Hk Hb Hn Hmax.
  unfold snd_pcm_bytes_to_frames, snd_pcm_frames_to_bytes.
  rewrite Hs, Hb. unfold LONG_MAX in Hmax.
  destruct (8 * k =? 0) eqn:E; [apply Z.eqb_eq in E; lia|].
  assert (0 <= bytes / k <= bytes) as Hq.
  { split; [apply Z.div_pos; lia|]. apply Z.div_le_upper_bound; nia. }
  assert (bytes = k * (bytes / k) + bytes mod k) as Hdm
    by (apply Z.div_mod; lia).
  pose proof (Z.mod_pos_bound bytes k Hk) as Hm.
  split.
  - rewrite (CTypesFacts.to_long_small (bytes * 8)) by lia.
    rewrite Z.quot_div_nonneg by lia.
    replace (bytes * 8) with (8 * bytes) by lia.
    rewrite Z.div_mul_cancel_l by lia.
    now rewrite CTypesFacts.to_long_small by lia.
  - rewrite (CTypesFacts.to_long_small (bytes / k * (8 * k))) by nia.
    rewrite Z.quot_div_nonneg by nia.
    replace (bytes / k * (8 * k)) with (bytes / k * k * 8) by lia.
    rewrite Z.div_mul by lia.
    rewrite CTypesFacts.to_long_small by nia.
    f_equal. lia.
Qed.

(** X7: on a handle with [setup] true whose frames are [channels] samples
    of [sample_bits] bits, a count of bytes that is [frames] whole frames
    is [frames] frames and [frames * channels] samples (the count of
    samples is returned as an [int] and must fit one). *)
Theorem samples_are_frames_times_channels pcm bytes frames channels :
  setup pcm = true ->
  0 < sample_bits pcm -> 0 < channels ->
  frame_bits pcm = channels * sample_bits pcm ->
  0 <= frames -> bytes * 8 = frames * frame_bits pcm ->
  bytes * 8 <= LONG_MAX -> frames * channels < 2 ^ 31 ->
  snd_pcm_bytes_to_frames pcm bytes = Ret frames
  /\ snd_pcm_bytes_to_samples pcm bytes = Ret (frames * channels).
Proof.
  intros Hs Hsb Hc Hfb Hf Hbytes Hmax Hint.
  unfold snd_pcm_bytes_to_frames, snd_pcm_bytes_to_samples.
  rewrite Hs. unfold LONG_MAX in Hmax.
  assert (0 < frame_bits pcm) as Hfbp by nia.
  assert (2 ^ 31 < 2 ^ 63) as Hpow by (apply Z.pow_lt_mono_r; lia).
  destruct (frame_bits pcm =? 0) eqn:E; [apply Z.eqb_eq in E; lia|].
  destruct (sample_bits pcm =? 0) eqn:E'; [apply Z.eqb_eq in E'; lia|].
  assert (0 <= frames * channels) as Hfc by nia.
  rewrite (CTypesFacts.to_long_small (bytes * 8)) by nia.
  rewrite !Z.quot_div_nonneg by nia.
  split.
  - rewrite Hbytes, Z.div_mul by lia.
    rewrite CTypesFacts.to_long_small by nia. reflexivity.
  - rewrite Hbytes, Hfb.
    replace (frames * (channels * sample_bits pcm))
      with (frames * channels * sample_bits pcm) by lia.
    rewrite Z.div_mul by lia.
    rewrite CTypesFacts.to_long_small by lia.
    rewrite CTypesFacts.to_int_small by lia. reflexivity.
Qed.

End Conversions.

Lemma bytes_to_frames_rounds_down_witness :
  let pcm := fixed_pcm true 32 1 SND_PCM_STATE_PREPARED 0 0 in
  snd_pcm_bytes_to_frames pcm 4003 = Ret (4003 / 4)
  /\ snd_pcm_frames_to_bytes pcm (4003 / 4) = Ret (4003 - 4003 mod 4).
Proof.
  intros pcm.
  apply (bytes_to_frames_rounds_down pcm 4003 4); unfold LONG_MAX;
    simpl; first [reflexivity | lia].
Defined.

Lemma samples_are_frames_times_channels_witness :
  let pcm := with_frame_bits 32 (fixed_pcm true 16 1 SND_PCM_STATE_PREPARED 0 0) in
  snd_pcm_bytes_to_frames pcm 4000 = Ret 1000
  /\ snd_pcm_bytes_to_samples pcm 4000 = Ret (1000 * 2).
Proof.
  intros pcm.
  apply (samples_are_frames_times_channels pcm 4000 1000 2);
    unfold LONG_MAX; simpl; first [reflexivity | lia].
Defined.

(** *** Configuration, close and wait *)

Section Configuration.

Context {B : Type}.
Variable SND_PCM_NONBLOCK : Z.
Variable snd_pcm_munmap : @snd_pcm_t B -> B -> (Z * @snd_pcm_t B) * B.
Variable hw_params_t : Type.
Variable _snd_pcm_hw_params :
  @snd_pcm_t B -> hw_params_t -> B -> (Z * @snd_pcm_t B) * B.
Variable poll : Z -> Z -> Z -> B -> (Z * Z) * B.

Implicit Types (pcm : @snd_pcm_t B) (b : B).

Local Abbreviation hw_free := (snd_pcm_hw_free snd_pcm_munmap).
Local Abbreviation close := (snd_pcm_close SND_PCM_NONBLOCK snd_pcm_munmap).
Local Abbreviation hw_params :=
  (snd_pcm_hw_params hw_params_t _snd_pcm_hw_params).
Local Abbreviation stop_op := (Pcm.stop_op SND_PCM_NONBLOCK).
Local Abbreviation state_after_stop :=
  (Pcm.state_after_stop SND_PCM_NONBLOCK).
Local Abbreviation set_nonblock := (snd_pcm_nonblock SND_PCM_NONBLOCK).

(** X8: [snd_pcm_hw_params] returns an error of [_snd_pcm_hw_params] as it
    is, without preparing the stream; after a successful installation it
    calls the [prepare] entry and returns what that entry returns (the
    result of the installation is dropped); and a successful installation
    that leaves [setup] false stops at the assertion of
    [snd_pcm_prepare]. *)
Theorem hw_params_then_prepare pcm params b :
  let '((err, pcm1), b1) := _snd_pcm_hw_params pcm params b in
  let '(e, b2) := fast_prepare (fast_ops pcm1) b1 in
  hw_params pcm params b
  = if to_int err <? 0 then
      (Ret (to_int err, pcm1), b1, [Call OpHwParams [] (to_int err)])
    else if setup pcm1 then
      (Ret (to_int e, pcm1), b2,
       [Call OpHwParams [] (to_int err); Call OpPrepare [] (to_int e)])
    else (Fault AssertFail, b1, [Call OpHwParams [] (to_int err)]).
Proof.
  unfold snd_pcm_hw_params.
  destruct (_snd_pcm_hw_params pcm params b) as [[err pcm1] b1].
  destruct (fast_prepare (fast_ops pcm1) b1) as [e b2] eqn:Ep.
  rewrite Z.geb_leb.
  destruct (to_int err <? 0) eqn:E.
  - apply Z.ltb_lt in E.
    destruct (0 <=? to_int err) eqn:E'; [apply Z.leb_le in E'; lia|].
    reflexivity.
  - apply Z.ltb_ge in E.
    destruct (0 <=? to_int err) eqn:E'; [|apply Z.leb_gt in E'; lia].
    unfold snd_pcm_prepare, bind, assert, call.
    destruct (setup pcm1); simpl; [|reflexivity].
    rewrite Ep. reflexivity.
Qed.

(** X9: when [snd_pcm_hw_free] returns, either the release of the mapping
    has failed, its error is returned and the [hw_free] entry of the
    endpoint has not been called; or that entry has been called once, its
    result is returned, and [setup] is false afterwards, also when the
    entry reports an error. *)
Theorem hw_free_clears_setup pcm b r pcm' b' l :
  hw_free pcm b = (Ret (r, pcm'), b', l) ->
  (mmap_channels pcm = true /\ r < 0
   /\ calls_of OpMunmap l = [Call OpMunmap [] r]
   /\ calls_of OpHwFree l = [])
  \/ (setup pcm' = false /\ calls_of OpHwFree l = [Call OpHwFree [] r]).
Proof.
  unfold snd_pcm_hw_free, bind, assert, snd_pcm_state.
  destruct (setup pcm); simpl; [|discriminate].
  destruct (fast_state (fast_ops pcm) b) as [s b1].
  destruct (snd_enum_to_int s <=? _); simpl; [|discriminate].
  destruct (mmap_channels pcm); simpl.
  - destruct (snd_pcm_munmap pcm b1) as [[e p1] b2]. simpl.
    destruct (to_int e <? 0) eqn:E; simpl.
    + apply Z.ltb_lt in E. intros [= <- <- <- <-]. left.
      repeat split; auto.
    + unfold call. destruct (ops_hw_free (ops p1) b2) as [e' b3]. simpl.
      intros [= <- <- <- <-]. right. split; reflexivity.
  - unfold call. destruct (ops_hw_free (ops pcm) b1) as [e' b3]. simpl.
    intros [= <- <- <- <-]. right. split; reflexivity.
Qed.

(** X10: [snd_pcm_close] on a handle with [setup] true whose stream, once
    dropped or drained, is still in a state above PREPARED (it is still
    RUNNING or DRAINING, say) stops at the assertion of
    [snd_pcm_hw_free]: the [close] entry of the endpoint is not called
    and the handle is not freed. *)
Theorem close_stops_when_stream_goes_on pcm b :
  setup pcm = true ->
  snd_enum_to_int SND_PCM_STATE_PREPARED
  < snd_enum_to_int (state_after_stop pcm b) ->
  exists b1 e_stop,
    close pcm b
    = (Fault AssertFail, b1,
       [Call (stop_op pcm) [] e_stop;
        Call OpState [] (snd_enum_to_int (state_after_stop pcm b))]).
Proof.
  intros Hs Hstate.
  pose proof (PcmFacts.close_run SND_PCM_NONBLOCK snd_pcm_munmap pcm b)
    as Hrun.
  rewrite Hs in Hrun. cbv zeta in Hrun.
  destruct (snd_enum_to_int (state_after_stop pcm b)
            <=? snd_enum_to_int SND_PCM_STATE_PREPARED) eqn:E;
    [apply Z.leb_le in E; lia|].
  exact Hrun.
Qed.

(** X11: [snd_pcm_wait] polls the descriptor of the handle once, for
    [POLLOUT] on a playback stream and for [POLLIN] on a capture stream,
    with the time-out it is given. It returns [-errno] when [poll] fails
    and 0 in every other case: also when [poll] returns 0 because the
    time has run out. *)
Theorem wait_reports_only_failure pcm timeout b :
  let events :=
    match stream pcm with
    | SND_PCM_STREAM_PLAYBACK => POLLOUT
    | SND_PCM_STREAM_CAPTURE => POLLIN
    end in
  let '((err, errno), b1) := poll (poll_fd pcm) events timeout b in
  snd_pcm_wait poll pcm timeout b
  = (Ret (if to_int err <? 0 then to_int (- to_int errno) else 0), b1,
     [Call OpPoll [poll_fd pcm; events; timeout] (to_int err)]).
Proof.
  unfold snd_pcm_wait, snd_pcm_poll_descriptors, bind, assert. simpl.
  destruct (stream pcm); simpl;
    destruct (poll _ _ _ b) as [[err errno] b1]; reflexivity.
Qed.

(** The mode after a successful [snd_pcm_nonblock]. *)
Lemma nonblock_bit m nb :
  let m' := if negb (nb =? 0) then Z.lor m SND_PCM_NONBLOCK
            else Z.land m (Z.lnot SND_PCM_NONBLOCK) in
  Z.land m' SND_PCM_NONBLOCK = (if nb =? 0 then 0 else SND_PCM_NONBLOCK)
  /\ forall n, Z.testbit SND_PCM_NONBLOCK n = false ->
               Z.testbit m' n = Z.testbit m n.
Proof.
  destruct (nb =? 0); cbn [negb]; split.
  - apply Z.bits_inj'. intros n Hn.
    rewrite !Z.land_spec, Z.lnot_spec, Z.bits_0 by lia.
    destruct (Z.testbit m n), (Z.testbit SND_PCM_NONBLOCK n); reflexivity.
  - intros n Hb. destruct (Z_lt_le_dec n 0) as [Hneg|Hpos].
    + now rewrite !Z.testbit_neg_r by lia.
    + rewrite Z.land_spec, Z.lnot_spec, Hb by lia.
      now rewrite andb_true_r.
  - apply Z.bits_inj'. intros n Hn.
    rewrite Z.land_spec, Z.lor_spec.
    destruct (Z.testbit m n), (Z.testbit SND_PCM_NONBLOCK n); reflexivity.
  - intros n Hb. rewrite Z.lor_spec, Hb. now rewrite orb_false_r.
Qed.

(** X12: [snd_pcm_nonblock] returns a negative result of the [nonblock]
    entry of the endpoint as it is and leaves the handle alone; otherwise
    it returns 0, the bits of [SND_PCM_NONBLOCK] are all set in the mode
    when its argument is not 0 and all clear when it is 0, every other bit
    of the mode is as before, and so is the rest of the handle. *)
Theorem nonblock_sets_the_mode entry pcm nb b :
  let '((r, pcm'), b') := set_nonblock entry pcm nb b in
  let e := to_int (fst (entry nb b)) in
  b' = snd (entry nb b)
  /\ ((e < 0 /\ r = e /\ pcm' = pcm)
      \/ (0 <= e /\ r = 0
          /\ Z.land (mode pcm') SND_PCM_NONBLOCK
             = (if nb =? 0 then 0 else SND_PCM_NONBLOCK)
          /\ (forall n, Z.testbit SND_PCM_NONBLOCK n = false ->
                        Z.testbit (mode pcm') n = Z.testbit (mode pcm) n)
          /\ pcm' = set_mode pcm (mode pcm'))).
Proof.
  unfold snd_pcm_nonblock.
  destruct (entry nb b) as [e b1]. cbn [fst snd].
  destruct (to_int e <? 0) eqn:E.
  - apply Z.ltb_lt in E. split; [reflexivity|]. left. auto.
  - apply Z.ltb_ge in E.
    destruct (nonblock_bit (mode pcm) nb) as [Hbit Hrest].
    destruct (negb (nb =? 0)); (split; [reflexivity|]); right;
      repeat split; auto.
Qed.

(** X13: after [snd_pcm_nonblock] has put a handle in non-blocking mode,
    [snd_pcm_close] stops its stream by [drop], whatever the direction of
    the stream; after [snd_pcm_nonblock] has put a playback handle back in
    blocking mode, [snd_pcm_close] stops its stream by [drain].
    ([SND_PCM_NONBLOCK] is a flag: not 0; the handle has [setup] true.) *)
Theorem close_after_nonblock entry pcm nb b pcm' b' :
  SND_PCM_NONBLOCK <> 0 ->
  setup pcm = true ->
  set_nonblock entry pcm nb b = ((0, pcm'), b') ->
  exists r e b2 l,
    close pcm' b' = (r, b2, Call (stop_op pcm') [] e :: l)
    /\ (nb <> 0 -> stop_op pcm' = OpDrop)
    /\ (nb = 0 -> stream pcm = SND_PCM_STREAM_PLAYBACK ->
        stop_op pcm' = OpDrain).
Proof.
  intros Hflag Hs. unfold snd_pcm_nonblock.
  destruct (entry nb b) as [e b1].
  destruct (to_int e <? 0) eqn:E.
  { apply Z.ltb_lt in E. intros [= H _ _]. lia. }
  destruct (nonblock_bit (mode pcm) nb) as [Hbit _].
  set (m' := if negb (nb =? 0) then Z.lor (mode pcm) SND_PCM_NONBLOCK
             else Z.land (mode pcm) (Z.lnot SND_PCM_NONBLOCK)) in *.
  assert (pcm' = set_mode pcm m' -> b' = b1 ->
          exists r e b2 l,
            close pcm' b' = (r, b2, Call (stop_op pcm') [] e :: l)
            /\ (nb <> 0 -> stop_op pcm' = OpDrop)
            /\ (nb = 0 -> stream pcm = SND_PCM_STREAM_PLAYBACK ->
                stop_op pcm' = OpDrain)) as Hgo.
  { intros -> ->.
    pose proof (PcmFacts.close_run SND_PCM_NONBLOCK snd_pcm_munmap
                  (set_mode pcm m') b1) as Hrun.
    cbn [setup set_mode] in Hrun. rewrite Hs in Hrun. cbv zeta in Hrun.
    assert (exists r e b2 l,
              close (set_mode pcm m') b1
              = (r, b2, Call (stop_op (set_mode pcm m')) [] e :: l)) as Hc.
    { destruct (_ <=? _) in Hrun.
      - destruct Hrun as (b2 & e_stop & lf & ec & ld & -> & _).
        now eexists _, _, _, _.
      - destruct Hrun as (b2 & e_stop & ->). now eexists _, _, _, _. }
    destruct Hc as (r & e0 & b2 & l & Hc). exists r, e0, b2, l.
    split; [exact Hc|].
    unfold Pcm.stop_op, nonblock. cbn [mode stream set_mode].
    rewrite Hbit. split.
    - intros Hnb. apply Z.eqb_neq in Hnb. rewrite Hnb.
      apply Z.eqb_neq in Hflag. now rewrite Hflag.
    - intros -> ->. reflexivity. }
  subst m'. destruct (negb (nb =? 0)); intros [= <- <-]; now apply Hgo.
Qed.

End Configuration.

Lemma hw_free_clears_setup_witness :
  let pcm := fixed_pcm true 32 1 SND_PCM_STATE_SETUP (-5) 0 in
  exists pcm' b' l,
    snd_pcm_hw_free munmap_ok pcm 0%nat = (Ret (-5, pcm'), b', l)
    /\ ((mmap_channels pcm = true /\ -5 < 0
         /\ calls_of OpMunmap l = [Call OpMunmap [] (-5)]
         /\ calls_of OpHwFree l = [])
        \/ (setup pcm' = false
            /\ calls_of OpHwFree l = [Call OpHwFree [] (-5)])).
Proof.
  intros pcm. eexists _, _, _. split; [reflexivity|].
  exact (hw_free_clears_setup munmap_ok pcm 0%nat (-5) _ _ _ eq_refl).
Defined.

(** An endpoint that goes on RUNNING whatever it is asked: closing it
    stops at the assertion. *)
Lemma close_stops_when_stream_goes_on_witness :
  let pcm := fixed_pcm true 32 1 SND_PCM_STATE_RUNNING 0 0 in
  exists b1 e_stop,
    snd_pcm_close 1 munmap_ok pcm 0%nat
    = (Fault AssertFail, b1,
       [Call (stop_op 1 pcm) [] e_stop;
        Call OpState [] (snd_enum_to_int (state_after_stop 1 pcm 0%nat))]).
Proof.
  intros pcm.
  apply (close_stops_when_stream_goes_on 1 munmap_ok pcm 0%nat);
    [reflexivity | simpl; lia].
Defined.

Lemma close_after_nonblock_witness :
  let pcm := fixed_pcm true 32 1 SND_PCM_STATE_SETUP 0 0 in
  exists pcm' b' r e b2 l,
    snd_pcm_nonblock 1 nonblock_ok pcm 1 0%nat = ((0, pcm'), b')
    /\ snd_pcm_close 1 munmap_ok pcm' b'
       = (r, b2, Call (stop_op 1 pcm') [] e :: l)
    /\ stop_op 1 pcm = OpDrain
    /\ stop_op 1 pcm' = OpDrop.
Proof.
  intros pcm.
  destruct (close_after_nonblock 1 munmap_ok nonblock_ok pcm 1 0%nat
              (set_mode pcm 1) 1%nat ltac:(lia) eq_refl eq_refl)
    as (r & e & b2 & l & Hc & Hdrop & _).
  exists (set_mode pcm 1), 1%nat, r, e, b2, l.
  split; [reflexivity|]. split; [exact Hc|]. split; [reflexivity|].
  apply Hdrop. lia.
Defined.

End HandleFacts.

(** ** More on the transfer loops: what they call, and in which order *)

Module TransferFacts.

Import Area Pcm Examples.

Section Transfer.

Context {B : Type}.
Variable SND_PCM_NONBLOCK : Z.
Variable poll : Z -> Z -> Z -> B -> (Z * Z) * B.

Implicit Types (pcm : @snd_pcm_t B) (b : B) (l q : list event).

Local Abbreviation write_areas_loop :=
  (write_areas_loop SND_PCM_NONBLOCK poll).
Local Abbreviation read_areas_loop :=
  (read_areas_loop SND_PCM_NONBLOCK poll).
Local Abbreviation write_areas := (snd_pcm_write_areas SND_PCM_NONBLOCK poll).
Local Abbreviation read_areas := (snd_pcm_read_areas SND_PCM_NONBLOCK poll).

(** *** A property of every event of a record *)

Lemma calls_bind {A C : Type} (good : event -> Prop) (m : M A)
    (f : A -> M C) b :
  Forall good (snd (m b)) ->
  (forall a b1, Forall good (snd (f a b1))) ->
  Forall good (snd (bind m f b)).
Proof.
  intros Hm Hf. unfold bind.
  destruct (m b) as [[[a|e] b1] l1]; cbn [snd] in *; [|exact Hm].
  specialize (Hf a b1). destruct (f a b1) as [[r b2] l2]. cbn [snd] in *.
  apply Forall_app. now split.
Qed.

Lemma calls_assert (good : event -> Prop) c b :
  Forall good (snd (assert c b)).
Proof. destruct c; constructor. Qed.

Lemma calls_leave (good : event -> Prop) xfer e b :
  good (Raise e) -> Forall good (snd (leave xfer e b)).
Proof. intros H. unfold leave, bind, emit, ret. simpl. now repeat constructor. Qed.

Lemma calls_call_long (good : event -> Prop) op args f b :
  (forall r, good (Call op args r)) ->
  Forall good (snd (call_long op args f b)).
Proof.
  intros H. unfold call_long. destruct (f b) as [r b1]. simpl.
  now repeat constructor.
Qed.

Lemma calls_start (good : event -> Prop) pcm b :
  (forall r, good (Call OpStart [] r)) ->
  Forall good (snd (snd_pcm_start pcm b)).
Proof.
  intros H. unfold snd_pcm_start, bind, assert, call.
  destruct (setup pcm); simpl; [|constructor].
  destruct (fast_start (fast_ops pcm) b) as [r b1]. simpl.
  now repeat constructor.
Qed.

Lemma calls_state (good : event -> Prop) pcm b :
  (forall r, good (Call OpState [] r)) ->
  Forall good (snd (snd_pcm_state pcm b)).
Proof.
  intros H. unfold snd_pcm_state.
  destruct (fast_state (fast_ops pcm) b) as [s b1]. simpl.
  now repeat constructor.
Qed.

Lemma calls_wait (good : event -> Prop) pcm timeout b :
  (forall r, good (Call OpPoll [poll_fd pcm; poll_events pcm; timeout] r)) ->
  Forall good (snd (snd_pcm_wait poll pcm timeout b)).
Proof.
  intros H. unfold snd_pcm_wait, snd_pcm_poll_descriptors, bind, assert.
  simpl. fold (poll_events pcm).
  destruct (poll (poll_fd pcm) (poll_events pcm) timeout b)
    as [[err errno] b1]. simpl.
  now repeat constructor.
Qed.

Lemma start_on_data pcm state :
  state_eqb state SND_PCM_STATE_PREPARED
  && start_eqb (start_mode pcm) SND_PCM_START_DATA = true ->
  start_mode pcm = SND_PCM_START_DATA.
Proof.
  intros H. apply andb_true_iff in H as [_ H].
  now destruct (start_mode pcm).
Qed.

Section Calls.

Variable pcm : @snd_pcm_t B.
Variable good : event -> Prop.

Hypothesis good_state : forall r, good (Call OpState [] r).
Hypothesis good_avail : forall r, good (Call OpAvailUpdate [] r).
Hypothesis good_xfer : forall offset frames r,
  good (Call OpXfer [offset; frames] r).
Hypothesis good_raise : forall e, good (Raise e).
Hypothesis good_start :
  start_mode pcm = SND_PCM_START_DATA -> forall r, good (Call OpStart [] r).
Hypothesis good_poll :
  nonblock SND_PCM_NONBLOCK pcm = false ->
  forall r, good (Call OpPoll [poll_fd pcm; poll_events pcm; -1] r).

Lemma write_transfer_calls areas func again state offset size xfer avail :
  (forall offset' size' xfer' b, Forall good (snd (again offset' size' xfer' b))) ->
  forall b,
    Forall good
      (snd (write_transfer pcm areas func again state offset size xfer avail
              b)).
Proof.
  intros Hagain b. unfold write_transfer.
  destruct ((avail >? xfer_align pcm) && (xfer_align pcm =? 0));
    [constructor|].
  apply calls_bind; [apply calls_assert|]. intros _ b1.
  apply calls_bind; [now apply calls_call_long|]. intros r b2.
  destruct (to_int r <? 0); [now apply calls_leave|].
  apply calls_bind; [apply calls_assert|]. intros _ b3.
  destruct (state_eqb state SND_PCM_STATE_PREPARED
            && start_eqb (start_mode pcm) SND_PCM_START_DATA) eqn:Es.
  - apply start_on_data in Es.
    apply calls_bind; [apply calls_start; now apply good_start|].
    intros err b4. destruct (err <? 0); [now apply calls_leave|].
    destruct (_ >? 0); [apply Hagain|constructor].
  - destruct (_ >? 0); [apply Hagain|constructor].
Qed.

Lemma read_transfer_calls areas func again offset size xfer avail :
  (forall offset' size' xfer' b, Forall good (snd (again offset' size' xfer' b))) ->
  forall b,
    Forall good
      (snd (read_transfer pcm areas func again offset size xfer avail b)).
Proof.
  intros Hagain b. unfold read_transfer.
  destruct ((avail >? xfer_align pcm) && (xfer_align pcm =? 0));
    [constructor|].
  apply calls_bind; [apply calls_assert|]. intros _ b1.
  apply calls_bind; [now apply calls_call_long|]. intros r b2.
  destruct (to_int r <? 0); [now apply calls_leave|].
  apply calls_bind; [apply calls_assert|]. intros _ b3.
  destruct (_ >? 0); [apply Hagain|constructor].
Qed.

Lemma loop_body_calls (special : bool) (step : Z -> M (Z * Z))
    (loop : snd_pcm_state_t -> M (Z * Z)) size xfer :
  (forall avail b, Forall good (snd (step avail b))) ->
  (forall state b, Forall good (snd (loop state b))) ->
  forall b,
    Forall good
      (snd (bind (snd_pcm_avail_update pcm) (fun avail =>
         if avail <? 0 then leave xfer (- EPIPE)
         else if special then
           if avail =? 0 then leave xfer (- EPIPE) else step avail
         else if (avail =? 0)
                 || ((size >=? xfer_align pcm) && (avail <? xfer_align pcm))
         then
           if nonblock SND_PCM_NONBLOCK pcm then leave xfer (- EAGAIN)
           else
             bind (snd_pcm_wait poll pcm (-1)) (fun err =>
               if err <? 0 then leave xfer err
               else bind (snd_pcm_state pcm) loop)
         else step avail) b)).
Proof.
  intros Hstep Hloop b.
  apply calls_bind; [now apply calls_call_long|]. intros avail b1.
  destruct (avail <? 0); [now apply calls_leave|].
  destruct special.
  - destruct (avail =? 0); [now apply calls_leave|apply Hstep].
  - destruct (_ || _); [|apply Hstep].
    destruct (nonblock SND_PCM_NONBLOCK pcm) eqn:Enb;
      [now apply calls_leave|].
    apply calls_bind; [apply calls_wait; now apply good_poll|].
    intros err b2. destruct (err <? 0); [now apply calls_leave|].
    apply calls_bind; [now apply calls_state|]. intros s b3. apply Hloop.
Qed.

Lemma write_loop_calls areas func : forall fuel state offset size xfer b,
  Forall good
    (snd (write_areas_loop fuel pcm areas func state offset size xfer b)).
Proof.
  induction fuel as [|k IH]; intros state offset size xfer b; [constructor|].
  rewrite PcmFacts.write_areas_loop_S.
  apply (loop_body_calls (state_eqb state SND_PCM_STATE_PREPARED)
           (write_transfer pcm areas func
              (write_areas_loop k pcm areas func state) state offset size
              xfer)
           (fun state => write_areas_loop k pcm areas func state offset size
                           xfer)).
  - intros avail b0. apply write_transfer_calls. intros. apply IH.
  - intros state' b0. apply IH.
Qed.

Lemma read_loop_calls areas func : forall fuel state offset size xfer b,
  Forall good
    (snd (read_areas_loop fuel pcm areas func state offset size xfer b)).
Proof.
  induction fuel as [|k IH]; intros state offset size xfer b; [constructor|].
  rewrite PcmFacts.read_areas_loop_S.
  apply (loop_body_calls (state_eqb state SND_PCM_STATE_DRAINING)
           (read_transfer pcm areas func
              (read_areas_loop k pcm areas func state) offset size xfer)
           (fun state => read_areas_loop k pcm areas func state offset size
                           xfer)).
  - intros avail b0. apply read_transfer_calls. intros. apply IH.
  - intros state' b0. apply IH.
Qed.

Lemma calls_emit_ret {A : Type} e (a : A) b :
  Forall good (snd (bind (emit (Raise e)) (fun _ => ret a) b)).
Proof. unfold bind, emit, ret. simpl. now repeat constructor. Qed.

Lemma write_areas_calls fuel areas offset size func b :
  Forall good (snd (write_areas fuel pcm areas offset size func b)).
Proof.
  unfold snd_pcm_write_areas.
  apply calls_bind; [now apply calls_state|]. intros state b1.
  destruct (size =? 0); [constructor|].
  destruct ((size >? xfer_align pcm) && (xfer_align pcm =? 0));
    [constructor|].
  destruct state; try apply calls_emit_ret;
    (apply calls_bind; [|intros; constructor]);
    (destruct (_ >? 0); [apply write_loop_calls|constructor]).
Qed.

Lemma read_areas_calls fuel areas offset size func b :
  Forall good (snd (read_areas fuel pcm areas offset size func b)).
Proof.
  unfold snd_pcm_read_areas.
  apply calls_bind; [now apply calls_state|]. intros state b1.
  destruct (size =? 0); [constructor|].
  destruct ((size >? xfer_align pcm) && (xfer_align pcm =? 0));
    [constructor|].
  cbv zeta.
  assert (forall b2,
            Forall good
              (snd (bind (if (if size >? xfer_align pcm
                              then size - size mod xfer_align pcm
                              else size) >? 0
                          then read_areas_loop fuel pcm areas func state
                                 offset
                                 (if size >? xfer_align pcm
                                  then size - size mod xfer_align pcm
                                  else size) 0
                          else ret (0, 0))
                      (fun r => ret (xfer_result r)) b2))) as Hloop.
  { intros b2. apply calls_bind; [|intros; constructor].
    destruct (_ >? 0); [apply read_loop_calls|constructor]. }
  destruct state; try apply calls_emit_ret; try apply Hloop.
  destruct (start_eqb (start_mode pcm) SND_PCM_START_DATA) eqn:Es;
    [|apply Hloop].
  assert (start_mode pcm = SND_PCM_START_DATA) as Hd
    by (now destruct (start_mode pcm)).
  apply calls_bind; [apply calls_start; now apply good_start|].
  intros err b2. destruct (err <? 0); [|apply Hloop].
  apply calls_bind; [now apply calls_leave|]. intros; constructor.
Qed.

End Calls.

Lemma calls_of_none op l :
  Forall (fun e => match e with
                   | Call o _ _ => op_eqb o op = false
                   | Raise _ => True
                   end) l ->
  calls_of op l = [].
Proof.
  induction 1 as [|e l He _ IH]; [reflexivity|].
  unfold calls_of in *. simpl. destruct e as [o args r|e]; [|exact IH].
  now rewrite He.
Qed.

(** X14: in non-blocking mode the two transfer functions never call
    [poll], whatever the endpoint and the callback answer and however the
    call ends. *)
Theorem nonblocking_transfer_never_polls pcm fuel areas offset size func b :
  nonblock SND_PCM_NONBLOCK pcm = true ->
  calls_of OpPoll (snd (write_areas fuel pcm areas offset size func b)) = []
  /\ calls_of OpPoll (snd (read_areas fuel pcm areas offset size func b))
     = [].
Proof.
  intros Hnb.
  split; apply calls_of_none;
    [apply write_areas_calls|apply read_areas_calls];
    try (intros; reflexivity); try (intros; exact I);
    rewrite Hnb; discriminate.
Qed.

(** X15: with the start mode EXPLICIT the two transfer functions never
    start the stream. *)
Theorem explicit_start_mode_never_starts pcm fuel areas offset size func b :
  start_mode pcm = SND_PCM_START_EXPLICIT ->
  calls_of OpStart (snd (write_areas fuel pcm areas offset size func b)) = []
  /\ calls_of OpStart (snd (read_areas fuel pcm areas offset size func b))
     = [].
Proof.
  intros Hm.
  split; apply calls_of_none;
    [apply write_areas_calls|apply read_areas_calls];
    try (intros; reflexivity); try (intros; exact I);
    rewrite Hm; discriminate.
Qed.

(** X16: the two transfer functions call nothing but the [state],
    [avail_update] and [start] entries of the endpoint, the transfer
    callback and [poll]: a transfer never prepares, resets, drops, drains,
    pauses or rewinds the stream, and never frees or closes anything. Every
    [poll] is on the descriptor of the handle, for the events of its
    direction, without time limit. *)
Theorem transfer_calls pcm fuel areas offset size func b :
  let allowed := [OpState; OpAvailUpdate; OpStart; OpXfer; OpPoll] in
  let waits e :=
    match e with
    | Call OpPoll args _ => args = [poll_fd pcm; poll_events pcm; -1]
    | _ => True
    end in
  let lw := snd (write_areas fuel pcm areas offset size func b) in
  let lr := snd (read_areas fuel pcm areas offset size func b) in
  calls_only allowed lw /\ calls_only allowed lr
  /\ Forall waits lw /\ Forall waits lr.
Proof.
  intros allowed waits lw lr. unfold calls_only.
  repeat split;
    [apply write_areas_calls|apply read_areas_calls
    |apply write_areas_calls|apply read_areas_calls];
    intros; first [reflexivity | exact I].
Qed.

(** *** The calls of the callback, one after the other *)

Local Abbreviation inv := loop_inv.

Lemma in_order_no_xfer : forall l offset size,
  calls_of OpXfer l = [] -> in_order offset size l.
Proof.
  induction l as [|[op args r|e] l IH]; intros offset size H; simpl;
    [exact I| |apply IH; exact H].
  unfold calls_of in H. simpl in H.
  destruct op; simpl in H; try (apply IH; exact H). discriminate H.
Qed.

Lemma in_order_app : forall q l offset size,
  calls_of OpXfer q = [] -> in_order offset size l ->
  in_order offset size (q ++ l).
Proof.
  induction q as [|[op args r|e] q IH]; intros l offset size H Hl; simpl;
    [exact Hl| |now apply IH].
  unfold calls_of in H. simpl in H.
  destruct op; simpl in H; try (now apply IH). discriminate H.
Qed.

Lemma polls_are_no_transfers l : calls_of OpXfer (calls_of OpPoll l) = [].
Proof.
  induction l as [|[op args r|e] l IH]; [reflexivity| |exact IH].
  unfold calls_of in *. simpl. destruct op; simpl; exact IH.
Qed.

Lemma inv_fault offset size (f : fault) q :
  calls_of OpXfer q = [] -> inv offset size (@Fault (Z * Z) f) q.
Proof.
  intros H. split; [now apply in_order_no_xfer|]. intros x e [=].
Qed.

Lemma inv_leave offset size (r : res (Z * Z)) q e :
  calls_of OpXfer q = [] -> inv offset size r (q ++ [Raise e]).
Proof.
  intros H. split.
  - apply in_order_app; [exact H|exact I].
  - intros x e0 _ He. rewrite PcmFacts.errors_raised_app in He.
    destruct (errors_raised q); discriminate He.
Qed.

Lemma inv_quiet offset size (r : res (Z * Z)) q l :
  calls_of OpXfer q = [] -> quiet q ->
  inv offset size r l -> inv offset size r (q ++ l).
Proof.
  intros Hx [Mq Eq] [Ho Hc]. split; [now apply in_order_app|].
  intros x e Hr He.
  rewrite PcmFacts.errors_raised_app, Eq in He.
  rewrite PcmFacts.frames_moved_app, Mq. now apply (Hc x e).
Qed.

(** After a call of the callback that took the [frames] it was given. *)
Lemma inv_moved offset size (r1 : res (Z * Z)) r frames q l :
  to_int r = frames -> 0 < frames <= size ->
  calls_of OpXfer q = [] -> quiet q ->
  inv (to_ulong (offset + frames)) (size - frames) r1 l ->
  inv offset size r1 (Call OpXfer [offset; frames] r :: q ++ l).
Proof.
  intros Hr Hf Hx [Mq Eq] [Ho Hc]. split.
  - simpl. exists frames. repeat split; try lia. now apply in_order_app.
  - intros x e H1 He. simpl in He.
    rewrite PcmFacts.errors_raised_app, Eq in He. simpl.
    rewrite PcmFacts.frames_moved_app, Mq, Hr.
    destruct (frames <? 0) eqn:E; [apply Z.ltb_lt in E; lia|].
    rewrite (Hc x e H1 He). lia.
Qed.

Lemma inv_done offset size x err r frames q :
  to_int r = frames -> 0 < frames <= size -> size - frames <= 0 ->
  calls_of OpXfer q = [] -> quiet q ->
  inv offset size (Ret (x, err)) (Call OpXfer [offset; frames] r :: q).
Proof.
  intros Hr Hf Hrest Hx [Mq Eq]. split.
  - simpl. exists frames. repeat split; try lia. now apply in_order_no_xfer.
  - intros x0 e0 _ _. simpl. rewrite Mq, Hr.
    destruct (frames <? 0) eqn:E; [apply Z.ltb_lt in E; lia|]. lia.
Qed.

Lemma write_transfer_inv pcm areas func again state offset size xfer avail :
  0 < size -> 0 < avail ->
  (forall offset' size' xfer' b r b' l,
     0 < size' ->
     again offset' size' xfer' b = (r, b', l) -> inv offset' size' r l) ->
  forall b r b' l,
    write_transfer pcm areas func again state offset size xfer avail b
    = (r, b', l) ->
    inv offset size r l.
Proof.
  intros Hsize Havail IH b r b' l. unfold write_transfer.
  destruct ((avail >? xfer_align pcm) && (xfer_align pcm =? 0)) eqn:E0.
  { intros [= <- <- <-]. now apply inv_fault. }
  assert (xfer_align pcm <> 0 \/ avail <= xfer_align pcm) as Hal.
  { apply andb_false_iff in E0 as [E0|E0].
    - right. rewrite Z.gtb_ltb in E0. apply Z.ltb_ge in E0. lia.
    - left. now apply Z.eqb_neq. }
  pose proof (PcmFacts.rounded_avail_pos avail (xfer_align pcm) Havail Hal)
    as Hav.
  set (avail' := if avail >? xfer_align pcm
                 then avail - avail mod xfer_align pcm else avail) in *.
  set (frames := if size >? avail' then avail' else size).
  assert (0 < frames <= size) as Hf.
  { subst frames. destruct (size >? avail') eqn:E; [|lia].
    rewrite Z.gtb_ltb in E. apply Z.ltb_lt in E. lia. }
  unfold bind at 1. unfold assert.
  destruct (frames =? 0) eqn:Ez; [apply Z.eqb_eq in Ez; lia|].
  cbn [negb ret]. unfold bind at 1. unfold call_long.
  destruct (func areas offset frames b) as [r0 b1].
  set (rx := to_long r0).
  destruct (to_int rx <? 0) eqn:Eneg.
  { unfold leave, bind, emit, ret. intros [= <- <- <-].
    split.
    - simpl. exists frames. repeat split; try lia.
    - intros x e _ He. discriminate He. }
  destruct (to_int rx =? frames) eqn:Eeq.
  2:{ unfold bind, assert, fail. cbn. intros [= <- <- <-].
      split; [|intros x e [=]].
      simpl. exists frames. repeat split; lia. }
  apply Z.eqb_eq in Eeq.
  assert (forall err q b0 r1 b2 l2,
            calls_of OpXfer q = [] -> quiet q ->
            (if size - frames >? 0
             then again (to_ulong (offset + frames)) (size - frames)
                    (xfer + frames)
             else ret (xfer + frames, err)) b0 = (r1, b2, l2) ->
            inv offset size r1
              (Call OpXfer [offset; frames] rx :: q ++ l2)) as Hcont.
  { intros err q b0 r1 b2 l2 Hx Hq. destruct (size - frames >? 0) eqn:Erest.
    - intros H. apply IH in H; [|apply Z.gtb_lt in Erest; lia].
      now apply inv_moved.
    - intros [= <- <- <-]. rewrite app_nil_r.
      rewrite Z.gtb_ltb in Erest. apply Z.ltb_ge in Erest.
      now apply inv_done. }
  unfold bind at 1. cbn [assert ret].
  destruct (state_eqb state SND_PCM_STATE_PREPARED
            && start_eqb (start_mode pcm) SND_PCM_START_DATA).
  - unfold bind at 1.
    destruct (snd_pcm_start pcm b1) as [[rs bs] ls] eqn:Es.
    apply PcmFacts.start_inv in Es as [[-> ->]|(e0 & -> & -> & He0)].
    { intros [= <- <- <-]. split; [|intros x e [=]].
      simpl. exists frames. repeat split; lia. }
    destruct (e0 <? 0) eqn:E1.
    + unfold leave, bind, emit, ret. intros [= <- <- <-]. cbn [app].
      split.
      * simpl. exists frames. repeat split; lia.
      * intros x e _ He. discriminate He.
    + destruct (if size - frames >? 0
                then again (to_ulong (offset + frames)) (size - frames)
                       (xfer + frames)
                else ret (xfer + frames, e0)) eqn:Ek at 1.
      destruct p as [rk bk]. cbn [app]. intros [= <- <- <-].
      apply (Hcont e0 [Call OpStart [] e0] bs rk bk l0);
        [reflexivity|now apply PcmFacts.quiet_call|exact Ek].
  - destruct (if size - frames >? 0
              then again (to_ulong (offset + frames)) (size - frames)
                     (xfer + frames)
              else ret (xfer + frames, to_int rx)) eqn:Ek at 1.
    destruct p as [rk bk]. cbn [app]. intros [= <- <- <-].
    apply (Hcont (to_int rx) [] b1 rk bk l0);
      [reflexivity|apply PcmFacts.quiet_nil|exact Ek].
Qed.

Lemma read_transfer_inv pcm areas func again offset size xfer avail :
  0 < size -> 0 < avail ->
  (forall offset' size' xfer' b r b' l,
     0 < size' ->
     again offset' size' xfer' b = (r, b', l) -> inv offset' size' r l) ->
  forall b r b' l,
    read_transfer pcm areas func again offset size xfer avail b
    = (r, b', l) ->
    inv offset size r l.
Proof.
  intros Hsize Havail IH b r b' l. unfold read_transfer.
  destruct ((avail >? xfer_align pcm) && (xfer_align pcm =? 0)) eqn:E0.
  { intros [= <- <- <-]. now apply inv_fault. }
  assert (xfer_align pcm <> 0 \/ avail <= xfer_align pcm) as Hal.
  { apply andb_false_iff in E0 as [E0|E0].
    - right. rewrite Z.gtb_ltb in E0. apply Z.ltb_ge in E0. lia.
    - left. now apply Z.eqb_neq. }
  pose proof (PcmFacts.rounded_avail_pos avail (xfer_align pcm) Havail Hal)
    as Hav.
  set (avail' := if avail >? xfer_align pcm
                 then avail - avail mod xfer_align pcm else avail) in *.
  set (frames := if size >? avail' then avail' else size).
  assert (0 < frames <= size) as Hf.
  { subst frames. destruct (size >? avail') eqn:E; [|lia].
    rewrite Z.gtb_ltb in E. apply Z.ltb_lt in E. lia. }
  unfold bind at 1. unfold assert.
  destruct (frames =? 0) eqn:Ez; [apply Z.eqb_eq in Ez; lia|].
  cbn [negb ret]. unfold bind at 1. unfold call_long.
  destruct (func areas offset frames b) as [r0 b1].
  set (rx := to_long r0).
  destruct (to_int rx <? 0) eqn:Eneg.
  { unfold leave, bind, emit, ret. intros [= <- <- <-].
    split.
    - simpl. exists frames. repeat split; try lia.
    - intros x e _ He. discriminate He. }
  destruct (to_int rx =? frames) eqn:Eeq.
  2:{ unfold bind, assert, fail. cbn. intros [= <- <- <-].
      split; [|intros x e [=]].
      simpl. exists frames. repeat split; lia. }
  apply Z.eqb_eq in Eeq.
  unfold bind at 1. cbn [assert ret].
  destruct (size - frames >? 0) eqn:Erest.
  - destruct (again (to_ulong (offset + frames)) (size - frames)
                (xfer + frames) b1) as [[rk bk] lk] eqn:Ek.
    cbn [app]. intros [= <- <- <-].
    apply IH in Ek; [|apply Z.gtb_lt in Erest; lia].
    apply (inv_moved offset size rk rx frames [] lk); auto.
    apply PcmFacts.quiet_nil.
  - cbn [app]. intros [= <- <- <-].
    rewrite Z.gtb_ltb in Erest. apply Z.ltb_ge in Erest.
    apply (inv_done offset size (xfer + frames) (to_int rx) rx frames []);
      auto. apply PcmFacts.quiet_nil.
Qed.

Lemma loop_body_inv pcm (special : bool) (step : Z -> M (Z * Z))
    (loop : snd_pcm_state_t -> M (Z * Z)) offset size xfer :
  (forall avail b r b' l,
     0 < avail -> step avail b = (r, b', l) -> inv offset size r l) ->
  (forall state b r b' l,
     loop state b = (r, b', l) -> inv offset size r l) ->
  forall b r b' l,
    bind (snd_pcm_avail_update pcm) (fun avail =>
      if avail <? 0 then leave xfer (- EPIPE)
      else if special then
        if avail =? 0 then leave xfer (- EPIPE) else step avail
      else if (avail =? 0)
              || ((size >=? xfer_align pcm) && (avail <? xfer_align pcm))
      then
        if nonblock SND_PCM_NONBLOCK pcm then leave xfer (- EAGAIN)
        else
          bind (snd_pcm_wait poll pcm (-1)) (fun err =>
            if err <? 0 then leave xfer err
            else bind (snd_pcm_state pcm) loop)
      else step avail) b = (r, b', l) ->
    inv offset size r l.
Proof.
  intros Hstep Hloop b r b' l.
  unfold bind at 1. unfold snd_pcm_avail_update, call_long.
  destruct (fast_avail_update (fast_ops pcm) b) as [a0 b1].
  set (avail := to_long a0).
  set (q := [Call OpAvailUpdate [] avail]).
  assert (quiet q) as Hq by now apply PcmFacts.quiet_call.
  assert (calls_of OpXfer q = []) as Hx by reflexivity.
  assert (forall err,
            (let '(r, b2, l2) := leave xfer err b1 in (r, b2, q ++ l2))
            = (r, b', l) -> inv offset size r l) as Hleave.
  { intros err. unfold leave, bind, emit, ret. intros [= <- <- <-].
    now apply (inv_leave offset size _ q). }
  assert (0 <= avail -> (avail =? 0) = false ->
          (let '(r, b2, l2) := step avail b1 in (r, b2, q ++ l2))
          = (r, b', l) -> inv offset size r l) as Hgo.
  { intros Hge Hnz. destruct (step avail b1) as [[rk bk] lk] eqn:Ek.
    intros [= <- <- <-]. apply (inv_quiet offset size rk q lk); auto.
    apply Z.eqb_neq in Hnz.
    apply (Hstep avail b1 rk bk lk); [lia|exact Ek]. }
  destruct (avail <? 0) eqn:Eneg; [now apply (Hleave (- EPIPE))|].
  apply Z.ltb_ge in Eneg.
  destruct special.
  - destruct (avail =? 0) eqn:Ez; [now apply (Hleave (- EPIPE))|].
    now apply Hgo.
  - destruct ((avail =? 0)
              || ((size >=? xfer_align pcm) && (avail <? xfer_align pcm)))
      eqn:Eblock.
    + destruct (nonblock SND_PCM_NONBLOCK pcm);
        [now apply (Hleave (- EAGAIN))|].
      unfold bind at 1.
      destruct (snd_pcm_wait poll pcm (-1) b1) as [[rw bw] lw] eqn:Ew.
      apply PcmFacts.wait_inv in Ew as (ew & -> & Hqw & Hrange & Hpoll).
      assert (calls_of OpXfer (q ++ lw) = []) as Hxw.
      { change (calls_of OpXfer (q ++ lw)) with (calls_of OpXfer lw).
        rewrite <- Hpoll. apply polls_are_no_transfers. }
      assert (quiet (q ++ lw)) as Hqqw by now apply PcmFacts.quiet_app.
      destruct (ew <? 0) eqn:Eerr.
      * unfold leave, bind, emit, ret. intros [= <- <- <-].
        now apply (inv_leave offset size _ (q ++ lw) ew).
      * unfold bind at 1. unfold snd_pcm_state.
        destruct (fast_state (fast_ops pcm) bw) as [s bs].
        destruct (loop s bs) as [[rl bl] ll] eqn:El.
        intros [= <- <- <-]. apply Hloop in El.
        apply (inv_quiet offset size rl (q ++ lw)
                 ([Call OpState [] (snd_enum_to_int s)] ++ ll)); auto;
        apply (inv_quiet offset size rl
                 [Call OpState [] (snd_enum_to_int s)]); auto;
          now apply PcmFacts.quiet_call.
    + apply orb_false_iff in Eblock as [Ez _]. now apply Hgo.
Qed.

Lemma write_loop_inv : forall fuel pcm areas func state offset size xfer,
  0 < size ->
  forall b r b' l,
    write_areas_loop fuel pcm areas func state offset size xfer b
    = (r, b', l) ->
    inv offset size r l.
Proof.
  induction fuel as [|k IH]; intros pcm areas func state offset size xfer
    Hsize b r b' l.
  { intros [= <- <- <-]. now apply inv_fault. }
  rewrite PcmFacts.write_areas_loop_S.
  apply (loop_body_inv pcm (state_eqb state SND_PCM_STATE_PREPARED)
           (write_transfer pcm areas func
              (write_areas_loop k pcm areas func state) state offset size
              xfer)
           (fun state => write_areas_loop k pcm areas func state offset size
                           xfer)).
  - intros avail b0 r0 b0' l0 Ha.
    apply write_transfer_inv; auto.
    intros offset' size' xfer' b1 r1 b1' l1 Hs. now apply IH.
  - intros state' b0 r0 b0' l0. now apply IH.
Qed.

Lemma read_loop_inv : forall fuel pcm areas func state offset size xfer,
  0 < size ->
  forall b r b' l,
    read_areas_loop fuel pcm areas func state offset size xfer b
    = (r, b', l) ->
    inv offset size r l.
Proof.
  induction fuel as [|k IH]; intros pcm areas func state offset size xfer
    Hsize b r b' l.
  { intros [= <- <- <-]. now apply inv_fault. }
  rewrite PcmFacts.read_areas_loop_S.
  apply (loop_body_inv pcm (state_eqb state SND_PCM_STATE_DRAINING)
           (read_transfer pcm areas func
              (read_areas_loop k pcm areas func state) offset size xfer)
           (fun state => read_areas_loop k pcm areas func state offset size
                           xfer)).
  - intros avail b0 r0 b0' l0 Ha.
    apply read_transfer_inv; auto.
    intros offset' size' xfer' b1 r1 b1' l1 Hs. now apply IH.
  - intros state' b0 r0 b0' l0. now apply IH.
Qed.


Lemma rounded_range size align :
  0 <= size -> 0 <= align -> size <> 0 ->
  (size >? align) && (align =? 0) = false ->
  0 < rounded size align <= size.
Proof.
  intros Hs Ha Hz E0. unfold rounded.
  apply PcmFacts.rounded_size_range; [lia|exact Ha|].
  apply andb_false_iff in E0 as [E0|E0].
  - right. rewrite Z.gtb_ltb in E0. apply Z.ltb_ge in E0. lia.
  - left. now apply Z.eqb_neq.
Qed.

Lemma rounded_zero align : 0 <= align -> rounded 0 align = 0.
Proof.
  intros H. unfold rounded.
  destruct (0 >? align) eqn:E; [apply Z.gtb_lt in E; lia|reflexivity].
Qed.

(** The end of the two functions: the loop, then [return xfer > 0 ? xfer :
    err], after the record [q] of what came before the loop. *)
Lemma loop_end_inv (loop : M (Z * Z)) q offset size b r b' l :
  0 < size ->
  calls_of OpXfer q = [] -> quiet q ->
  (forall b r b' l, loop b = (r, b', l) -> inv offset size r l) ->
  (forall b x e b' l, loop b = (Ret (x, e), b', l) -> loop_post size 0 x e l) ->
  (let '(r1, b1, l1) :=
     bind (if size >? 0 then loop else ret (0, 0))
       (fun r => ret (xfer_result r)) b in
   (r1, b1, q ++ l1)) = (r, b', l) ->
  in_order offset size l
  /\ forall v, r = Ret v -> errors_raised l = [] ->
               frames_moved l = size /\ v = to_long size.
Proof.
  intros Hsize Hx Hq Hinv Hpost. unfold bind, ret.
  assert ((size >? 0) = true) as -> by (apply Z.gtb_lt; lia).
  destruct (loop b) as [[[[x e]|f] b1] l1] eqn:El.
  - intros [= <- <- <-]. rewrite app_nil_r.
    pose proof (Hinv _ _ _ _ El) as Hi.
    apply Hpost in El as (Hxe & _).
    destruct (inv_quiet offset size (Ret (x, e)) q l1 Hx Hq Hi) as [Ho Hc].
    split; [exact Ho|]. intros v [= <-] He.
    pose proof (Hc x e eq_refl He) as Hm. split; [exact Hm|].
    destruct Hq as [Mq _]. rewrite PcmFacts.frames_moved_app, Mq in Hm.
    unfold xfer_result. cbn [fst snd].
    assert (x = size) as -> by lia.
    assert ((size >? 0) = true) as -> by (apply Z.gtb_lt; lia).
    reflexivity.
  - intros [= <- <- <-].
    pose proof (Hinv _ _ _ _ El) as Hi.
    destruct (inv_quiet offset size (Fault f) q l1 Hx Hq Hi) as [Ho _].
    split; [exact Ho|]. intros v [=].
Qed.

Lemma early_end_inv q e offset size (b : B) r b' l :
  calls_of OpXfer q = [] ->
  (let '(r1, b1, l1) := bind (emit (Raise e)) (fun _ => ret e) b in
   (r1, b1, q ++ l1)) = (r, b', l) ->
  in_order offset size l
  /\ forall v, r = Ret v -> errors_raised l = [] ->
               frames_moved l = size /\ v = to_long size.
Proof.
  intros Hx. unfold bind, emit, ret. intros [= <- <- <-].
  destruct (inv_leave offset size (@Fault (Z * Z) AssertFail) q e Hx)
    as [Ho _].
  split; [exact Ho|]. intros v _ He.
  rewrite PcmFacts.errors_raised_app in He.
  destruct (errors_raised q); discriminate He.
Qed.

Lemma write_areas_inv fuel pcm areas offset size func b r b' l :
  0 <= size -> 0 <= xfer_align pcm ->
  write_areas fuel pcm areas offset size func b = (r, b', l) ->
  in_order offset (rounded size (xfer_align pcm)) l
  /\ forall v, r = Ret v -> errors_raised l = [] ->
               frames_moved l = rounded size (xfer_align pcm)
               /\ v = to_long (rounded size (xfer_align pcm)).
Proof.
  intros Hsize Halign. unfold snd_pcm_write_areas.
  unfold bind at 1. unfold snd_pcm_state.
  destruct (fast_state (fast_ops pcm) b) as [s b0].
  set (q := [Call OpState [] (snd_enum_to_int s)]).
  assert (quiet q) as Hq by now apply PcmFacts.quiet_call.
  assert (calls_of OpXfer q = []) as Hx by reflexivity.
  destruct (size =? 0) eqn:Ez.
  { apply Z.eqb_eq in Ez. subst size. rewrite rounded_zero by exact Halign.
    intros [= <- <- <-]. split; [exact I|].
    intros v [= <-] _. split; reflexivity. }
  apply Z.eqb_neq in Ez.
  destruct ((size >? xfer_align pcm) && (xfer_align pcm =? 0)) eqn:E0.
  { intros [= <- <- <-]. split; [exact I|]. intros v [=]. }
  pose proof (rounded_range size (xfer_align pcm) Hsize Halign Ez E0) as Hr.
  fold (rounded size (xfer_align pcm)).
  set (size' := rounded size (xfer_align pcm)) in *.
  destruct s; try (now apply (early_end_inv q));
    apply (loop_end_inv _ q offset size'); auto; try lia;
    intros; first [eapply write_loop_inv | eapply PcmFacts.write_loop_post];
    eauto; lia.
Qed.

Lemma read_areas_inv fuel pcm areas offset size func b r b' l :
  0 <= size -> 0 <= xfer_align pcm ->
  read_areas fuel pcm areas offset size func b = (r, b', l) ->
  in_order offset (rounded size (xfer_align pcm)) l
  /\ forall v, r = Ret v -> errors_raised l = [] ->
               frames_moved l = rounded size (xfer_align pcm)
               /\ v = to_long (rounded size (xfer_align pcm)).
Proof.
  intros Hsize Halign. unfold snd_pcm_read_areas.
  unfold bind at 1. unfold snd_pcm_state.
  destruct (fast_state (fast_ops pcm) b) as [s b0].
  set (q := [Call OpState [] (snd_enum_to_int s)]).
  assert (quiet q) as Hq by now apply PcmFacts.quiet_call.
  assert (calls_of OpXfer q = []) as Hx by reflexivity.
  destruct (size =? 0) eqn:Ez.
  { apply Z.eqb_eq in Ez. subst size. rewrite rounded_zero by exact Halign.
    intros [= <- <- <-]. split; [exact I|].
    intros v [= <-] _. split; reflexivity. }
  apply Z.eqb_neq in Ez.
  destruct ((size >? xfer_align pcm) && (xfer_align pcm =? 0)) eqn:E0.
  { intros [= <- <- <-]. split; [exact I|]. intros v [=]. }
  pose proof (rounded_range size (xfer_align pcm) Hsize Halign Ez E0) as Hr.
  fold (rounded size (xfer_align pcm)).
  set (size' := rounded size (xfer_align pcm)) in *.
  cbv zeta.
  assert (forall q1 b1,
            calls_of OpXfer q1 = [] -> quiet q1 ->
            (let '(r1, b2, l1) :=
               bind (if size' >? 0
                     then read_areas_loop fuel pcm areas func s offset size' 0
                     else ret (0, 0))
                 (fun r => ret (xfer_result r)) b1 in
             (r1, b2, q1 ++ l1)) = (r, b', l) ->
            in_order offset size' l
            /\ forall v, r = Ret v -> errors_raised l = [] ->
                         frames_moved l = size' /\ v = to_long size')
    as Hloop.
  { intros q1 b1 Hx1 Hq1.
    apply (loop_end_inv _ q1 offset size'); auto; try lia;
      intros; first [eapply read_loop_inv | eapply PcmFacts.read_loop_post];
      eauto; lia. }
  destruct s; try (now apply (early_end_inv q)); try (now apply Hloop).
  destruct (start_eqb (start_mode pcm) SND_PCM_START_DATA);
    [|now apply Hloop].
  unfold bind at 1.
  destruct (snd_pcm_start pcm b0) as [[rs bs] ls] eqn:Es.
  apply PcmFacts.start_inv in Es as [[-> ->]|(e0 & -> & -> & He0)].
  { intros [= <- <- <-]. split; [exact I|]. intros v [=]. }
  destruct (e0 <? 0) eqn:Eneg.
  - unfold leave, bind, emit, ret. cbn [app]. intros [= <- <- <-].
    split; [exact I|]. intros v _ He. discriminate He.
  - destruct (bind _ _ bs) as [[r1 b2] l1] eqn:El. intros [= <- <- <-].
    apply (Hloop (q ++ [Call OpStart [] e0]) bs);
      [ reflexivity
      | apply PcmFacts.quiet_app; [exact Hq|now apply PcmFacts.quiet_call]
      | rewrite El; reflexivity ].
Qed.

(** X17: the two transfer functions call the callback over the frames asked
    for (the request rounded down to the alignment when it is above it),
    in order and without a gap: the first call is at [offset], every call
    is for at least one frame and for no more than what is left, and the
    next call is where the one before ends. This holds however the call
    ends. ([size] and [xfer_align] are unsigned: not negative.) *)
Theorem callback_calls_in_order pcm fuel areas offset size func b :
  0 <= size -> 0 <= xfer_align pcm ->
  in_order offset (rounded size (xfer_align pcm))
    (snd (write_areas fuel pcm areas offset size func b))
  /\ in_order offset (rounded size (xfer_align pcm))
       (snd (read_areas fuel pcm areas offset size func b)).
Proof.
  intros Hsize Halign. split.
  - destruct (write_areas fuel pcm areas offset size func b)
      as [[r b'] l] eqn:E.
    now apply write_areas_inv in E as [H _].
  - destruct (read_areas fuel pcm areas offset size func b)
      as [[r b'] l] eqn:E.
    now apply read_areas_inv in E as [H _].
Qed.

(** X18: a transfer that returns without having met an error is complete:
    the callback has taken the whole request (rounded down to the
    alignment when it is above it), and that count is the result. *)
Theorem transfer_without_error_is_whole pcm fuel areas offset size func b :
  0 <= size -> 0 <= xfer_align pcm ->
  (forall r b' l,
     write_areas fuel pcm areas offset size func b = (Ret r, b', l) ->
     errors_raised l = [] ->
     frames_moved l = rounded size (xfer_align pcm)
     /\ r = to_long (rounded size (xfer_align pcm)))
  /\ (forall r b' l,
        read_areas fuel pcm areas offset size func b = (Ret r, b', l) ->
        errors_raised l = [] ->
        frames_moved l = rounded size (xfer_align pcm)
        /\ r = to_long (rounded size (xfer_align pcm))).
Proof.
  intros Hsize Halign. split; intros r b' l E He.
  - apply write_areas_inv in E as [_ H]; auto.
  - apply read_areas_inv in E as [_ H]; auto.
Qed.


(** *** The first pass of a transfer *)

(** X19: a transfer of 0 frames asks the endpoint for its state and
    returns 0 at once: also when the stream is in a state in which a
    transfer of at least one frame is refused, and whatever the
    alignment. *)
Theorem zero_size_transfer pcm fuel areas offset func b :
  let '(s, b0) := fast_state (fast_ops pcm) b in
  write_areas fuel pcm areas offset 0 func b
  = (Ret 0, b0, [Call OpState [] (snd_enum_to_int s)])
  /\ read_areas fuel pcm areas offset 0 func b
     = (Ret 0, b0, [Call OpState [] (snd_enum_to_int s)]).
Proof.
  unfold snd_pcm_write_areas, snd_pcm_read_areas, bind, snd_pcm_state.
  destruct (fast_state (fast_ops pcm) b) as [s b0]. split; reflexivity.
Qed.

Lemma size_checks size align :
  0 < size -> 0 < align ->
  (size =? 0) = false
  /\ (size >? align) && (align =? 0) = false
  /\ ((if size >? align then size - size mod align else size) >? 0) = true.
Proof.
  intros Hs Ha. split; [apply Z.eqb_neq; lia|]. split.
  - apply andb_false_iff. right. apply Z.eqb_neq. lia.
  - apply Z.gtb_lt.
    apply (PcmFacts.rounded_size_range size align); lia.
Qed.

(** X20: a transfer of at least one frame on a stream in state XRUN
    returns [-EPIPE], and on a stream in state OPEN, SETUP or PAUSED it
    returns [-EBADFD], after the one call that asks for the state. A
    stream in state DRAINING can be read but not written:
    [snd_pcm_write_areas] returns [-EBADFD]. *)
Theorem transfer_refused_by_state pcm fuel areas offset size func b s b0 :
  fast_state (fast_ops pcm) b = (s, b0) ->
  0 < size -> 0 < xfer_align pcm ->
  let refused e :=
    (Ret e, b0, [Call OpState [] (snd_enum_to_int s); Raise e]) in
  (s = SND_PCM_STATE_XRUN ->
   write_areas fuel pcm areas offset size func b = refused (- EPIPE)
   /\ read_areas fuel pcm areas offset size func b = refused (- EPIPE))
  /\ (s = SND_PCM_STATE_OPEN \/ s = SND_PCM_STATE_SETUP
      \/ s = SND_PCM_STATE_PAUSED ->
      write_areas fuel pcm areas offset size func b = refused (- EBADFD)
      /\ read_areas fuel pcm areas offset size func b = refused (- EBADFD))
  /\ (s = SND_PCM_STATE_DRAINING ->
      write_areas fuel pcm areas offset size func b = refused (- EBADFD)).
Proof.
  intros Hs Hsize Halign refused.
  destruct (size_checks size (xfer_align pcm) Hsize Halign) as (Ez & E0 & _).
  assert (forall e,
            match s with
            | SND_PCM_STATE_XRUN => e = - EPIPE
            | SND_PCM_STATE_PREPARED | SND_PCM_STATE_RUNNING => False
            | _ => e = - EBADFD
            end ->
            write_areas fuel pcm areas offset size func b = refused e) as Hw.
  { intros e He. subst refused. unfold snd_pcm_write_areas.
    unfold bind at 1. unfold snd_pcm_state. rewrite Hs, Ez, E0.
    destruct s; try contradiction; subst e; reflexivity. }
  assert (forall e,
            match s with
            | SND_PCM_STATE_XRUN => e = - EPIPE
            | SND_PCM_STATE_PREPARED | SND_PCM_STATE_RUNNING
            | SND_PCM_STATE_DRAINING => False
            | _ => e = - EBADFD
            end ->
            read_areas fuel pcm areas offset size func b = refused e) as Hr.
  { intros e He. subst refused. unfold snd_pcm_read_areas.
    unfold bind at 1. unfold snd_pcm_state. rewrite Hs, Ez, E0.
    destruct s; try contradiction; subst e; reflexivity. }
  split; [|split].
  - intros H. split; [apply Hw|apply Hr]; now rewrite H.
  - intros H. split; [apply Hw|apply Hr];
      destruct H as [->|[->| ->]]; reflexivity.
  - intros H. apply Hw. now rewrite H.
Qed.

(** X21: [snd_pcm_read_areas] on a stream in state PREPARED with the start
    mode DATA starts the stream before it asks for frames; when the start
    fails, its error is returned and neither [avail_update] nor the
    callback is called. *)
Theorem read_starts_stream_first pcm fuel areas offset size func b b0 e b1 :
  setup pcm = true -> start_mode pcm = SND_PCM_START_DATA ->
  0 < size -> 0 < xfer_align pcm ->
  fast_state (fast_ops pcm) b = (SND_PCM_STATE_PREPARED, b0) ->
  fast_start (fast_ops pcm) b0 = (e, b1) ->
  (to_int e < 0 ->
   read_areas fuel pcm areas offset size func b
   = (Ret (to_int e), b1,
      [Call OpState [] 2; Call OpStart [] (to_int e); Raise (to_int e)]))
  /\ exists r b' l,
       read_areas fuel pcm areas offset size func b
       = (r, b', Call OpState [] 2 :: Call OpStart [] (to_int e) :: l).
Proof.
  intros Hsetup Hmode Hsize Halign Hs He.
  destruct (size_checks size (xfer_align pcm) Hsize Halign) as (Ez & E0 & _).
  remember (read_areas fuel pcm areas offset size func b) as run eqn:Hrun.
  unfold snd_pcm_read_areas in Hrun.
  unfold bind at 1 in Hrun. unfold snd_pcm_state in Hrun.
  rewrite Hs, Ez, E0 in Hrun. cbv zeta iota in Hrun.
  rewrite Hmode in Hrun. cbn [start_eqb] in Hrun.
  unfold bind at 1 in Hrun.
  unfold snd_pcm_start, bind at 1, assert, call in Hrun.
  rewrite Hsetup in Hrun. cbn [ret] in Hrun. rewrite He in Hrun.
  cbn [app] in Hrun.
  pose proof (CTypesFacts.to_int_range e) as Hr.
  destruct (to_int e <? 0) eqn:Eneg.
  - apply Z.ltb_lt in Eneg.
    unfold leave, bind, emit, ret, xfer_result in Hrun.
    cbn [fst snd app] in Hrun.
    change (0 >? 0) with false in Hrun. cbv iota in Hrun.
    rewrite CTypesFacts.to_long_to_ulong in Hrun.
    2:{ assert (2 ^ 31 < 2 ^ 63) by (apply Z.pow_lt_mono_r; lia). lia. }
    subst run. split; [reflexivity|]. eexists _, _, _. reflexivity.
  - apply Z.ltb_ge in Eneg.
    destruct (bind _ _ b1) as [[r b'] l] in Hrun.
    subst run. split; [intros; lia|]. eexists _, _, _. reflexivity.
Qed.

(** A first pass in which the ring has room for the alignment and the
    request is no more than the alignment: the callback is asked for the
    whole request. *)
Lemma whole_request size avail align :
  0 < size <= align -> align <= avail ->
  (avail <? 0) = false /\ (avail =? 0) = false
  /\ (avail =? 0) || ((size >=? align) && (avail <? align)) = false
  /\ (avail >? align) && (align =? 0) = false
  /\ (if size >? (if avail >? align then avail - avail mod align else avail)
      then (if avail >? align then avail - avail mod align else avail)
      else size) = size
  /\ (size =? 0) = false.
Proof.
  intros Hs Ha.
  assert (align <= (if avail >? align then avail - avail mod align
                    else avail)) as Hav.
  { destruct (avail >? align) eqn:E; [|lia].
    apply Z.gtb_lt in E.
    pose proof (Z.mod_pos_bound avail align ltac:(lia)) as Hm.
    pose proof (Z.div_mod avail align ltac:(lia)) as Hd.
    assert (1 <= avail / align) by (apply Z.div_le_lower_bound; lia).
    nia. }
  split; [apply Z.ltb_ge; lia|]. split; [apply Z.eqb_neq; lia|].
  split.
  { apply orb_false_iff. split; [apply Z.eqb_neq; lia|].
    apply andb_false_iff. right. apply Z.ltb_ge. lia. }
  split; [apply andb_false_iff; right; apply Z.eqb_neq; lia|].
  split; [|apply Z.eqb_neq; lia].
  destruct (size >? _) eqn:E; [|reflexivity].
  apply Z.gtb_lt in E. lia.
Qed.




End Transfer.

(** *** Runs on the example endpoint *)

(** Non-blocking mode, 23 frames asked, 8 frames free at every pass. *)
Lemma nonblocking_transfer_never_polls_witness :
  let pcm := with_mode 1 (fixed_pcm true 32 4 SND_PCM_STATE_RUNNING 0 8) in
  nonblock 1 pcm = true
  /\ calls_of OpPoll
       (snd (snd_pcm_write_areas 1 poll_ready 5 pcm [] 0 23 take_all 0%nat))
     = []
  /\ calls_of OpPoll
       (snd (snd_pcm_read_areas 1 poll_ready 5 pcm [] 0 23 take_all 0%nat))
     = [].
Proof.
  intros pcm. split; [reflexivity|].
  apply (nonblocking_transfer_never_polls 1 poll_ready pcm 5 [] 0 23
           take_all 0%nat).
  reflexivity.
Defined.

Lemma explicit_start_mode_never_starts_witness :
  let pcm := with_start_mode SND_PCM_START_EXPLICIT
               (fixed_pcm true 32 4 SND_PCM_STATE_PREPARED 0 8) in
  calls_of OpStart
    (snd (snd_pcm_write_areas 1 poll_ready 5 pcm [] 0 23 take_all 0%nat))
  = []
  /\ calls_of OpStart
       (snd (snd_pcm_read_areas 1 poll_ready 5 pcm [] 0 23 take_all 0%nat))
     = [].
Proof.
  intros pcm.
  apply (explicit_start_mode_never_starts 1 poll_ready pcm 5 [] 0 23
           take_all 0%nat).
  reflexivity.
Defined.

(** 23 frames asked from offset 100 with an alignment of 4 and 8 frames
    free at every pass: the callback is called at 100, 108 and 116. *)
Lemma callback_calls_in_order_witness :
  let pcm := fixed_pcm true 32 4 SND_PCM_STATE_RUNNING 0 8 in
  let run :=
    snd_pcm_write_areas 1 poll_ready 5 pcm [] 100 23 take_all 0%nat in
  calls_of OpXfer (snd run)
  = [Call OpXfer [100; 8] 8; Call OpXfer [108; 8] 8; Call OpXfer [116; 4] 4]
  /\ in_order 100 (rounded 23 (xfer_align pcm)) (snd run).
Proof.
  intros pcm run. split; [reflexivity|].
  apply (callback_calls_in_order 1 poll_ready pcm 5 [] 100 23 take_all
           0%nat); simpl; lia.
Defined.

Lemma transfer_without_error_is_whole_witness :
  let pcm := fixed_pcm true 32 4 SND_PCM_STATE_RUNNING 0 8 in
  let run :=
    snd_pcm_write_areas 1 poll_ready 5 pcm [] 100 23 take_all 0%nat in
  errors_raised (snd run) = []
  /\ frames_moved (snd run) = rounded 23 (xfer_align pcm)
  /\ fst (fst run) = Ret (to_long (rounded 23 (xfer_align pcm))).
Proof.
  intros pcm run. split; [reflexivity|].
  destruct (proj1 (transfer_without_error_is_whole 1 poll_ready pcm 5 []
                     100 23 take_all 0%nat ltac:(lia) ltac:(simpl; lia))
              20 (snd (fst run)) (snd run) eq_refl eq_refl) as [Hm Hr].
  split; [exact Hm|]. now rewrite <- Hr.
Defined.

Lemma transfer_refused_by_state_witness :
  let pcm := fixed_pcm true 32 4 SND_PCM_STATE_DRAINING 0 8 in
  snd_pcm_write_areas 1 poll_ready 5 pcm [] 0 23 take_all 0%nat
  = (Ret (- EBADFD), 1%nat, [Call OpState [] 6; Raise (- EBADFD)])
  /\ fst (fst (snd_pcm_read_areas 1 poll_ready 5 pcm [] 0 23 take_all 0%nat))
     = Ret 20.
Proof.
  intros pcm. split; [|reflexivity].
  apply (transfer_refused_by_state 1 poll_ready pcm 5 [] 0 23 take_all
           0%nat SND_PCM_STATE_DRAINING 1%nat eq_refl ltac:(lia)
           ltac:(simpl; lia)).
  reflexivity.
Defined.

(** An endpoint in state PREPARED whose [start] entry fails with -5. *)
Lemma read_starts_stream_first_witness :
  let pcm := fixed_pcm true 32 4 SND_PCM_STATE_PREPARED (-5) 8 in
  snd_pcm_read_areas 1 poll_ready 5 pcm [] 0 3 take_all 0%nat
  = (Ret (to_int (-5)), 2%nat,
     [Call OpState [] 2; Call OpStart [] (to_int (-5));
      Raise (to_int (-5))]).
Proof.
  intros pcm.
  apply (read_starts_stream_first 1 poll_ready pcm 5 [] 0 3 take_all
           0%nat 1%nat (-5) 2%nat eq_refl eq_refl ltac:(lia)
           ltac:(simpl; lia) eq_refl eq_refl).
  reflexivity.
Defined.



End TransferFacts.


(** ** More on channel areas: formats of whole bytes *)

Module BufferFacts.

Import Area Pcm Examples.

Lemma byte_of_div v i : 0 <= i -> byte_of (v / 256) i = byte_of v (i + 1).
Proof.
  intros Hi. unfold byte_of.
  rewrite Z.pow_add_r, Z.pow_1_r by lia.
  rewrite Z.div_div by (try apply Z.pow_pos_nonneg; lia).
  now rewrite Z.mul_comm.
Qed.

Lemma byte_of_range v i : 0 <= byte_of v i < 256.
Proof. unfold byte_of. apply Z.mod_pos_bound. lia. Qed.

(** What a store of [n] bytes leaves in the memory. *)
Lemma load_store_le n : forall (m : gmap Z Z) p v q,
  load (store_le n m p v) q
  = if (p <=? q) && (q <? p + Z.of_nat n) then byte_of v (q - p)
    else load m q.
Proof.
  induction n as [|n IH]; intros m p v q.
  - simpl store_le.
    destruct (Z.leb_spec p q), (Z.ltb_spec q (p + Z.of_nat 0)); simpl;
      try reflexivity; lia.
  - cbn [store_le]. rewrite IH.
    destruct (Z.leb_spec (p + 1) q), (Z.ltb_spec q (p + 1 + Z.of_nat n)),
      (Z.leb_spec p q), (Z.ltb_spec q (p + Z.of_nat (S n)));
      cbn [andb]; try lia.
    + replace (q - p) with (q - (p + 1) + 1) by lia.
      apply byte_of_div. lia.
    + apply AreaFacts.load_store_ne. lia.
    + assert (q = p) as -> by lia. rewrite AreaFacts.load_store_eq.
      unfold byte_of. replace (p - p) with 0 by lia.
      now rewrite Z.pow_0_r, Z.div_1_r.
    + apply AreaFacts.load_store_ne. lia.
Qed.

(** What the loop over samples leaves in the memory, when the samples do
    not overlap. *)
Lemma load_silence_samples k n : forall (m : gmap Z Z) dst step sil q,
  0 < Z.of_nat k <= step ->
  load (silence_samples k n m dst step sil) q
  = if in_samples dst step (Z.of_nat k) (Z.of_nat n) q
    then byte_of sil ((q - dst) mod step)
    else load m q.
Proof.
  induction n as [|n IH]; intros m dst step sil q Hk.
  - cbn [silence_samples]. unfold in_samples.
    destruct (Z.leb_spec 0 (q - dst)); cbn [andb]; [|reflexivity].
    destruct (Z.ltb_spec ((q - dst) / step) (Z.of_nat 0)); cbn [andb];
      [|reflexivity].
    assert (0 <= (q - dst) / step) by (apply Z.div_pos; lia). lia.
  - cbn [silence_samples]. rewrite IH by exact Hk. rewrite load_store_le.
    unfold in_samples.
    replace (q - (dst + step)) with (q - dst + (-1) * step) by lia.
    rewrite Z.div_add, Z.mod_add by lia.
    replace (q - dst + -1 * step) with (q - dst - step) by lia.
    replace ((q - dst) / step + -1) with ((q - dst) / step - 1) by lia.
    set (d := q - dst).
    pose proof (Z.mod_pos_bound d step ltac:(lia)) as Hm.
    pose proof (Z.div_mod d step ltac:(lia)) as Hd.
    destruct (Z_lt_le_dec d 0) as [Hneg|Hpos].
    + assert (d / step < 0) by (apply Z.div_lt_upper_bound; lia).
      destruct (Z.leb_spec 0 (d - step)), (Z.leb_spec 0 d),
        (Z.leb_spec dst q), (Z.ltb_spec q (dst + Z.of_nat k));
        cbn [andb]; try lia; reflexivity.
    + destruct (Z_lt_le_dec d step) as [Hlt|Hge].
      * assert (d / step = 0) as Hq0 by (apply Z.div_small; lia).
        assert (d mod step = d) as Hm0 by (apply Z.mod_small; lia).
        rewrite Hq0, Hm0.
        destruct (Z.leb_spec 0 (d - step)), (Z.leb_spec 0 d),
          (Z.ltb_spec 0 (Z.of_nat (S n))),
          (Z.leb_spec dst q), (Z.ltb_spec q (dst + Z.of_nat k)),
          (Z.ltb_spec d (Z.of_nat k));
          cbn [andb]; try lia; reflexivity.
      * assert (1 <= d / step) by (apply Z.div_le_lower_bound; lia).
        destruct (Z.leb_spec 0 (d - step)), (Z.leb_spec 0 d),
          (Z.ltb_spec (d / step - 1) (Z.of_nat n)),
          (Z.ltb_spec (d / step) (Z.of_nat (S n))),
          (Z.ltb_spec (d mod step) (Z.of_nat k)),
          (Z.leb_spec dst q), (Z.ltb_spec q (dst + Z.of_nat k));
          cbn [andb]; try lia; try reflexivity.
        all: exfalso; nia.
Qed.

(** The loop over double words is the loop over samples of 8 bytes. *)
Lemma silence_dwords_samples n : forall (m : gmap Z Z) dst sil,
  silence_dwords n m dst sil
  = (silence_samples 8 n m dst 8 sil, dst + 8 * Z.of_nat n).
Proof.
  induction n as [|n IH]; intros m dst sil.
  - cbn. f_equal. lia.
  - cbn [silence_dwords silence_samples]. rewrite IH. f_equal. lia.
Qed.

(** Samples that follow one another without a gap fill an interval. *)
Lemma in_samples_block dst k n q :
  0 < k -> 0 <= n ->
  in_samples dst k k n q = (dst <=? q) && (q <? dst + k * n).
Proof.
  intros Hk Hn. unfold in_samples.
  pose proof (Z.mod_pos_bound (q - dst) k Hk) as Hm.
  pose proof (Z.div_mod (q - dst) k ltac:(lia)) as Hd.
  assert ((q - dst) / k < n -> q - dst < k * n) as H1.
  { intros H.
    assert (k * ((q - dst) / k + 1) <= k * n)
      by (apply Z.mul_le_mono_nonneg_l; lia).
    lia. }
  assert (n <= (q - dst) / k -> k * n <= q - dst) as H2.
  { intros H.
    assert (k * n <= k * ((q - dst) / k))
      by (apply Z.mul_le_mono_nonneg_l; lia).
    lia. }
  destruct (Z.leb_spec 0 (q - dst)), (Z.ltb_spec ((q - dst) / k) n),
    (Z.ltb_spec ((q - dst) mod k) k), (Z.leb_spec dst q),
    (Z.ltb_spec q (dst + k * n)); cbn [andb]; try reflexivity; lia.
Qed.

Lemma mod_of_mod_8 a k g : k * g = 8 -> 0 < k -> (a mod 8) mod k = a mod k.
Proof.
  intros Hg Hk.
  rewrite (Z.div_mod a 8) at 2 by lia.
  replace (8 * (a / 8) + a mod 8) with (a mod 8 + (g * (a / 8)) * k)
    by (rewrite <- Hg; ring).
  now rewrite Z.mod_add by lia.
Qed.

(** The fast path of [snd_pcm_area_silence]: double words, then the
    samples that are left, fill the interval of the samples. *)
Lemma fast_fill k g (m : gmap Z Z) dst sil D n1 samples q :
  k * g = 8 -> 0 < k -> 0 <= D -> 0 <= n1 -> 0 <= samples ->
  8 * D + k * n1 = k * samples ->
  replicated k sil ->
  (if in_samples (dst + 8 * D) k k n1 q
   then byte_of sil ((q - (dst + 8 * D)) mod k)
   else if in_samples dst 8 8 D q then byte_of sil ((q - dst) mod 8)
        else load m q)
  = if in_samples dst k k samples q then byte_of sil ((q - dst) mod k)
    else load m q.
Proof.
  intros Hg Hk HD Hn1 Hs Hsum Hrep.
  rewrite !in_samples_block by lia.
  assert ((q - (dst + 8 * D)) mod k = (q - dst) mod k) as ->.
  { replace (q - (dst + 8 * D)) with (q - dst + (- (g * D)) * k) by nia.
    now rewrite Z.mod_add by lia. }
  assert (byte_of sil ((q - dst) mod 8) = byte_of sil ((q - dst) mod k))
    as ->.
  { rewrite Hrep by (apply Z.mod_pos_bound; lia).
    now rewrite (mod_of_mod_8 _ k g). }
  destruct (Z.leb_spec (dst + 8 * D) q),
    (Z.ltb_spec q (dst + 8 * D + k * n1)),
    (Z.leb_spec dst q), (Z.ltb_spec q (dst + 8 * D)),
    (Z.ltb_spec q (dst + k * samples)); cbn [andb]; try reflexivity; lia.
Qed.

Section Formats.

Variable snd_pcm_format_physical_width : Z -> Z.
Variable snd_pcm_format_silence_64 : Z -> Z.

Local Abbreviation area_silence :=
  (snd_pcm_area_silence snd_pcm_format_physical_width
     snd_pcm_format_silence_64).

(** [snd_pcm_area_silence] on a format of whole bytes, byte by byte of
    the memory. *)
Lemma area_silence_spec (m : gmap Z Z) a offset samples format k s :
  k = 1 \/ k = 2 \/ k = 4 \/ k = 8 ->
  snd_pcm_format_physical_width format = 8 * k ->
  addr a <> 0 ->
  step a = 8 * s -> k <= s ->
  0 <= samples -> samples * (8 * k) < 2 ^ 32 ->
  replicated k (snd_pcm_format_silence_64 format) ->
  exists m',
    area_silence m a offset samples format = (Ret 0, m')
    /\ forall q,
         load m' q
         = if in_samples (snd_pcm_channel_area_addr a offset) s k samples q
           then byte_of (snd_pcm_format_silence_64 format)
                  ((q - snd_pcm_channel_area_addr a offset) mod s)
           else load m q.
Proof.
  intros Hk Hw Ha Hstep Hks Hn Hfit Hrep.
  set (sil := snd_pcm_format_silence_64 format) in *.
  set (dst := snd_pcm_channel_area_addr a offset).
  assert (2 ^ 32 = 4294967296) as Hpow by reflexivity.
  assert (to_uint (8 * k) = 8 * k) as Hu.
  { apply CTypesFacts.to_uint_small. lia. }
  assert (step a / 8 = s) as Hs8.
  { rewrite Hstep. replace (8 * s) with (s * 8) by lia.
    apply Z.div_mul. lia. }
  assert (exists kn : nat, Z.of_nat kn = k) as (kn & Hkn)
    by (exists (Z.to_nat k); lia).
  unfold snd_pcm_area_silence. fold dst. fold sil. rewrite Hw, Hu, Hs8.
  assert ((addr a =? 0) = false) as -> by now apply Z.eqb_neq.
  assert ((8 * k =? 0) = false) as -> by (apply Z.eqb_neq; lia).
  rewrite andb_false_r.
  destruct (step a =? 8 * k) eqn:Efast.
  - (* samples that touch one another *)
    apply Z.eqb_eq in Efast. assert (s = k) as -> by lia.
    rewrite (CTypesFacts.to_uint_small (samples * (8 * k))) by lia.
    set (D := samples * (8 * k) / 64).
    assert (0 <= D) as HD by (apply Z.div_pos; nia).
    assert (8 * D <= samples * k) as HDle.
    { subst D. pose proof (Z.mul_div_le (samples * (8 * k)) 64 ltac:(lia)).
      lia. }
    assert (exists g, k * g = 8) as (g & Hg).
    { destruct Hk as [->|[->|[->| ->]]];
        [exists 8|exists 4|exists 2|exists 1]; reflexivity. }
    assert (to_uint (D * 64) / (8 * k) = D * g) as Hdone.
    { rewrite CTypesFacts.to_uint_small by nia.
      replace (D * 64) with (D * g * (8 * k)) by nia.
      apply Z.div_mul. lia. }
    rewrite Hdone.
    assert (0 <= samples - D * g) as Hleft by nia.
    rewrite (CTypesFacts.to_uint_small (samples - D * g)) by nia.
    rewrite silence_dwords_samples.
    rewrite Z2Nat.id by exact HD.
    cbn [andb].
    assert (forall m1,
              (if samples - D * g =? 0 then (Ret 0, m1)
               else
                 match 8 * k with
                 | 4 =>
                     (Ret 0,
                      silence_nibbles (Z.to_nat (samples - D * g)) m1
                        (dst + 8 * D) (first a mod 8) k (step a mod 8)
                        (Z.land sil 240) (Z.land sil 15))
                 | 8 =>
                     (Ret 0,
                      silence_samples 1 (Z.to_nat (samples - D * g)) m1
                        (dst + 8 * D) k sil)
                 | 16 =>
                     (Ret 0,
                      silence_samples 2 (Z.to_nat (samples - D * g)) m1
                        (dst + 8 * D) k sil)
                 | 32 =>
                     (Ret 0,
                      silence_samples 4 (Z.to_nat (samples - D * g)) m1
                        (dst + 8 * D) k sil)
                 | 64 =>
                     (Ret 0,
                      silence_samples 8 (Z.to_nat (samples - D * g)) m1
                        (dst + 8 * D) k sil)
                 | _ => (@Fault Z AssertFail, m1)
                 end)
              = (Ret 0,
                 silence_samples kn (Z.to_nat (samples - D * g)) m1
                   (dst + 8 * D) k sil)) as Hend.
    { intros m1. destruct (samples - D * g =? 0) eqn:Ez.
      - apply Z.eqb_eq in Ez. rewrite Ez. reflexivity.
      - destruct Hk as [->|[->|[->| ->]]];
          rewrite <- (Nat2Z.id kn), Hkn; reflexivity. }
    rewrite Hend. eexists. split; [reflexivity|].
    intros q. rewrite load_silence_samples by lia.
    rewrite load_silence_samples by lia.
    rewrite Hkn, !Z2Nat.id by lia.
    change (Z.of_nat 8) with 8.
    apply (fast_fill k g); auto; try lia; nia.
  - (* one store for every sample *)
    cbn [andb]. change (Z.to_nat 0) with 0%nat. cbn [silence_dwords].
    assert (forall m1,
              match 8 * k with
              | 4 =>
                  (Ret 0,
                   silence_nibbles (Z.to_nat samples) m1 dst
                     (first a mod 8) s (step a mod 8)
                     (Z.land sil 240) (Z.land sil 15))
              | 8 => (Ret 0, silence_samples 1 (Z.to_nat samples) m1 dst s sil)
              | 16 => (Ret 0, silence_samples 2 (Z.to_nat samples) m1 dst s sil)
              | 32 => (Ret 0, silence_samples 4 (Z.to_nat samples) m1 dst s sil)
              | 64 => (Ret 0, silence_samples 8 (Z.to_nat samples) m1 dst s sil)
              | _ => (@Fault Z AssertFail, m1)
              end
              = (Ret 0, silence_samples kn (Z.to_nat samples) m1 dst s sil))
      as Hend.
    { intros m1. destruct Hk as [->|[->|[->| ->]]];
        rewrite <- (Nat2Z.id kn), Hkn; reflexivity. }
    rewrite Hend. eexists. split; [reflexivity|].
    intros q. rewrite load_silence_samples by lia.
    now rewrite Hkn, Z2Nat.id by lia.
Qed.

(** The address [q] is byte [j] of sample [i]. *)
Lemma in_samples_at dst s k n i j :
  0 < k <= s -> 0 <= i < n -> 0 <= j < k ->
  in_samples dst s k n (dst + i * s + j) = true
  /\ (dst + i * s + j - dst) mod s = j.
Proof.
  intros Hk Hi Hj.
  replace (dst + i * s + j - dst) with (j + i * s) by lia.
  unfold in_samples.
  replace (dst + i * s + j - dst) with (j + i * s) by lia.
  rewrite Z.div_add, Z.mod_add by lia.
  rewrite Z.div_small, Z.mod_small by lia.
  split; [|reflexivity].
  destruct (Z.leb_spec 0 (j + i * s)), (Z.ltb_spec (0 + i) n),
    (Z.ltb_spec j k); cbn [andb]; try reflexivity; nia.
Qed.

Lemma in_samples_inv dst s k n q :
  0 < k <= s ->
  in_samples dst s k n q = true ->
  exists i j, 0 <= i < n /\ 0 <= j < k /\ q = dst + i * s + j.
Proof.
  intros Hk H. unfold in_samples in H.
  apply andb_true_iff in H as [H H3]. apply andb_true_iff in H as [H1 H2].
  apply Z.leb_le in H1. apply Z.ltb_lt in H2, H3.
  pose proof (Z.mod_pos_bound (q - dst) s ltac:(lia)) as Hm.
  pose proof (Z.div_mod (q - dst) s ltac:(lia)) as Hd.
  exists ((q - dst) / s), ((q - dst) mod s).
  split; [|split; lia].
  split; [apply Z.div_pos; lia|lia].
Qed.

(** X24: for a format whose samples are 1, 2, 4 or 8 whole bytes and an
    area whose samples lie [s] whole bytes apart without overlapping,
    [snd_pcm_area_silence] returns 0, writes into byte [j] of every one of
    the [samples] samples from [dst_offset] on the byte [j] of the silence
    pattern, and leaves every other byte of the memory as it was. This
    holds on the path of 64 bit stores (samples that touch: [s = k]) and
    on the path of one store per sample. (The count of bits
    [samples * width] fits the [unsigned int] in which it is computed; the
    pattern of 64 bits repeats the sample.) *)
Theorem area_silence_whole_bytes (m : gmap Z Z) a offset samples format k s :
  k = 1 \/ k = 2 \/ k = 4 \/ k = 8 ->
  snd_pcm_format_physical_width format = 8 * k ->
  addr a <> 0 ->
  step a = 8 * s -> k <= s ->
  0 <= samples -> samples * (8 * k) < 2 ^ 32 ->
  replicated k (snd_pcm_format_silence_64 format) ->
  let dst := snd_pcm_channel_area_addr a offset in
  exists m',
    area_silence m a offset samples format = (Ret 0, m')
    /\ (forall i j, 0 <= i < samples -> 0 <= j < k ->
                    load m' (dst + i * s + j)
                    = byte_of (snd_pcm_format_silence_64 format) j)
    /\ (forall q,
          (forall i j, 0 <= i < samples -> 0 <= j < k ->
                       q <> dst + i * s + j) ->
          load m' q = load m q).
Proof.
  intros Hk Hw Ha Hstep Hks Hn Hfit Hrep dst.
  destruct (area_silence_spec m a offset samples format k s)
    as (m' & Hrun & Hload); auto.
  assert (0 < k <= s) as Hk' by lia.
  exists m'. split; [exact Hrun|]. fold dst in Hload. split.
  - intros i j Hi Hj. rewrite Hload.
    destruct (in_samples_at dst s k samples i j Hk' Hi Hj) as [-> ->].
    reflexivity.
  - intros q Hq. rewrite Hload.
    destruct (in_samples dst s k samples q) eqn:E; [|reflexivity].
    apply in_samples_inv in E as (i & j & Hi & Hj & ->); [|exact Hk'].
    now destruct (Hq i j).
Qed.

Local Abbreviation areas_silence :=
  (snd_pcm_areas_silence snd_pcm_format_physical_width
     snd_pcm_format_silence_64).
Local Abbreviation areas_silence_loop :=
  (areas_silence_loop snd_pcm_format_physical_width
     snd_pcm_format_silence_64).
Local Abbreviation per_channel :=
  (per_channel_silence snd_pcm_format_physical_width
     snd_pcm_format_silence_64).

(** *** Areas that are not neighbours in one buffer *)

(** A run that ends after its first area. *)
Lemma silence_run_alone areas i channels begin width :
  areas !! i = Some begin ->
  0 < channels ->
  (channels = 1
   \/ exists a', areas !! S i = Some a'
                 /\ ~ (addr a' = addr begin /\ step a' = step begin
                       /\ first a' = to_uint (first begin + width))) ->
  silence_run (Z.to_nat channels) areas i channels 0
    (addr begin) (step begin) width = Ret 1.
Proof.
  intros Hi Hc Hnext.
  destruct (Z.to_nat channels) as [|k] eqn:Ek; [lia|].
  cbn [silence_run]. change (0 + 1) with 1.
  destruct (channels - 1 =? 0) eqn:E1; [reflexivity|].
  apply Z.eqb_neq in E1.
  destruct Hnext as [->|(a' & Ha' & Hsep)]; [lia|].
  replace (S i - 1)%nat with i by lia. rewrite Ha', Hi.
  destruct (addr a' =? addr begin) eqn:Ea; [|reflexivity].
  destruct (step a' =? step begin) eqn:Es; [|reflexivity].
  destruct (first a' =? to_uint (first begin + width)) eqn:Ef;
    [|reflexivity].
  apply Z.eqb_eq in Ea, Es, Ef. now destruct Hsep.
Qed.

Lemma silence_loop_one_by_one areas offset frames format :
  (forall j a a',
     areas !! j = Some a -> areas !! S j = Some a' ->
     ~ (addr a' = addr a /\ step a' = step a
        /\ first a' = to_uint (first a
                               + snd_pcm_format_physical_width format))) ->
  forall fuel i channels (m : gmap Z Z),
    Z.of_nat (length areas) = Z.of_nat i + channels -> 0 <= channels ->
    (Z.to_nat channels < fuel)%nat ->
    areas_silence_loop fuel m areas i offset channels frames format
    = per_channel m (drop i areas) offset frames format.
Proof.
  intros Hsep. induction fuel as [|k IH]; intros i channels m Hlen Hc Hfuel;
    [lia|].
  cbn [Area.areas_silence_loop].
  destruct (channels >? 0) eqn:Epos.
  - apply Z.gtb_lt in Epos.
    destruct (areas !! i) as [begin|] eqn:Hi.
    2:{ apply lookup_ge_None in Hi. lia. }
    rewrite (drop_S _ _ _ Hi). cbn [per_channel_silence].
    rewrite (silence_run_alone areas i channels begin); auto.
    + change ((1 >? 1) && _) with false. cbv iota.
      destruct (snd_pcm_area_silence _ _ m begin offset (to_uint frames)
                  format) as [[err|f] m1]; [|reflexivity].
      destruct (err <? 0); [reflexivity|].
      apply IH; lia.
    + destruct (Z.eq_dec channels 1) as [->|Hne]; [now left|right].
      destruct (areas !! S i) as [a'|] eqn:Hi'.
      * exists a'. split; [reflexivity|]. now apply (Hsep i).
      * apply lookup_ge_None in Hi'. lia.
  - rewrite Z.gtb_ltb in Epos. apply Z.ltb_ge in Epos.
    assert (channels = 0) as -> by lia.
    rewrite drop_ge by lia. reflexivity.
Qed.

(** X26: when no area is the neighbour of the one before it in the list
    (the same buffer and step, and the first sample one sample further),
    [snd_pcm_areas_silence] makes one call of [snd_pcm_area_silence] for
    every area, in the order of the list, with the offset and the count
    of frames it was given: nothing is collapsed. *)
Theorem separate_areas_silenced_one_by_one (m : gmap Z Z) areas offset frames
    format :
  (forall j a a',
     areas !! j = Some a -> areas !! S j = Some a' ->
     ~ (addr a' = addr a /\ step a' = step a
        /\ first a' = to_uint (first a
                               + snd_pcm_format_physical_width format))) ->
  areas_silence m areas offset (Z.of_nat (length areas)) frames format
  = per_channel m areas offset frames format.
Proof.
  intros Hsep. unfold snd_pcm_areas_silence.
  rewrite (silence_loop_one_by_one areas offset frames format Hsep); auto;
    lia.
Qed.


End Formats.

(** *** Areas over application buffers *)

Lemma lookup_map_seq {A : Type} (f : nat -> A) n : forall start i,
  (i < n)%nat -> map f (seq start n) !! i = Some (f (start + i)%nat).
Proof.
  induction n as [|n IH]; intros start i Hi; [lia|].
  destruct i as [|i]; cbn.
  - now rewrite Nat.add_0_r.
  - rewrite IH by lia. f_equal. f_equal. lia.
Qed.

Lemma lookup_interleaved base first0 w c j :
  (j < c)%nat ->
  interleaved base first0 w c !! j
  = Some {| addr := base; first := first0 + Z.of_nat j * w;
            step := Z.of_nat c * w |}.
Proof. intros H. unfold interleaved. now rewrite lookup_map_seq. Qed.

Lemma length_interleaved base first0 w c :
  length (interleaved base first0 w c) = c.
Proof. unfold interleaved. now rewrite length_map, length_seq. Qed.

(** The run over interleaved channels takes them all. *)
Lemma silence_run_interleaved base first0 w c :
  0 <= first0 -> 0 <= w -> first0 + Z.of_nat c * w < 2 ^ 32 ->
  forall fuel i channels1 chns,
    (i + Z.to_nat channels1 = c)%nat -> 0 < channels1 ->
    (Z.to_nat channels1 <= fuel)%nat ->
    silence_run fuel (interleaved base first0 w c) i channels1 chns
      base (Z.of_nat c * w) w = Ret (chns + channels1).
Proof.
  intros Hf Hw Hfit.
  induction fuel as [|k IH]; intros i channels1 chns Hi Hc Hfuel; [lia|].
  cbn [silence_run].
  destruct (channels1 - 1 =? 0) eqn:E1.
  { apply Z.eqb_eq in E1. f_equal. lia. }
  apply Z.eqb_neq in E1.
  replace (S i - 1)%nat with i by lia.
  rewrite !lookup_interleaved by lia. cbn [addr step first].
  rewrite !Z.eqb_refl. cbn [negb orb].
  assert (to_uint (first0 + Z.of_nat i * w + w)
          = first0 + Z.of_nat (S i) * w) as ->.
  { rewrite CTypesFacts.to_uint_small; [lia|]. split; [nia|].
    assert (Z.of_nat i * w + w <= Z.of_nat c * w) by nia. lia. }
  rewrite Z.eqb_refl. cbn [negb].
  rewrite IH by lia. f_equal. lia.
Qed.

(** One more channel of an interleaved buffer silenced: [d] is the
    distance of a byte from the first sample, [S] the size of a frame,
    [k] the size of a sample, and the channels before [j] are done. *)
Lemma channel_step d S c k j frames :
  0 < k -> 0 <= j -> (j + 1) * k <= S -> S = c * k ->
  let done j :=
    (0 <=? d) && (d / S <? frames) && (d mod S <? j * k) in
  in_samples (j * k) S k frames d || done j = done (j + 1)
  /\ (in_samples (j * k) S k frames d = true ->
      (d - j * k) mod S = d mod k).
Proof.
  intros Hk Hj HS HSc done. unfold in_samples. subst done. cbv beta.
  assert (0 < S) as HSpos by nia.
  pose proof (Z.mod_pos_bound d S HSpos) as Hm.
  pose proof (Z.div_mod d S ltac:(lia)) as Hd.
  set (t := d / S) in *. set (r := d mod S) in *.
  destruct (Z_lt_le_dec r (j * k)) as [Hlt|Hge].
  - (* the byte belongs to a channel before [j] *)
    assert ((d - j * k) / S = t - 1 /\ (d - j * k) mod S = r - j * k + S)
      as [Hq Hr].
    { assert ((d - j * k) = S * (t - 1) + (r - j * k + S)) as E by lia.
      split; symmetry;
        [apply (Z.div_unique _ _ _ (r - j * k + S))
        |apply (Z.mod_unique _ _ (t - 1))]; lia. }
    rewrite Hq, Hr.
    assert ((r - j * k + S <? k) = false) as -> by (apply Z.ltb_ge; lia).
    rewrite andb_false_r. cbn [orb]. split; [|discriminate].
    destruct (Z.leb_spec 0 d), (Z.ltb_spec t frames),
      (Z.ltb_spec r (j * k)), (Z.ltb_spec r ((j + 1) * k)); cbn [andb];
      try reflexivity; lia.
  - assert ((d - j * k) / S = t /\ (d - j * k) mod S = r - j * k)
      as [Hq Hr].
    { assert ((d - j * k) = S * t + (r - j * k)) as E by lia.
      split; symmetry;
        [apply (Z.div_unique _ _ _ (r - j * k))
        |apply (Z.mod_unique _ _ t)]; lia. }
    rewrite Hq, Hr.
    assert (0 <= d - j * k <-> 0 <= d) as Hsign.
    { split; intros H.
      - lia.
      - assert (0 <= t) by (apply Z.div_pos; lia). nia. }
    split.
    + destruct (Z.leb_spec 0 (d - j * k)), (Z.leb_spec 0 d),
        (Z.ltb_spec t frames), (Z.ltb_spec (r - j * k) k),
        (Z.ltb_spec r (j * k)), (Z.ltb_spec r ((j + 1) * k)); cbn [andb orb];
        try reflexivity; lia.
    + intros H. apply andb_true_iff in H as [_ H]. apply Z.ltb_lt in H.
      apply Z.mod_unique with (q := c * t + j); [lia|].
      rewrite Hd, HSc. ring.
Qed.

Lemma in_samples_shift a b s k n q :
  in_samples (a + b) s k n q = in_samples b s k n (q - a).
Proof.
  unfold in_samples. now replace (q - a - b) with (q - (a + b)) by lia.
Qed.

Section Interleaved.

Variable snd_pcm_format_physical_width : Z -> Z.
Variable snd_pcm_format_silence_64 : Z -> Z.

Local Abbreviation area_silence :=
  (snd_pcm_area_silence snd_pcm_format_physical_width
     snd_pcm_format_silence_64).
Local Abbreviation areas_silence :=
  (snd_pcm_areas_silence snd_pcm_format_physical_width
     snd_pcm_format_silence_64).
Local Abbreviation per_channel :=
  (per_channel_silence snd_pcm_format_physical_width
     snd_pcm_format_silence_64).

Variables (m : gmap Z Z) (base f0 k offset frames format : Z) (c : nat).

Hypothesis Hk : k = 1 \/ k = 2 \/ k = 4 \/ k = 8.
Hypothesis Hw : snd_pcm_format_physical_width format = 8 * k.
Hypothesis Hbase : base <> 0.
Hypothesis Hc : (2 <= c)%nat.
Hypothesis Hf0 : 0 <= f0.
Hypothesis Hoffset : 0 <= offset.
Hypothesis Hframes : 0 <= frames.
Hypothesis Hfirst : 8 * f0 + Z.of_nat c * (8 * k) < 2 ^ 32.
Hypothesis Hfit : frames * Z.of_nat c * (8 * k) < 2 ^ 32.
Hypothesis Hofit : offset * Z.of_nat c < 2 ^ 64.
Hypothesis Hrep : replicated k (snd_pcm_format_silence_64 format).

Local Abbreviation sil := (snd_pcm_format_silence_64 format).
Local Abbreviation areas := (interleaved base (8 * f0) (8 * k) c).
Local Abbreviation dst := (base + f0 + offset * (Z.of_nat c * k)).
Local Abbreviation channel j :=
  {| addr := base; first := 8 * f0 + Z.of_nat j * (8 * k);
     step := Z.of_nat c * (8 * k) |}.
Local Abbreviation done j d :=
  ((0 <=? d) && (d / (Z.of_nat c * k) <? frames)
   && (d mod (Z.of_nat c * k) <? j * k)).

Lemma kpos : 0 < k.
Proof. destruct Hk as [->|[->|[->| ->]]]; lia. Qed.

Lemma channel_addr j :
  snd_pcm_channel_area_addr (channel j) offset = dst + Z.of_nat j * k.
Proof.
  unfold snd_pcm_channel_area_addr. cbn [addr first step].
  replace (8 * f0 + Z.of_nat j * (8 * k)) with ((f0 + Z.of_nat j * k) * 8)
    by lia.
  replace (offset * (Z.of_nat c * (8 * k)))
    with (offset * (Z.of_nat c * k) * 8) by lia.
  rewrite !Z.div_mul by lia. lia.
Qed.

Lemma frames_fit : frames * (8 * k) < 2 ^ 32 /\ frames < 2 ^ 32.
Proof.
  pose proof kpos.
  assert (frames * (8 * k) <= frames * Z.of_nat c * (8 * k)) by nia.
  split; [lia|]. nia.
Qed.

Lemma per_channel_interleaved : forall n j (m' : gmap Z Z),
  (j + n = c)%nat ->
  (forall q, load m' q
             = if done (Z.of_nat j) (q - dst)
               then byte_of sil ((q - dst) mod k) else load m q) ->
  exists m2,
    per_channel m' (map (fun j => channel j) (seq j n)) offset frames format
    = (Ret 0, m2)
    /\ forall q, load m2 q
                 = if done (Z.of_nat c) (q - dst)
                   then byte_of sil ((q - dst) mod k) else load m q.
Proof.
  pose proof kpos as Hkp. destruct frames_fit as [Hff Hfr].
  induction n as [|n IH]; intros j m' Hj Hm'.
  - exists m'. split; [reflexivity|].
    assert (j = c) as -> by lia. exact Hm'.
  - cbn [seq map per_channel_silence].
    rewrite (CTypesFacts.to_uint_small frames) by lia.
    destruct (area_silence_spec snd_pcm_format_physical_width
                snd_pcm_format_silence_64 m' (channel j) offset frames
                format k (Z.of_nat c * k))
      as (m'' & -> & Hload); auto; try (cbn [addr step]; nia).
    change (0 <? 0) with false. cbv iota.
    apply IH; [lia|].
    intros q. rewrite Hload, channel_addr, in_samples_shift, Hm'.
    replace (q - (dst + Z.of_nat j * k)) with (q - dst - Z.of_nat j * k)
      by lia.
    destruct (channel_step (q - dst) (Z.of_nat c * k) (Z.of_nat c) k
                (Z.of_nat j) frames) as [Hor Hval]; try lia; try nia.
    replace (Z.of_nat (S j)) with (Z.of_nat j + 1) by lia.
    rewrite <- Hor.
    destruct (in_samples (Z.of_nat j * k) (Z.of_nat c * k) k frames
                (q - dst)) eqn:E; cbn [orb]; [|reflexivity].
    now rewrite Hval.
Qed.

Lemma done_all d :
  done (Z.of_nat c) d = (0 <=? d) && (d <? frames * (Z.of_nat c * k)).
Proof.
  pose proof kpos as Hkp.
  assert (0 < Z.of_nat c * k) as HS by nia.
  pose proof (Z.mod_pos_bound d _ HS) as Hm.
  pose proof (Z.div_mod d (Z.of_nat c * k) ltac:(lia)) as Hd.
  assert (d / (Z.of_nat c * k) < frames -> d < frames * (Z.of_nat c * k))
    as H1.
  { intros H.
    assert ((Z.of_nat c * k) * (d / (Z.of_nat c * k) + 1)
            <= (Z.of_nat c * k) * frames)
      by (apply Z.mul_le_mono_nonneg_l; lia).
    lia. }
  assert (frames <= d / (Z.of_nat c * k) -> frames * (Z.of_nat c * k) <= d)
    as H2.
  { intros H.
    assert ((Z.of_nat c * k) * frames
            <= (Z.of_nat c * k) * (d / (Z.of_nat c * k)))
      by (apply Z.mul_le_mono_nonneg_l; lia).
    lia. }
  destruct (Z.leb_spec 0 d), (Z.ltb_spec (d / (Z.of_nat c * k)) frames),
    (Z.ltb_spec (d mod (Z.of_nat c * k)) (Z.of_nat c * k)),
    (Z.ltb_spec d (frames * (Z.of_nat c * k))); cbn [andb];
    try reflexivity; lia.
Qed.

Lemma silence_loop_done fuel (m' : gmap Z Z) l i :
  (0 < fuel)%nat ->
  areas_silence_loop snd_pcm_format_physical_width
    snd_pcm_format_silence_64 fuel m' l i offset 0 frames format
  = (Ret 0, m').
Proof. intros H. destruct fuel; [lia|reflexivity]. Qed.

(** The two ways of silencing [frames] frames of [c >= 2] interleaved
    channels of [k] bytes. *)
Lemma interleaved_silence :
  exists m1 m2,
    areas_silence m areas offset (Z.of_nat c) frames format = (Ret 0, m1)
    /\ per_channel m areas offset frames format = (Ret 0, m2)
    /\ forall q,
         load m1 q = load m2 q
         /\ load m1 q
            = if (dst <=? q) && (q <? dst + frames * (Z.of_nat c * k))
              then byte_of sil ((q - dst) mod k) else load m q.
Proof.
  pose proof kpos as Hkp. destruct frames_fit as [Hff Hfr].
  assert (2 ^ 32 = 4294967296) as Hpow by reflexivity.
  (* one call for every channel *)
  destruct (per_channel_interleaved c 0%nat m ltac:(lia)) as (m2 & H2 & L2).
  { intros q. change (Z.of_nat 0 * k) with 0.
    pose proof (Z.mod_pos_bound (q - dst) (Z.of_nat c * k) ltac:(nia)).
    destruct (Z.ltb_spec ((q - dst) mod (Z.of_nat c * k)) 0); [lia|].
    now rewrite andb_false_r. }
  (* one call for the run *)
  assert (exists m1,
            areas_silence m areas offset (Z.of_nat c) frames format
            = (Ret 0, m1)
            /\ forall q,
                 load m1 q
                 = if in_samples dst k k (frames * Z.of_nat c) q
                   then byte_of sil ((q - dst) mod k) else load m q)
    as (m1 & H1 & L1).
  { unfold snd_pcm_areas_silence.
    rewrite Nat2Z.id. cbn [areas_silence_loop].
    assert ((Z.of_nat c >? 0) = true) as -> by (apply Z.gtb_lt; lia).
    rewrite lookup_interleaved by lia. cbn [addr step first].
    rewrite Hw.
    rewrite (silence_run_interleaved base (8 * f0) (8 * k) c)
      by (rewrite ?Nat2Z.id; lia).
    rewrite Z.add_0_l.
    assert ((Z.of_nat c >? 1) = true) as -> by (apply Z.gtb_lt; lia).
    rewrite (CTypesFacts.to_uint_small (Z.of_nat c * (8 * k))) by nia.
    rewrite Z.eqb_refl. cbn [andb].
    rewrite (CTypesFacts.to_uint_small (8 * k)) by lia.
    rewrite (CTypesFacts.to_ulong_small (offset * Z.of_nat c)) by nia.
    rewrite (CTypesFacts.to_uint_small (frames * Z.of_nat c)) by nia.
    destruct (area_silence_spec snd_pcm_format_physical_width
                snd_pcm_format_silence_64 m
                {| addr := base; first := 8 * f0 + Z.of_nat 0 * (8 * k);
                   step := 8 * k |}
                (offset * Z.of_nat c) (frames * Z.of_nat c) format k k)
      as (m1 & -> & Hload); auto; try (cbn [addr step]; nia).
    change (0 <? 0) with false. cbv iota.
    rewrite Z.sub_diag, silence_loop_done by lia.
    exists m1. split; [reflexivity|].
    intros q. rewrite Hload.
    assert (snd_pcm_channel_area_addr
              {| addr := base; first := 8 * f0 + Z.of_nat 0 * (8 * k);
                 step := 8 * k |} (offset * Z.of_nat c) = dst) as ->.
    { unfold snd_pcm_channel_area_addr. cbn [addr first step].
      replace (8 * f0 + Z.of_nat 0 * (8 * k)) with (f0 * 8) by lia.
      replace (offset * Z.of_nat c * (8 * k))
        with (offset * (Z.of_nat c * k) * 8) by lia.
      rewrite !Z.div_mul by lia. lia. }
    reflexivity. }
  exists m1, m2. split; [exact H1|]. split; [exact H2|].
  intros q. rewrite L1, L2, done_all.
  rewrite in_samples_block by nia.
  replace (k * (frames * Z.of_nat c)) with (frames * (Z.of_nat c * k))
    by lia.
  assert ((0 <=? q - dst) = (dst <=? q)) as ->.
  { destruct (Z.leb_spec 0 (q - dst)), (Z.leb_spec dst q);
      try reflexivity; lia. }
  assert ((q - dst <? frames * (Z.of_nat c * k))
          = (q <? dst + frames * (Z.of_nat c * k))) as ->.
  { destruct (Z.ltb_spec (q - dst) (frames * (Z.of_nat c * k))),
      (Z.ltb_spec q (dst + frames * (Z.of_nat c * k)));
      try reflexivity; lia. }
  split; reflexivity.
Qed.

End Interleaved.

Section Buffers.

Context {B : Type}.
Variable snd_pcm_format_physical_width : Z -> Z.
Variable snd_pcm_format_silence_64 : Z -> Z.

Implicit Types pcm : @snd_pcm_t B.

Local Abbreviation areas_silence :=
  (snd_pcm_areas_silence snd_pcm_format_physical_width
     snd_pcm_format_silence_64).
Local Abbreviation per_channel :=
  (per_channel_silence snd_pcm_format_physical_width
     snd_pcm_format_silence_64).

Lemma areas_from_buf_loop_map pcm buf n : forall start,
  areas_from_buf_loop n pcm buf (Z.of_nat start)
  = map (fun j => {| addr := buf;
                     first := to_uint (Z.of_nat j * sample_bits pcm);
                     step := to_uint (frame_bits pcm) |}) (seq start n).
Proof.
  induction n as [|n IH]; intros start; [reflexivity|].
  cbn [areas_from_buf_loop seq map]. f_equal.
  replace (Z.of_nat start + 1) with (Z.of_nat (S start)) by lia.
  apply IH.
Qed.

(** The areas that [snd_pcm_areas_from_buf] makes for a buffer of
    interleaved samples of [k] bytes. *)
Lemma areas_from_buf_interleaved pcm channels buf k :
  0 < k -> 0 <= channels ->
  sample_bits pcm = 8 * k -> frame_bits pcm = channels * (8 * k) ->
  channels * (8 * k) < 2 ^ 32 ->
  snd_pcm_areas_from_buf pcm channels buf
  = interleaved buf (8 * 0) (8 * k) (Z.to_nat channels).
Proof.
  intros Hk Hc Hs Hf Hfit. unfold snd_pcm_areas_from_buf, interleaved.
  change 0 with (Z.of_nat 0) at 1. rewrite areas_from_buf_loop_map.
  apply map_ext_in. intros j Hj. apply in_seq in Hj.
  rewrite Hs, Hf, Z2Nat.id by lia.
  rewrite !CTypesFacts.to_uint_small by nia. reflexivity.
Qed.

(** X25: a buffer of [channels >= 2] interleaved channels of samples of
    1, 2, 4 or 8 whole bytes, seen through the areas that
    [snd_pcm_areas_from_buf] makes for it. [snd_pcm_areas_silence]
    collapses these areas into one run, and the memory it leaves is, byte
    for byte, the memory that one call of [snd_pcm_area_silence] for every
    channel leaves: the bytes of the [frames] frames from [offset] on hold
    the silence pattern, and every other byte is as before. (The counts
    fit the [unsigned int] and [unsigned long] in which they are
    computed; the pattern of 64 bits repeats the sample.) *)
Theorem interleaved_buffer_silenced pcm channels buf (m : gmap Z Z)
    offset frames format k :
  k = 1 \/ k = 2 \/ k = 4 \/ k = 8 ->
  snd_pcm_format_physical_width format = 8 * k ->
  sample_bits pcm = 8 * k -> frame_bits pcm = channels * (8 * k) ->
  2 <= channels -> channels * (8 * k) < 2 ^ 32 ->
  buf <> 0 ->
  0 <= offset -> offset * channels < 2 ^ 64 ->
  0 <= frames -> frames * channels * (8 * k) < 2 ^ 32 ->
  replicated k (snd_pcm_format_silence_64 format) ->
  let areas := snd_pcm_areas_from_buf pcm channels buf in
  let dst := buf + offset * (channels * k) in
  exists m1 m2,
    areas_silence m areas offset channels frames format = (Ret 0, m1)
    /\ per_channel m areas offset frames format = (Ret 0, m2)
    /\ forall q,
         load m1 q = load m2 q
         /\ load m1 q
            = if (dst <=? q) && (q <? dst + frames * (channels * k))
              then byte_of (snd_pcm_format_silence_64 format)
                     ((q - dst) mod k)
              else load m q.
Proof.
  intros Hk Hw Hs Hf Hc Hcfit Hbuf Ho Hofit Hfr Hfit Hrep areas dst.
  assert (0 < k) as Hkp by (destruct Hk as [->|[->|[->| ->]]]; lia).
  subst areas. rewrite (areas_from_buf_interleaved pcm channels buf k)
    by (auto; lia).
  destruct (interleaved_silence snd_pcm_format_physical_width
              snd_pcm_format_silence_64 m buf 0 k offset frames format
              (Z.to_nat channels))
    as (m1 & m2 & H1 & H2 & L); auto; try lia;
    rewrite ?Z2Nat.id by lia; try lia.
  rewrite Z2Nat.id in H1, L by lia.
  exists m1, m2. split; [exact H1|]. split; [exact H2|].
  intros q. specialize (L q).
  replace (buf + 0 + offset * (channels * k)) with dst in L
    by (subst dst; lia).
  exact L.
Qed.

Lemma areas_from_bufs_shape pcm : forall n bufs areas,
  areas_from_bufs_loop n pcm bufs = Ret areas ->
  length areas = n
  /\ forall j a, areas !! j = Some a ->
                 bufs !! j = Some (addr a) /\ first a = 0
                 /\ step a = to_uint (sample_bits pcm).
Proof.
  induction n as [|n IH]; intros bufs areas H.
  - injection H as <-. split; [reflexivity|]. intros j a Hj.
    now rewrite lookup_nil in Hj.
  - cbn [areas_from_bufs_loop] in H. destruct bufs as [|p rest];
      [discriminate|].
    destruct (areas_from_bufs_loop n pcm rest) as [l|f] eqn:E;
      [|discriminate].
    injection H as <-. destruct (IH rest l E) as [Hlen Hl].
    split; [cbn; now rewrite Hlen|].
    intros [|j] a Hj.
    + injection Hj as <-. now repeat split.
    + now apply Hl.
Qed.

(** X27: [snd_pcm_areas_from_bufs] makes one area for every channel, over
    the buffer of that channel, with the first sample at bit 0 and the
    samples one sample apart; on these areas [snd_pcm_areas_silence]
    collapses nothing: it makes one call of [snd_pcm_area_silence] for
    every channel, in order. (The width of the format is not 0.) *)
Theorem planar_buffers_silenced_one_by_one pcm channels bufs areas
    (m : gmap Z Z) offset frames format :
  0 <= channels ->
  snd_pcm_areas_from_bufs pcm channels bufs = Ret areas ->
  to_uint (snd_pcm_format_physical_width format) <> 0 ->
  Z.of_nat (length areas) = channels
  /\ (forall j a, areas !! j = Some a ->
                  bufs !! j = Some (addr a) /\ first a = 0
                  /\ step a = to_uint (sample_bits pcm))
  /\ areas_silence m areas offset channels frames format
     = per_channel m areas offset frames format.
Proof.
  intros Hc Hareas Hw.
  destruct (areas_from_bufs_shape pcm _ _ _ Hareas) as [Hlen Hshape].
  split; [lia|]. split; [exact Hshape|].
  unfold snd_pcm_areas_silence.
  rewrite (silence_loop_one_by_one snd_pcm_format_physical_width
             snd_pcm_format_silence_64 areas offset frames format);
    auto; try lia.
  intros j a a' Ha Ha' (_ & _ & Hfirst).
  destruct (Hshape _ _ Ha) as (_ & Hf & _).
  destruct (Hshape _ _ Ha') as (_ & Hf' & _).
  rewrite Hf, Hf', Z.add_0_l in Hfirst. now apply Hw.
Qed.

End Buffers.

(** *** Copies between areas *)

Lemma load_le_bytes n : forall (m : gmap Z Z) p j,
  (forall q, 0 <= load m q < 256) ->
  0 <= j < Z.of_nat n ->
  byte_of (load_le n m p) j = load m (p + j).
Proof.
  induction n as [|n IH]; intros m p j Hm Hj; [lia|].
  cbn [load_le].
  destruct (Z.eq_dec j 0) as [->|Hnz].
  - unfold byte_of. rewrite Z.pow_0_r, Z.div_1_r.
    replace (load m p + 256 * load_le n m (p + 1))
      with (load m p + load_le n m (p + 1) * 256) by lia.
    rewrite Z.mod_add, Z.add_0_r by lia. apply Z.mod_small, Hm.
  - replace j with (j - 1 + 1) at 1 by lia.
    rewrite <- byte_of_div by lia.
    replace (load m p + 256 * load_le n m (p + 1))
      with (load m p + load_le n m (p + 1) * 256) by lia.
    rewrite Z.div_add by lia.
    rewrite (Z.div_small (load m p)) by apply Hm.
    rewrite Z.add_0_l, IH by (auto; lia).
    f_equal. lia.
Qed.

Lemma store_le_bytes n (m : gmap Z Z) p v :
  (forall q, 0 <= load m q < 256) ->
  forall q, 0 <= load (store_le n m p v) q < 256.
Proof.
  intros Hm q. rewrite load_store_le.
  destruct ((p <=? q) && (q <? p + Z.of_nat n));
    [apply byte_of_range|apply Hm].
Qed.

(** What [memcpy] leaves in the memory. *)
Lemma load_store_bytes (m0 : gmap Z Z) n : forall (m : gmap Z Z) dst src q,
  load (store_bytes m dst (load_bytes n m0 src)) q
  = if (dst <=? q) && (q <? dst + Z.of_nat n)
    then load m0 (src + (q - dst)) mod 256
    else load m q.
Proof.
  induction n as [|n IH]; intros m dst src q.
  - cbn [load_bytes store_bytes].
    destruct (Z.leb_spec dst q), (Z.ltb_spec q (dst + Z.of_nat 0));
      cbn [andb]; try reflexivity; lia.
  - cbn [load_bytes store_bytes]. rewrite IH.
    destruct (Z.leb_spec (dst + 1) q),
      (Z.ltb_spec q (dst + 1 + Z.of_nat n)),
      (Z.leb_spec dst q), (Z.ltb_spec q (dst + Z.of_nat (S n)));
      cbn [andb]; try lia.
    + do 2 f_equal. lia.
    + apply AreaFacts.load_store_ne. lia.
    + assert (q = dst) as -> by lia. rewrite AreaFacts.load_store_eq.
      do 2 f_equal. lia.
    + apply AreaFacts.load_store_ne. lia.
Qed.

Lemma load_memcpy (m : gmap Z Z) dst src n q :
  (forall p, 0 <= load m p < 256) ->
  load (memcpy m dst src n) q
  = if (dst <=? q) && (q <? dst + Z.of_nat n)
    then load m (src + (q - dst))
    else load m q.
Proof.
  intros Hm. unfold memcpy. rewrite load_store_bytes.
  destruct ((dst <=? q) && (q <? dst + Z.of_nat n)); [|reflexivity].
  apply Z.mod_small, Hm.
Qed.

(** The samples are the first one and the ones after it. *)
Lemma in_samples_step dst s k n q :
  0 < k <= s -> 0 <= n ->
  in_samples dst s k (n + 1) q
  = ((dst <=? q) && (q <? dst + k)) || in_samples (dst + s) s k n q.
Proof.
  intros Hk Hn. unfold in_samples.
  replace (q - (dst + s)) with (q - dst + (-1) * s) by lia.
  rewrite Z.div_add, Z.mod_add by lia.
  replace (q - dst + -1 * s) with (q - dst - s) by lia.
  set (d := q - dst).
  pose proof (Z.mod_pos_bound d s ltac:(lia)) as Hm.
  pose proof (Z.div_mod d s ltac:(lia)) as Hd.
  destruct (Z_lt_le_dec d 0) as [Hneg|Hpos].
  - destruct (Z.leb_spec 0 (d - s)), (Z.leb_spec 0 d),
      (Z.leb_spec dst q); cbn [andb orb]; try lia; reflexivity.
  - destruct (Z_lt_le_dec d s) as [Hlt|Hge].
    + assert (d / s = 0) as Hq0 by (apply Z.div_small; lia).
      assert (d mod s = d) as Hm0 by (apply Z.mod_small; lia).
      rewrite Hq0, Hm0.
      destruct (Z.leb_spec 0 (d - s)), (Z.leb_spec 0 d),
        (Z.ltb_spec 0 (n + 1)),
        (Z.leb_spec dst q), (Z.ltb_spec q (dst + k)),
        (Z.ltb_spec d k);
        cbn [andb orb]; try lia; reflexivity.
    + assert (1 <= d / s) by (apply Z.div_le_lower_bound; lia).
      destruct (Z.leb_spec 0 (d - s)), (Z.leb_spec 0 d),
        (Z.ltb_spec (d / s + -1) n),
        (Z.ltb_spec (d / s) (n + 1)),
        (Z.ltb_spec (d mod s) k),
        (Z.leb_spec dst q), (Z.ltb_spec q (dst + k));
        cbn [andb orb]; try lia; try reflexivity.
      all: exfalso; nia.
Qed.

Lemma in_samples_none dst s k q : 0 < s -> in_samples dst s k 0 q = false.
Proof.
  intros Hs. unfold in_samples.
  destruct (Z.leb_spec 0 (q - dst)); cbn [andb]; [|reflexivity].
  destruct (Z.ltb_spec ((q - dst) / s) 0); cbn [andb]; [|reflexivity].
  assert (0 <= (q - dst) / s) by (apply Z.div_pos; lia). lia.
Qed.

Lemma source_of_step src ss dst sd q :
  0 < sd ->
  source_of (src + ss) ss (dst + sd) sd q = source_of src ss dst sd q.
Proof.
  intros Hs. unfold source_of.
  replace (q - (dst + sd)) with (q - dst + (-1) * sd) by lia.
  rewrite Z.div_add, Z.mod_add by lia. lia.
Qed.

(** What the loop over samples of [snd_pcm_area_copy] leaves in the
    memory, when no sample of the destination overlaps another one or a
    sample of the source. *)
Lemma load_copy_samples kn ss sd n : forall (m : gmap Z Z) src dst q,
  0 < Z.of_nat kn <= sd ->
  (forall p, 0 <= load m p < 256) ->
  (forall i j i' j',
     0 <= i < Z.of_nat n -> 0 <= j < Z.of_nat kn ->
     0 <= i' < Z.of_nat n -> 0 <= j' < Z.of_nat kn ->
     src + i * ss + j <> dst + i' * sd + j') ->
  load (copy_samples kn n m src ss dst sd) q
  = if in_samples dst sd (Z.of_nat kn) (Z.of_nat n) q
    then load m (source_of src ss dst sd q)
    else load m q.
Proof.
  induction n as [|n IH]; intros m src dst q Hk Hm Hsep.
  - cbn [copy_samples]. change (Z.of_nat 0) with 0.
    now rewrite in_samples_none by lia.
  - cbn [copy_samples].
    rewrite IH; [|exact Hk|now apply store_le_bytes|].
    2:{ intros i j i' j' Hi Hj Hi' Hj'.
        specialize (Hsep (i + 1) j (i' + 1) j'). lia. }
    replace (Z.of_nat (S n)) with (Z.of_nat n + 1) by lia.
    rewrite (in_samples_step dst) by lia.
    rewrite source_of_step by lia.
    destruct (in_samples (dst + sd) sd (Z.of_nat kn) (Z.of_nat n) q)
      eqn:Ein.
    + rewrite orb_true_r. rewrite load_store_le.
      destruct (in_samples_inv (dst + sd) sd (Z.of_nat kn) (Z.of_nat n) q)
        as (i & j & Hi & Hj & Hq); auto.
      assert (source_of src ss dst sd q = src + (i + 1) * ss + j) as Hsrc.
      { unfold source_of.
        replace (q - dst) with (j + (i + 1) * sd) by lia.
        rewrite Z.div_add, Z.mod_add by lia.
        rewrite Z.div_small, Z.mod_small by lia. lia. }
      rewrite Hsrc.
      destruct (Z.leb_spec dst (src + (i + 1) * ss + j)),
        (Z.ltb_spec (src + (i + 1) * ss + j) (dst + Z.of_nat kn));
        cbn [andb]; try reflexivity.
      exfalso.
      apply (Hsep (i + 1) j 0 (src + (i + 1) * ss + j - dst)); lia.
    + rewrite orb_false_r. rewrite load_store_le.
      destruct (Z.leb_spec dst q), (Z.ltb_spec q (dst + Z.of_nat kn));
        cbn [andb]; try reflexivity.
      rewrite load_le_bytes by (auto; lia).
      f_equal. unfold source_of.
      rewrite Z.div_small, Z.mod_small by lia. lia.
Qed.

Section Copy.

Variable snd_pcm_format_physical_width : Z -> Z.
Variable snd_pcm_format_silence_64 : Z -> Z.

Local Abbreviation area_copy :=
  (snd_pcm_area_copy snd_pcm_format_physical_width
     snd_pcm_format_silence_64).

(** [snd_pcm_area_copy] on a format of whole bytes, byte by byte of the
    memory. *)
Lemma area_copy_spec (m : gmap Z Z) d doff s soff samples format k ss sd :
  k = 1 \/ k = 2 \/ k = 4 \/ k = 8 ->
  snd_pcm_format_physical_width format = 8 * k ->
  addr s <> 0 -> addr d <> 0 ->
  step s = 8 * ss -> step d = 8 * sd -> k <= sd ->
  0 <= samples -> samples * (8 * k) < 2 ^ 32 ->
  (forall p, 0 <= load m p < 256) ->
  (forall i j i' j',
     0 <= i < samples -> 0 <= j < k -> 0 <= i' < samples -> 0 <= j' < k ->
     snd_pcm_channel_area_addr s soff + i * ss + j
     <> snd_pcm_channel_area_addr d doff + i' * sd + j') ->
  exists m',
    area_copy m d doff s soff samples format = (Ret 0, m')
    /\ forall q,
         load m' q
         = if in_samples (snd_pcm_channel_area_addr d doff) sd k samples q
           then load m (source_of (snd_pcm_channel_area_addr s soff) ss
                          (snd_pcm_channel_area_addr d doff) sd q)
           else load m q.
Proof.
  intros Hk Hw Hs Hd Hss Hsd Hksd Hn Hfit Hm Hsep.
  set (S0 := snd_pcm_channel_area_addr s soff) in *.
  set (D0 := snd_pcm_channel_area_addr d doff) in *.
  assert (2 ^ 32 = 4294967296) as Hpow by reflexivity.
  assert (2 ^ 64 = 18446744073709551616) as Hpow' by reflexivity.
  assert (0 < k) as Hkp by (destruct Hk as [->|[->|[->| ->]]]; lia).
  assert (to_uint (8 * k) = 8 * k) as Hu
    by (apply CTypesFacts.to_uint_small; lia).
  assert (to_ulong (8 * k) = 8 * k) as Hul
    by (apply CTypesFacts.to_ulong_small; lia).
  assert (step s / 8 = ss) as Hs8.
  { rewrite Hss. replace (8 * ss) with (ss * 8) by lia.
    apply Z.div_mul. lia. }
  assert (step d / 8 = sd) as Hd8.
  { rewrite Hsd. replace (8 * sd) with (sd * 8) by lia.
    apply Z.div_mul. lia. }
  assert (exists kn : nat, Z.of_nat kn = k) as (kn & Hkn)
    by (exists (Z.to_nat k); lia).
  unfold snd_pcm_area_copy. fold S0. fold D0. rewrite Hw, Hu, Hul, Hs8, Hd8.
  assert ((addr s =? 0) = false) as -> by now apply Z.eqb_neq.
  assert ((addr d =? 0) = false) as -> by now apply Z.eqb_neq.
  assert ((8 * k =? 0) = false) as -> by (apply Z.eqb_neq; lia).
  rewrite andb_false_r.
  destruct ((step s =? 8 * k) && (step d =? 8 * k)) eqn:Efast.
  - (* samples that touch one another, on both sides: one memcpy *)
    apply andb_true_iff in Efast as [E1 E2].
    apply Z.eqb_eq in E1, E2.
    assert (ss = k) as -> by lia. assert (sd = k) as -> by lia.
    rewrite (CTypesFacts.to_uint_small (samples * (8 * k))) by lia.
    assert (samples * (8 * k) / 8 = samples * k) as ->.
    { replace (samples * (8 * k)) with (samples * k * 8) by lia.
      apply Z.div_mul. lia. }
    rewrite (CTypesFacts.to_ulong_small (samples * k * 8)) by lia.
    assert (samples * k * 8 / (8 * k) = samples) as ->.
    { replace (samples * k * 8) with (samples * (8 * k)) by lia.
      apply Z.div_mul. lia. }
    rewrite Z.sub_diag. change (to_uint 0 =? 0) with true. cbn [andb].
    eexists. split; [reflexivity|].
    intros q. rewrite load_memcpy by exact Hm.
    rewrite in_samples_block by lia.
    rewrite Z2Nat.id by nia.
    replace (k * samples) with (samples * k) by lia.
    destruct ((D0 <=? q) && (q <? D0 + samples * k)); [|reflexivity].
    f_equal. unfold source_of.
    pose proof (Z.div_mod (q - D0) k ltac:(lia)). lia.
  - (* one load and one store for every sample *)
    cbn [andb]. change (Z.to_nat 0) with 0%nat.
    change (memcpy m D0 S0 0) with m.
    assert (match 8 * k with
            | 4 =>
                (Ret 0,
                 copy_nibbles (Z.to_nat samples) m
                   S0 (first s mod 8) ss (step s mod 8)
                   D0 (first d mod 8) sd (step d mod 8))
            | 8 => (Ret 0, copy_samples 1 (Z.to_nat samples) m S0 ss D0 sd)
            | 16 => (Ret 0, copy_samples 2 (Z.to_nat samples) m S0 ss D0 sd)
            | 32 => (Ret 0, copy_samples 4 (Z.to_nat samples) m S0 ss D0 sd)
            | 64 => (Ret 0, copy_samples 8 (Z.to_nat samples) m S0 ss D0 sd)
            | _ => (@Fault Z AssertFail, m)
            end
            = (Ret 0, copy_samples kn (Z.to_nat samples) m S0 ss D0 sd))
      as Hend.
    { destruct Hk as [->|[->|[->| ->]]];
        rewrite <- (Nat2Z.id kn), Hkn; reflexivity. }
    rewrite Hend. eexists. split; [reflexivity|].
    intros q. rewrite load_copy_samples; rewrite ?Hkn, ?Z2Nat.id by lia;
      auto; lia.
Qed.

(** X28: for a format whose samples are 1, 2, 4 or 8 whole bytes, a
    source and a destination that are not NULL, samples that lie whole
    bytes apart, and destination samples that overlap neither one another
    nor a sample of the source, [snd_pcm_area_copy] returns 0; after it
    byte [j] of sample [i] of the destination holds what byte [j] of
    sample [i] of the source held, and every other byte of the memory is
    as it was. This holds on the path of one [memcpy] (samples that touch
    on both sides) and on the path of one load and store per sample. (The
    cells of the memory hold bytes; the count of bits [samples * width]
    fits the [unsigned int] in which it is computed.) *)
Theorem area_copy_whole_bytes (m : gmap Z Z) d doff s soff samples format
    k ss sd :
  k = 1 \/ k = 2 \/ k = 4 \/ k = 8 ->
  snd_pcm_format_physical_width format = 8 * k ->
  addr s <> 0 -> addr d <> 0 ->
  step s = 8 * ss -> step d = 8 * sd -> k <= sd ->
  0 <= samples -> samples * (8 * k) < 2 ^ 32 ->
  (forall p, 0 <= load m p < 256) ->
  (forall i j i' j',
     0 <= i < samples -> 0 <= j < k -> 0 <= i' < samples -> 0 <= j' < k ->
     snd_pcm_channel_area_addr s soff + i * ss + j
     <> snd_pcm_channel_area_addr d doff + i' * sd + j') ->
  exists m',
    area_copy m d doff s soff samples format = (Ret 0, m')
    /\ (forall i j, 0 <= i < samples -> 0 <= j < k ->
          load m' (snd_pcm_channel_area_addr d doff + i * sd + j)
          = load m (snd_pcm_channel_area_addr s soff + i * ss + j))
    /\ (forall q,
          (forall i j, 0 <= i < samples -> 0 <= j < k ->
             q <> snd_pcm_channel_area_addr d doff + i * sd + j) ->
          load m' q = load m q).
Proof.
  intros Hk Hw Hs Hd Hss Hsd Hksd Hn Hfit Hm Hsep.
  assert (0 < k) as Hkp by (destruct Hk as [->|[->|[->| ->]]]; lia).
  destruct (area_copy_spec m d doff s soff samples format k ss sd)
    as (m' & Hrun & Hload); auto.
  exists m'. split; [exact Hrun|]. split.
  - intros i j Hi Hj. rewrite Hload.
    destruct (in_samples_at (snd_pcm_channel_area_addr d doff) sd k
                samples i j) as [-> _]; try lia.
    f_equal. unfold source_of.
    replace (snd_pcm_channel_area_addr d doff + i * sd + j
             - snd_pcm_channel_area_addr d doff) with (j + i * sd) by lia.
    rewrite Z.div_add, Z.mod_add by lia.
    rewrite Z.div_small, Z.mod_small by lia. lia.
  - intros q Hq. rewrite Hload.
    destruct (in_samples _ sd k samples q) eqn:Ein; [|reflexivity].
    apply in_samples_inv in Ein as (i & j & Hi & Hj & ->); [|lia].
    now destruct (Hq i j).
Qed.

Lemma copy_nibbles_once (m : gmap Z Z) src sb ss sbs dst db ds dbs :
  copy_nibbles 1 m src sb ss sbs dst db ds dbs
  = store m dst
      (Z.lor (if negb (db =? 0) then Z.land (load m dst) 240
              else Z.land (load m dst) 15)
             (if negb (sb =? 0) then Z.land (load m src) 15
              else Z.land (load m src) 240)).
Proof.
  cbn [copy_nibbles].
  destruct (sb + sbs =? 8), (db + dbs =? 8); reflexivity.
Qed.

Lemma nibbles_of_byte x :
  0 <= x < 256 ->
  Z.lor (Z.land x 240) (Z.land x 15) = x
  /\ Z.lor (Z.land x 15) (Z.land x 240) = x.
Proof.
  intros Hx. rewrite <- !Z.land_lor_distr_r.
  change (Z.lor 240 15) with 255. change (Z.lor 15 240) with 255.
  rewrite <- AreaFacts.byte_mask, Z.mod_small by exact Hx. now split.
Qed.


Local Abbreviation areas_copy :=
  (snd_pcm_areas_copy snd_pcm_format_physical_width
     snd_pcm_format_silence_64).
Local Abbreviation copy_loop :=
  (areas_copy_loop snd_pcm_format_physical_width
     snd_pcm_format_silence_64).
Local Abbreviation per_channel :=
  (per_channel_copy snd_pcm_format_physical_width
     snd_pcm_format_silence_64).

(** A run of [snd_pcm_areas_copy] that ends before or after its first
    pair of areas. *)
Lemma copy_run_alone dsts srcs i channels s0 d0 width :
  srcs !! i = Some s0 -> dsts !! i = Some d0 ->
  0 < channels ->
  (channels = 1
   \/ exists s' d', srcs !! S i = Some s' /\ dsts !! S i = Some d'
        /\ ~ (step s' = step s0 /\ addr s' = addr s0 /\ addr d' = addr d0
              /\ first s' = to_uint (first s0 + width)
              /\ first d' = to_uint (first d0 + width))) ->
  exists c,
    copy_run (S (Z.to_nat channels)) dsts srcs i channels 0
      (step s0) (addr s0) (addr d0) width = Ret c
    /\ (c = 0 \/ c = 1).
Proof.
  intros Hs Hd Hc Hnext.
  cbn [copy_run]. rewrite Hd.
  destruct (step d0 =? step s0); [|exists 0; now split; [|left]].
  change (0 + 1) with 1.
  destruct (channels - 1 =? 0) eqn:E1; [exists 1; now split; [|right]|].
  apply Z.eqb_neq in E1.
  destruct Hnext as [->|(s' & d' & Hs' & Hd' & Hsep)]; [lia|].
  replace (S i - 1)%nat with i by lia. rewrite Hs', Hs, Hd', Hd.
  destruct (step s' =? step s0) eqn:E2;
    [|exists 1; now split; [|right]].
  destruct (addr s' =? addr s0) eqn:E3;
    [|exists 1; now split; [|right]].
  destruct (addr d' =? addr d0) eqn:E4;
    [|exists 1; now split; [|right]].
  destruct (first s' =? to_uint (first s0 + width)) eqn:E5;
    [|exists 1; now split; [|right]].
  destruct (first d' =? to_uint (first d0 + width)) eqn:E6;
    [|exists 1; now split; [|right]].
  apply Z.eqb_eq in E2, E3, E4, E5, E6. now destruct Hsep.
Qed.

Lemma copy_loop_one_by_one dsts srcs doff soff frames format :
  length dsts = length srcs ->
  (forall j s s' d d',
     srcs !! j = Some s -> srcs !! S j = Some s' ->
     dsts !! j = Some d -> dsts !! S j = Some d' ->
     ~ (step s' = step s /\ addr s' = addr s /\ addr d' = addr d
        /\ first s' = to_uint (first s
                               + snd_pcm_format_physical_width format)
        /\ first d' = to_uint (first d
                               + snd_pcm_format_physical_width format))) ->
  forall fuel i channels (m : gmap Z Z),
    Z.of_nat (length srcs) = Z.of_nat i + channels -> 0 <= channels ->
    (Z.to_nat channels < fuel)%nat ->
    copy_loop fuel m dsts srcs i doff soff channels frames format
    = per_channel m (drop i dsts) doff (drop i srcs) soff frames format.
Proof.
  intros Hlen Hsep.
  induction fuel as [|k IH]; intros i channels m Hi Hc Hfuel; [lia|].
  cbn [Area.areas_copy_loop].
  destruct (channels >? 0) eqn:Epos.
  - apply Z.gtb_lt in Epos.
    destruct (srcs !! i) as [s0|] eqn:Hs.
    2:{ apply lookup_ge_None in Hs. lia. }
    destruct (dsts !! i) as [d0|] eqn:Hd.
    2:{ apply lookup_ge_None in Hd. lia. }
    rewrite (drop_S _ _ _ Hs), (drop_S _ _ _ Hd). cbn [per_channel_copy].
    destruct (copy_run_alone dsts srcs i channels s0 d0
                (snd_pcm_format_physical_width format))
      as (c & -> & Hc01); auto.
    + destruct (Z.eq_dec channels 1) as [->|Hne]; [now left|right].
      destruct (srcs !! S i) as [s'|] eqn:Hs'.
      2:{ apply lookup_ge_None in Hs'. lia. }
      destruct (dsts !! S i) as [d'|] eqn:Hd'.
      2:{ apply lookup_ge_None in Hd'. lia. }
      exists s', d'. repeat split. now apply (Hsep i).
    + assert ((c >? 1) = false) as ->
        by (destruct Hc01 as [->| ->]; reflexivity).
      cbn [andb].
      destruct (snd_pcm_area_copy _ _ m d0 doff s0 soff (to_uint frames)
                  format) as [[err|f] m1]; [|reflexivity].
      apply IH; lia.
  - rewrite Z.gtb_ltb in Epos. apply Z.ltb_ge in Epos.
    assert (channels = 0) as -> by lia.
    rewrite (drop_ge dsts), (drop_ge srcs) by lia. reflexivity.
Qed.

(** X30: when no pair of areas continues the pair before it (the same
    step and buffers, and on both sides the first sample one sample
    further), [snd_pcm_areas_copy] makes one call of [snd_pcm_area_copy]
    for every pair of areas, in the order of the lists, with the offsets
    and the count of frames it was given: nothing is collapsed. *)
Theorem separate_areas_copied_one_by_one (m : gmap Z Z) dsts srcs doff soff
    frames format :
  length dsts = length srcs ->
  (forall j s s' d d',
     srcs !! j = Some s -> srcs !! S j = Some s' ->
     dsts !! j = Some d -> dsts !! S j = Some d' ->
     ~ (step s' = step s /\ addr s' = addr s /\ addr d' = addr d
        /\ first s' = to_uint (first s
                               + snd_pcm_format_physical_width format)
        /\ first d' = to_uint (first d
                               + snd_pcm_format_physical_width format))) ->
  areas_copy m dsts doff srcs soff (Z.of_nat (length srcs)) frames format
  = per_channel m dsts doff srcs soff frames format.
Proof.
  intros Hlen Hsep. unfold snd_pcm_areas_copy.
  rewrite (copy_loop_one_by_one dsts srcs doff soff frames format Hlen
             Hsep); auto; lia.
Qed.

End Copy.

(** *** The theorems above at concrete buffers *)

Lemma replicated_listed k sil :
  forallb (fun i => byte_of sil i =? byte_of sil (i mod k))
    [0; 1; 2; 3; 4; 5; 6; 7] = true ->
  replicated k sil.
Proof.
  intros H i Hi. rewrite forallb_forall in H.
  apply Z.eqb_eq, H. simpl. lia.
Qed.

Lemma bytes_empty q : 0 <= load (∅ : gmap Z Z) q < 256.
Proof. unfold load. rewrite lookup_empty. simpl. lia. Qed.

Lemma bytes_store_bytes bs : forall (m : gmap Z Z) p,
  (forall q, 0 <= load m q < 256) ->
  forall q, 0 <= load (store_bytes m p bs) q < 256.
Proof.
  induction bs as [|b bs IH]; intros m p Hm q; [apply Hm|].
  cbn [store_bytes]. apply IH. intros q'.
  destruct (Z.eq_dec p q') as [<-|Hne].
  - rewrite AreaFacts.load_store_eq. apply Z.mod_pos_bound. lia.
  - rewrite AreaFacts.load_store_ne by exact Hne. apply Hm.
Qed.

Lemma area_silence_whole_bytes_witness :
  let width := fun _ : Z => 16 in
  let silence := fun _ : Z => 0x8000800080008000 in
  let a := {| addr := 1000; first := 0; step := 32 |} in
  let m := all_ones 1000 8 in
  let dst := snd_pcm_channel_area_addr a 0 in
  exists m',
    snd_pcm_area_silence width silence m a 0 2 2 = (Ret 0, m')
    /\ (forall i j, 0 <= i < 2 -> 0 <= j < 2 ->
                    load m' (dst + i * 4 + j) = byte_of (silence 2) j)
    /\ (forall q,
          (forall i j, 0 <= i < 2 -> 0 <= j < 2 -> q <> dst + i * 4 + j) ->
          load m' q = load m q).
Proof.
  intros width silence a m.
  exact (area_silence_whole_bytes width silence m a 0 2 2 2 4
           (or_intror (or_introl eq_refl)) eq_refl
           ltac:(cbv; discriminate) eq_refl ltac:(lia) ltac:(lia) eq_refl
           (replicated_listed 2 (silence 2) eq_refl)).
Defined.

Lemma separate_areas_silenced_one_by_one_witness :
  let width := fun _ : Z => 16 in
  let silence := fun _ : Z => 0x8000800080008000 in
  let areas := [ {| addr := 1000; first := 0; step := 16 |};
                 {| addr := 2000; first := 0; step := 16 |} ] in
  let m := all_ones 1000 8 in
  snd_pcm_areas_silence width silence m areas 0
    (Z.of_nat (length areas)) 4 2
  = per_channel_silence width silence m areas 0 4 2.
Proof.
  intros width silence areas m.
  apply (separate_areas_silenced_one_by_one width silence m areas 0 4 2).
  intros [|[|j]] a a' Ha Ha'; try discriminate.
  injection Ha as <-. injection Ha' as <-.
  intros (H & _). discriminate H.
Defined.

Lemma interleaved_buffer_silenced_witness :
  let width := fun _ : Z => 16 in
  let silence := fun _ : Z => 0x8000800080008000 in
  let pcm :=
    with_frame_bits 32 (fixed_pcm true 16 1 SND_PCM_STATE_SETUP 0 0) in
  let m := all_ones 1000 16 in
  let areas := snd_pcm_areas_from_buf pcm 2 1000 in
  let dst := 1000 + 1 * (2 * 2) in
  exists m1 m2,
    snd_pcm_areas_silence width silence m areas 1 2 2 2 = (Ret 0, m1)
    /\ per_channel_silence width silence m areas 1 2 2 = (Ret 0, m2)
    /\ forall q,
         load m1 q = load m2 q
         /\ load m1 q
            = if (dst <=? q) && (q <? dst + 2 * (2 * 2))
              then byte_of (silence 2) ((q - dst) mod 2)
              else load m q.
Proof.
  intros width silence pcm m.
  exact (interleaved_buffer_silenced width silence pcm 2 1000 m 1 2 2 2
           (or_intror (or_introl eq_refl)) eq_refl eq_refl eq_refl
           ltac:(lia) eq_refl ltac:(lia) ltac:(lia) eq_refl ltac:(lia)
           eq_refl (replicated_listed 2 (silence 2) eq_refl)).
Defined.

Lemma planar_buffers_silenced_one_by_one_witness :
  let width := fun _ : Z => 16 in
  let silence := fun _ : Z => 0x8000800080008000 in
  let pcm := fixed_pcm true 16 1 SND_PCM_STATE_SETUP 0 0 in
  let bufs := [1000; 2000] in
  let areas := [ {| addr := 1000; first := 0; step := 16 |};
                 {| addr := 2000; first := 0; step := 16 |} ] in
  let m := all_ones 1000 8 in
  Z.of_nat (length areas) = 2
  /\ (forall j a, areas !! j = Some a ->
                  bufs !! j = Some (addr a) /\ first a = 0
                  /\ step a = to_uint (sample_bits pcm))
  /\ snd_pcm_areas_silence width silence m areas 0 2 4 2
     = per_channel_silence width silence m areas 0 4 2.
Proof.
  intros width silence pcm bufs areas m.
  exact (planar_buffers_silenced_one_by_one width silence pcm 2 bufs areas
           m 0 4 2 ltac:(lia) eq_refl ltac:(cbv; discriminate)).
Defined.

Lemma area_copy_whole_bytes_witness :
  let width := fun _ : Z => 16 in
  let silence := fun _ : Z => 0 in
  let d := {| addr := 1000; first := 0; step := 32 |} in
  let s := {| addr := 2000; first := 0; step := 16 |} in
  let m := store_bytes ∅ 2000 [1; 2; 3; 4] in
  exists m',
    snd_pcm_area_copy width silence m d 0 s 0 2 2 = (Ret 0, m')
    /\ (forall i j, 0 <= i < 2 -> 0 <= j < 2 ->
          load m' (snd_pcm_channel_area_addr d 0 + i * 4 + j)
          = load m (snd_pcm_channel_area_addr s 0 + i * 2 + j))
    /\ (forall q,
          (forall i j, 0 <= i < 2 -> 0 <= j < 2 ->
             q <> snd_pcm_channel_area_addr d 0 + i * 4 + j) ->
          load m' q = load m q).
Proof.
  intros width silence d s m.
  assert (forall i j i' j',
            0 <= i < 2 -> 0 <= j < 2 -> 0 <= i' < 2 -> 0 <= j' < 2 ->
            snd_pcm_channel_area_addr s 0 + i * 2 + j
            <> snd_pcm_channel_area_addr d 0 + i' * 4 + j') as Hsep.
  { intros i j i' j' Hi Hj Hi' Hj'.
    change (snd_pcm_channel_area_addr s 0) with 2000.
    change (snd_pcm_channel_area_addr d 0) with 1000. lia. }
  exact (area_copy_whole_bytes width silence m d 0 s 0 2 2 2 2 4
           (or_intror (or_introl eq_refl)) eq_refl
           ltac:(cbv; discriminate) ltac:(cbv; discriminate)
           eq_refl eq_refl ltac:(lia) ltac:(lia) eq_refl
           (bytes_store_bytes _ _ _ bytes_empty) Hsep).
Defined.


Lemma separate_areas_copied_one_by_one_witness :
  let width := fun _ : Z => 16 in
  let silence := fun _ : Z => 0 in
  let dsts := [ {| addr := 1000; first := 0; step := 16 |};
                {| addr := 1100; first := 0; step := 16 |} ] in
  let srcs := [ {| addr := 2000; first := 0; step := 16 |};
                {| addr := 2100; first := 0; step := 16 |} ] in
  let m := store_bytes ∅ 2000 [1; 2; 3; 4] in
  snd_pcm_areas_copy width silence m dsts 0 srcs 0
    (Z.of_nat (length srcs)) 2 2
  = per_channel_copy width silence m dsts 0 srcs 0 2 2.
Proof.
  intros width silence dsts srcs m.
  apply (separate_areas_copied_one_by_one width silence m dsts srcs 0 0 2
           2 eq_refl).
  intros [|[|j]] s s' d d' Hs Hs' Hd Hd'; try discriminate.
  injection Hs as <-. injection Hs' as <-.
  intros (_ & H & _). discriminate H.
Defined.

End BufferFacts.
